(** * GitHub SyncMate: a shallow embedding of the synchronization engine

    The plugin of [src/main.ts] keeps the Markdown notes of a vault in step
    with a directory of a GitHub repository.  This development embeds the
    engine - path mapping, checksums, base64 transport, the retrying remote
    client, the delete and push protocols, the conflict detector and the
    orchestrator - as Rocq functions and states the properties of the
    specification over them.

    Conventions.
    - A JavaScript string is the sequence of its UTF-16 code units
      ([jsstring]); literals are written [js "..."].
    - A JavaScript [Map] or [Set] keeps insertion order; they are
      association lists ([JsMap], [JsSet]).
    - Code that awaits, throws or mutates [this] lives in the monad [M]:
      a state transformer over [World] whose result is a value or a
      thrown error.  State changes made before a [throw] persist, as in
      JavaScript.
    - The host (Obsidian), the network and the clock are the [Platform]:
      an abstract environment answering [requestUrl], [setTimeout],
      [Date.now], the conflict modal and the active-file query.
    - [console.log] output is not modelled.  Notices, status-bar texts,
      persisted snapshots and remote calls are recorded in the ghost
      trace [log].
    - A string that may be [undefined] is an [option] where the code
      tells the two apart, and the empty string where it only tests the
      value for truthiness or compares it with non-empty strings (the
      revision id kept in the metadata). *)

From Stdlib Require Import ZArith NArith QArith Qround Qpower Lia ZifyNat.
From Stdlib Require Import String Ascii List Bool DecimalString.
From stdpp Require Import base tactics decidable option list numbers.

Import ListNotations.
Local Open Scope list_scope.

(* ================================================================== *)
(** * JavaScript strings *)
(* ================================================================== *)

(** A string is its list of UTF-16 code units. *)
Abbreviation jsstring := (list N) (only parsing).

(** An ASCII literal as a JavaScript string. *)
Definition js (s : string) : jsstring :=
  map N_of_ascii (list_ascii_of_string s).

(** The code unit of ["\n"] and of ["/"]. *)
Definition nl : N := 10%N.
Definition slash : N := 47%N.

(** [s.startsWith(p)] and [s.endsWith(p)]. *)
Definition startsWith (s p : jsstring) : bool := bool_decide (p `prefix_of` s).
Definition endsWith (s p : jsstring) : bool := bool_decide (p `suffix_of` s).

(** [hay.includes(needle)] on strings: [needle] occurs as a contiguous
    block. *)
Fixpoint includes (hay needle : jsstring) : bool :=
  startsWith hay needle ||
  match hay with
  | [] => false
  | _ :: hay' => includes hay' needle
  end.

(** [s.split(sep)] for a one-character separator; the result is never
    empty ([""] splits into [[""]]). *)
Fixpoint split (sep : N) (s : jsstring) : list jsstring :=
  match s with
  | [] => [[]]
  | c :: s' =>
      if decide (c = sep) then [] :: split sep s'
      else match split sep s' with
           | [] => [[c]]
           | l :: ls => (c :: l) :: ls
           end
  end.

(** What follows the first occurrence of [c] (nothing when there is none). *)
Fixpoint dropThrough (c : N) (s : jsstring) : jsstring :=
  match s with
  | [] => []
  | x :: r => if decide (x = c) then r else dropThrough c r
  end.

(** [s.replace(/^\//, '')]: drops one leading slash. *)
Definition stripLeadingSlash (s : jsstring) : jsstring :=
  match s with
  | c :: r => if decide (c = slash) then r else s
  | [] => []
  end.

(** Drops one trailing slash. *)
Definition stripTrailingSlash (s : jsstring) : jsstring :=
  match reverse s with
  | c :: r => if decide (c = slash) then reverse r else s
  | [] => []
  end.

(** [s.replace(/^\/|\/$/g, '')]: the global replace removes a leading
    slash, then a trailing slash of what is left. *)
Definition stripSlashes (s : jsstring) : jsstring :=
  stripTrailingSlash (stripLeadingSlash s).

(** White space and line terminators removed by [String.prototype.trim]. *)
Definition isJsSpace (c : N) : bool :=
  bool_decide (c ∈ [9; 10; 11; 12; 13; 32; 160; 5760; 8232; 8233; 8239; 8287;
                    12288; 65279]%N)
  || ((8192 <=? c) && (c <=? 8202))%N.

Fixpoint trimStart (s : jsstring) : jsstring :=
  match s with
  | c :: r => if isJsSpace c then trimStart r else s
  | [] => []
  end.

Definition trim (s : jsstring) : jsstring :=
  reverse (trimStart (reverse (trimStart s))).

(** Decimal rendering of a number, as [String(n)] gives it. *)
Definition showZ (z : Z) : jsstring :=
  js (NilZero.string_of_int (Z.to_int z)).

Definition showN (n : N) : jsstring := showZ (Z.of_N n).

(* ================================================================== *)
(** * Path mapper and tracking predicates *)
(* ================================================================== *)

(** The fields of Obsidian's [TFile] that the engine reads. *)
Record TFile : Type := mkTFile {
  file_path : jsstring;   (* file.path: vault-relative path *)
  file_name : jsstring    (* file.name: last path segment   *)
}.

#[global] Instance TFile_eq_dec : EqDecision TFile.
Proof. solve_decision. Defined.

(** [isMarkdownFile] *)
Definition isMarkdownFile (filename : jsstring) : bool :=
  endsWith filename (js ".md") || endsWith filename (js ".markdown").

(** [shouldSyncFile], with [settings.syncPath] as first argument. *)
Definition shouldSyncFile (syncPath : jsstring) (file : TFile) : bool :=
  let filePath := file_path file in
  let normalizedSyncPath := stripSlashes syncPath in
  if decide (normalizedSyncPath = []) then isMarkdownFile (file_name file)
  else
    let normalizedLocalPath := stripLeadingSlash filePath in
    startsWith normalizedLocalPath (normalizedSyncPath ++ [slash])
    && isMarkdownFile (file_name file).

(** [shouldSyncPath] *)
Definition shouldSyncPath (syncPath : jsstring) (path : jsstring) : bool :=
  let normalizedSyncPath := stripSlashes syncPath in
  let normalizedPath := stripLeadingSlash path in
  if decide (normalizedSyncPath = []) then isMarkdownFile path
  else
    startsWith normalizedPath (normalizedSyncPath ++ [slash])
    && isMarkdownFile path.

(** [getLocalPath] *)
Definition getLocalPath (syncPath : jsstring) (remotePath : jsstring) : jsstring :=
  let normalizedSyncPath := stripSlashes syncPath in
  let normalizedRemotePath := stripLeadingSlash remotePath in
  if decide (normalizedSyncPath = []) then normalizedRemotePath
  else if decide (normalizedRemotePath = normalizedSyncPath) then []
  else
    let expectedPrefix := normalizedSyncPath ++ [slash] in
    if startsWith normalizedRemotePath expectedPrefix
    then drop (length expectedPrefix) normalizedRemotePath
    else normalizedRemotePath.

(** [getRemotePath] *)
Definition getRemotePath (syncPath : jsstring) (localPath : jsstring) : jsstring :=
  let normalizedLocalPath := stripLeadingSlash localPath in
  let normalizedSyncPath := stripSlashes syncPath in
  if decide (normalizedSyncPath = []) then normalizedLocalPath
  else if decide (normalizedLocalPath = []) then normalizedSyncPath
  else normalizedSyncPath ++ [slash] ++ normalizedLocalPath.

(* ================================================================== *)
(** * Conflict resolver: the merge policy *)
(* ================================================================== *)

(** The loop of [mergeContent]: every remote line that [localLines] does
    not include is pushed onto [mergedLines] and raises the flag. *)
Fixpoint mergeLoop (localLines remoteLines mergedLines : list jsstring)
    (hasNewRemoteLines : bool) : list jsstring * bool :=
  match remoteLines with
  | [] => (mergedLines, hasNewRemoteLines)
  | remoteLine :: rest =>
      if bool_decide (remoteLine ∈ localLines)
      then mergeLoop localLines rest mergedLines hasNewRemoteLines
      else mergeLoop localLines rest (mergedLines ++ [remoteLine]) true
  end.

(** [mergeContent].  [mergedLines] is computed and then left unused: the
    returned text is built from the two whole contents. *)
Definition mergeContent (localContent remoteContent : jsstring) : jsstring :=
  let localLines := split nl localContent in
  let remoteLines := split nl remoteContent in
  let '(mergedLines, hasNewRemoteLines) :=
    mergeLoop localLines remoteLines localLines false in
  if hasNewRemoteLines then
    js "<<<<<<< local version" ++ [nl] ++ localContent ++ [nl] ++
    js "=======" ++ [nl] ++ remoteContent ++ [nl] ++
    js ">>>>>>> remote version" ++ [nl]
  else localContent.

(* ================================================================== *)
(** * Base64 transport of file contents *)
(* ================================================================== *)

(** ** UTF-8, as [TextEncoder], [TextDecoder] and [Buffer] implement it *)

Definition isHighSurrogate (c : N) : bool := ((55296 <=? c) && (c <=? 56319))%N.
Definition isLowSurrogate (c : N) : bool := ((56320 <=? c) && (c <=? 57343))%N.

(** The code points of a string.  A surrogate pair is one code point; a
    surrogate without its partner is replaced by U+FFFD (65533). *)
Fixpoint codePoints (s : jsstring) : list N :=
  match s with
  | [] => []
  | c :: r =>
      if isHighSurrogate c then
        match r with
        | d :: r' =>
            if isLowSurrogate d
            then (65536 + (c - 55296) * 1024 + (d - 56320))%N :: codePoints r'
            else 65533%N :: codePoints r
        | [] => [65533%N]
        end
      else if isLowSurrogate c then 65533%N :: codePoints r
      else c :: codePoints r
  end.

(** The UTF-8 bytes of one code point. *)
Definition utf8EncodeCodePoint (cp : N) : list N :=
  (if cp <? 128 then [cp]
   else if cp <? 2048 then [192 + cp / 64; 128 + cp mod 64]
   else if cp <? 65536 then
     [224 + cp / 4096; 128 + (cp / 64) mod 64; 128 + cp mod 64]
   else
     [240 + cp / 262144; 128 + (cp / 4096) mod 64; 128 + (cp / 64) mod 64;
      128 + cp mod 64])%N.

(** [new TextEncoder().encode(str)] and [Buffer.from(str, 'utf8')]. *)
Definition utf8Encode (s : jsstring) : list N :=
  flat_map utf8EncodeCodePoint (codePoints s).

(** The decoder is the state machine of the Encoding Standard, run in
    replacement mode: a malformed sequence yields U+FFFD and decoding
    resumes at the offending byte. *)
Record Utf8State : Type := mkUtf8State {
  u_codePoint : N;
  u_bytesSeen : N;
  u_bytesNeeded : N;
  u_lower : N;
  u_upper : N
}.

Definition utf8Init : Utf8State := mkUtf8State 0 0 0 128 191.

(** A byte read while no sequence is open. *)
Definition utf8Start (b : N) : list N * Utf8State :=
  (if b <=? 127 then ([b], utf8Init)
   else if (194 <=? b) && (b <=? 223) then
     ([], mkUtf8State (b mod 32) 0 1 128 191)
   else if (224 <=? b) && (b <=? 239) then
     ([], mkUtf8State (b mod 16) 0 2
            (if b =? 224 then 160 else 128) (if b =? 237 then 159 else 191))
   else if (240 <=? b) && (b <=? 244) then
     ([], mkUtf8State (b mod 8) 0 3
            (if b =? 240 then 144 else 128) (if b =? 244 then 143 else 191))
   else ([65533], utf8Init))%N.

Definition utf8Step (st : Utf8State) (b : N) : list N * Utf8State :=
  (if u_bytesNeeded st =? 0 then utf8Start b
   else if (b <? u_lower st) || (u_upper st <? b) then
     let '(out, st') := utf8Start b in (65533 :: out, st')
   else
     let cp := u_codePoint st * 64 + b mod 64 in
     if u_bytesSeen st + 1 =? u_bytesNeeded st then ([cp], utf8Init)
     else ([], mkUtf8State cp (u_bytesSeen st + 1) (u_bytesNeeded st) 128 191))%N.

Fixpoint utf8DecodeFrom (st : Utf8State) (bytes : list N) : list N :=
  match bytes with
  | [] => if (u_bytesNeeded st =? 0)%N then [] else [65533%N]
  | b :: r => let '(out, st') := utf8Step st b in out ++ utf8DecodeFrom st' r
  end.

(** The UTF-16 code units of a code point. *)
Definition codeUnits (cp : N) : jsstring :=
  (if cp <? 65536 then [cp]
   else [55296 + (cp - 65536) / 1024; 56320 + (cp - 65536) mod 1024])%N.

(** [buffer.toString('utf8')] *)
Definition utf8Decode (bytes : list N) : jsstring :=
  flat_map codeUnits (utf8DecodeFrom utf8Init bytes).

(** [new TextDecoder('utf-8').decode(bytes)]: as above, after a leading
    byte order mark has been dropped. *)
Definition textDecoderDecode (bytes : list N) : jsstring :=
  match bytes with
  | b1 :: b2 :: b3 :: r =>
      if bool_decide (b1 = 239 ∧ b2 = 187 ∧ b3 = 191)%N then utf8Decode r
      else utf8Decode bytes
  | _ => utf8Decode bytes
  end.

(** A string is well formed when every surrogate code unit is half of a
    pair (and every element is a 16-bit code unit). *)
Fixpoint wellFormed (s : jsstring) : bool :=
  match s with
  | [] => true
  | c :: r =>
      if isHighSurrogate c then
        match r with
        | d :: r' => isLowSurrogate d && wellFormed r'
        | [] => false
        end
      else negb (isLowSurrogate c) && (c <? 65536)%N && wellFormed r
  end.

(** A Unicode scalar value: a code point that is no surrogate. *)
Definition isScalarValue (cp : N) : Prop :=
  (cp < 1114112 ∧ ¬ (55296 ≤ cp ≤ 57343))%N.

(** The byte order mark U+FEFF. *)
Definition byteOrderMark : N := 65279%N.

(** ** Base64 (RFC 4648) *)

Definition base64Alphabet : jsstring :=
  js "ABCDEFGHIJKLMNOPQRSTUVWXYZabcdefghijklmnopqrstuvwxyz0123456789+/".

Definition padChar : N := 61%N.

Definition b64Char (i : N) : N := nth (N.to_nat i) base64Alphabet 0%N.

Fixpoint indexOf (c : N) (l : list N) : option N :=
  match l with
  | [] => None
  | x :: r => if decide (x = c) then Some 0%N else N.succ <$> indexOf c r
  end.

Definition b64Value (c : N) : option N := indexOf c base64Alphabet.

(** Three bytes give four 6-bit groups; a tail of one or two bytes gives
    two or three. *)
Fixpoint sextetsOf (bytes : list N) : list N :=
  match bytes with
  | a :: b :: c :: r =>
      (a / 4 :: (a mod 4) * 16 + b / 16 :: (b mod 16) * 4 + c / 64 :: c mod 64
       :: sextetsOf r)%N
  | [a; b] => [a / 4; (a mod 4) * 16 + b / 16; (b mod 16) * 4]%N
  | [a] => [a / 4; (a mod 4) * 16]%N
  | [] => []
  end.

(** Four 6-bit groups give three bytes; the spare bits of a tail of
    three or two groups are dropped, a single group gives nothing. *)
Fixpoint bytesOf (sextets : list N) : list N :=
  match sextets with
  | p :: q :: r :: s :: rest =>
      (p * 4 + q / 16 :: (q mod 16) * 16 + r / 4 :: (r mod 4) * 64 + s
       :: bytesOf rest)%N
  | [p; q; r] => [p * 4 + q / 16; (q mod 16) * 16 + r / 4]%N
  | [p; q] => [p * 4 + q / 16]%N
  | _ => []
  end.

Definition padLength (n : nat) : nat :=
  match n mod 3 with 1 => 2 | 2 => 1 | _ => 0 end.

(** [buffer.toString('base64')], and [btoa] on a string of bytes. *)
Definition base64Encode (bytes : list N) : jsstring :=
  map b64Char (sextetsOf bytes) ++ replicate (padLength (length bytes)) padChar.

(** [btoa(binaryString)] throws on a character above 255. *)
Definition btoa (binaryString : jsstring) : option jsstring :=
  if forallb (fun c => c <? 256)%N binaryString
  then Some (base64Encode binaryString) else None.

(** [Buffer.from(str, 'base64')]: characters outside the alphabet are
    skipped and decoding stops at the first padding character.  The
    URL-safe ['-'] and ['_'] count as ['+'] and ['/']. *)
Definition bufferValue (c : N) : option N :=
  if decide (c = 45%N) then Some 62%N
  else if decide (c = 95%N) then Some 63%N
  else b64Value c.

Fixpoint untilPad (s : jsstring) : jsstring :=
  match s with
  | [] => []
  | c :: r => if decide (c = padChar) then [] else c :: untilPad r
  end.

Definition bufferFromBase64 (str : jsstring) : list N :=
  bytesOf (omap bufferValue (untilPad str)).

(** [atob]: the forgiving-base64 decode of the HTML Standard. *)
Definition isAsciiWhitespace (c : N) : bool :=
  bool_decide (c ∈ [9; 10; 12; 13; 32]%N).

Definition stripPadding (data : jsstring) : jsstring :=
  if decide (length data mod 4 = 0) then
    match reverse data with
    | c1 :: c2 :: r =>
        if decide (c1 = padChar) then
          if decide (c2 = padChar) then reverse r else reverse (c2 :: r)
        else data
    | [c1] => if decide (c1 = padChar) then [] else data
    | [] => data
    end
  else data.

Definition atob (data : jsstring) : option (list N) :=
  let data := filter (fun c => isAsciiWhitespace c = false) data in
  let data := stripPadding data in
  if decide (length data mod 4 = 1) then None
  else bytesOf <$> mapM b64Value data.

(** [encodeBase64]: with [Buffer] when the platform has it, else with
    [TextEncoder] and [btoa].  [None] stands for the thrown
    ["Failed to encode string to base64."]. *)
Definition encodeBase64 (hasBuffer : bool) (str : jsstring) : option jsstring :=
  if hasBuffer then Some (base64Encode (utf8Encode str))
  else
    let bytes := utf8Encode str in
    (* binaryString += String.fromCharCode(bytes[i]) *)
    let binaryString := bytes in
    btoa binaryString.

(** [str.replace(/[^A-Za-z0-9+/=]/g, '')] *)
Definition cleanBase64 (str : jsstring) : jsstring :=
  filter (fun c => is_Some (b64Value c) ∨ c = padChar) str.

(** [while (cleanedStr.length % 4 !== 0) cleanedStr += '='] *)
Definition padToMultipleOf4 (s : jsstring) : jsstring :=
  s ++ replicate ((4 - length s mod 4) mod 4) padChar.

(** [decodeBase64]; [None] stands for the thrown
    ["Failed to decode base64 string: ..."]. *)
Definition decodeBase64 (hasBuffer : bool) (str : jsstring) : option jsstring :=
  if hasBuffer then Some (utf8Decode (bufferFromBase64 str))
  else
    let cleanedStr := padToMultipleOf4 (cleanBase64 str) in
    binaryString ← atob cleanedStr;
    (* bytes[i] = binaryString.charCodeAt(i) *)
    let bytes := binaryString in
    Some (textDecoderDecode bytes).

(* ================================================================== *)
(** * Paths in URLs *)
(* ================================================================== *)

(** The characters [encodeURIComponent] leaves as they are: ASCII
    letters and digits and [- _ . ! ~ * ' ( )]. *)
Definition isUriUnreserved (c : N) : bool :=
  ((65 <=? c) && (c <=? 90) || (97 <=? c) && (c <=? 122)
   || (48 <=? c) && (c <=? 57))%N
  || bool_decide (c ∈ [45; 95; 46; 33; 126; 42; 39; 40; 41]%N).

Definition hexDigit (d : N) : N := (if d <? 10 then 48 + d else 55 + d)%N.

(** ["%XX"] for one byte, in upper-case hexadecimal. *)
Definition percentEncoded (byte : N) : list N :=
  [37%N; hexDigit (byte / 16); hexDigit (byte mod 16)].

(** [encodeURIComponent(s)]; [None] is the [URIError] thrown for a
    surrogate without its partner. *)
Fixpoint encodeURIComponent (s : list N) : option (list N) :=
  match s with
  | [] => Some []
  | c :: r =>
      if isUriUnreserved c then cons c <$> encodeURIComponent r
      else if isHighSurrogate c then
        match r with
        | d :: r' =>
            if isLowSurrogate d then
              app (flat_map percentEncoded
                     (utf8EncodeCodePoint
                        (65536 + (c - 55296) * 1024 + (d - 56320))%N))
                <$> encodeURIComponent r'
            else None
        | [] => None
        end
      else if isLowSurrogate c then None
      else app (flat_map percentEncoded (utf8EncodeCodePoint c))
             <$> encodeURIComponent r
  end.

(** [parts.join(sep)] *)
Definition join (sep : N) (parts : list (list N)) : list N :=
  match parts with
  | [] => []
  | part :: rest => part ++ flat_map (cons sep) rest
  end.

(** [encodeFilePath]:
    [path.split('/').map(segment => encodeURIComponent(segment)).join('/')] *)
Definition encodeFilePath (path : list N) : option (list N) :=
  join slash <$> mapM encodeURIComponent (split slash path).

(* ================================================================== *)
(** * Insertion-ordered maps and sets *)
(* ================================================================== *)

(** A JavaScript [Map] iterates its entries in insertion order, and
    [set] on a present key keeps the entry's place. *)
Section JsMap.
Context {K V : Type} `{EqDecision K}.

Fixpoint mapGet (k : K) (m : list (K * V)) : option V :=
  match m with
  | [] => None
  | (k', v) :: r => if decide (k' = k) then Some v else mapGet k r
  end.

Definition mapHas (k : K) (m : list (K * V)) : bool :=
  bool_decide (is_Some (mapGet k m)).

Fixpoint mapSet (k : K) (v : V) (m : list (K * V)) : list (K * V) :=
  match m with
  | [] => [(k, v)]
  | (k', v') :: r =>
      if decide (k' = k) then (k, v) :: r else (k', v') :: mapSet k v r
  end.

Fixpoint mapDelete (k : K) (m : list (K * V)) : list (K * V) :=
  match m with
  | [] => []
  | (k', v') :: r =>
      if decide (k' = k) then mapDelete k r else (k', v') :: mapDelete k r
  end.

End JsMap.

Abbreviation JsMap K V := (list (K * V)) (only parsing).

Section JsSet.
Context {K : Type} `{EqDecision K}.

Definition setHas (k : K) (s : list K) : bool := bool_decide (k ∈ s).

Definition setAdd (k : K) (s : list K) : list K :=
  if setHas k s then s else s ++ [k].

Definition setDelete (k : K) (s : list K) : list K :=
  filter (λ k', k' ≠ k) s.

End JsSet.

Abbreviation JsSet K := (list K) (only parsing).

(* ================================================================== *)
(** * Data model *)
(* ================================================================== *)

Inductive ConflictResolution : Type := CRLocal | CRRemote | CRMerge | CRAsk.

(** What the conflict modal can answer. *)
Inductive Resolution : Type := ResLocal | ResRemote | ResMerge.

Inductive Verbosity : Type := Quiet | Standard | Verbose.

Inductive SyncType : Type :=
  ManualSync | AutoSync | RealtimeSync | StartupSync | SaveOnCloseSync.

#[global] Instance ConflictResolution_eq_dec : EqDecision ConflictResolution.
Proof. solve_decision. Defined.

#[global] Instance Resolution_eq_dec : EqDecision Resolution.
Proof. solve_decision. Defined.

(** [GitHubSyncSettings] *)
Record GitHubSyncSettings : Type := mkSettings {
  githubToken : jsstring;
  repoOwner : jsstring;
  repoName : jsstring;
  branch : jsstring;
  syncPath : jsstring;
  autoSync : bool;
  syncInterval : Z;
  conflictResolution : ConflictResolution;
  realtimeSync : bool;
  syncOnSave : bool;
  lastSyncTime : Z;
  notificationVerbosity : Verbosity
}.

(** [FileMetadata] *)
Record FileMetadata : Type := mkMetadata {
  md_path : jsstring;
  githubBlobSha : jsstring;
  lastModified : Z;
  localChecksum : jsstring;
  remoteContentChecksum : jsstring;
  conflicted : bool
}.

(** [SyncState]; [lastActiveFile] belongs to the workspace event handler
    and is left out. *)
Record SyncState : Type := mkSyncState {
  inProgress : bool;
  lastSync : Z;
  pendingFiles : JsSet jsstring;
  fileMetadata : JsMap jsstring FileMetadata;
  pendingDeletions : JsMap jsstring jsstring;
  recentlyPushedFiles : JsMap jsstring Z;
  recentlyDeletedFromRemote : JsMap jsstring Z;
  remoteChangesPendingForActiveFiles : JsSet jsstring
}.

(** [PluginData], what [savePluginData] hands to the host. *)
Record PluginData : Type := mkPluginData {
  pd_settings : GitHubSyncSettings;
  pd_fileMetadata : JsMap jsstring FileMetadata;
  pd_pendingDeletions : JsMap jsstring jsstring;
  pd_remoteChangesPendingForActiveFiles : JsSet jsstring
}.

Definition RECENTLY_PUSHED_GRACE_PERIOD_MS : Z := 90 * 1000.
Definition RECENTLY_DELETED_GRACE_PERIOD_MS : Z := 120 * 1000.

(** ** Errors and the remote API *)

(** A thrown value: its [message] and, when present, its [status]. *)
Record JsError : Type := mkError {
  err_message : jsstring;
  err_status : option N
}.

Definition plainError (message : jsstring) : JsError := mkError message None.

(** The requests the engine sends to the contents API.  A request stands
    for the URL built from the repository, [encodeFilePath] of the path
    and the branch, together with method and body.  It names the path
    as it is before the encoding: the engine encodes the path where it
    builds the URL ([encodeFilePathM] below), which can throw, and two
    paths never have the same encoding. *)
Inductive Request : Type :=
| GetContents (remotePath ref : jsstring)
| PutContents (remotePath message content : jsstring) (sha : option jsstring)
              (branchName : jsstring)
| DeleteContents (remotePath message sha branchName : jsstring).

(** An entry of a directory listing. *)
Record RemoteItem : Type := mkItem {
  item_type : jsstring;
  item_name : jsstring;
  item_path : jsstring;
  item_sha : jsstring
}.

(** The [content] field of an answer: absent, the base64 text of a
    file, or - in the answer to a PUT - an object, taken by the [sha] it
    may hold. *)
Inductive ContentField : Type :=
| NoContent
| ContentText (base64 : jsstring)
| ContentObject (sha : option jsstring).

(** A JSON object of the contents API, by the fields the engine reads:
    [type], [name], [path], [sha] and [content]. *)
Record JsonObject : Type := mkObject {
  obj_type : jsstring;
  obj_name : jsstring;
  obj_path : jsstring;
  obj_sha : option jsstring;
  obj_content : ContentField
}.

(** [content] when it is a string. *)
Definition contentText (content : ContentField) : option jsstring :=
  match content with
  | ContentText base64 => Some base64
  | NoContent | ContentObject _ => None
  end.

Inductive Json : Type :=
| JArray (items : list RemoteItem)
| JObject (o : JsonObject)
| JNull.

(** What [requestUrl] resolves to; reading [response.json] may throw. *)
Record Response : Type := mkResponse {
  resp_status : N;
  resp_text : jsstring;
  resp_json : JsError + Json
}.

(** [requestUrl] resolves with a response or rejects with an error. *)
Inductive HttpOutcome : Type :=
| Responded (r : Response)
| Rejected (e : JsError).

(** The result of a computation: a value or a thrown error. *)
Inductive Res (A : Type) : Type :=
| Ok (a : A)
| Throw (e : JsError).
Arguments Ok {A} a.
Arguments Throw {A} e.

(** One attempt of [makeGitHubRequest]: what [requestUrl] gave and, when
    the attempt was followed by a retry, the delay waited first. *)
Record Attempt : Type := mkAttempt {
  att_outcome : HttpOutcome;
  att_backoff : option Q
}.

(** The ghost trace. *)
Inductive Event : Type :=
| EvCall (req : Request) (attempts : list Attempt) (result : Res Json)
| EvSleep (ms : Z)
| EvNotice (message : jsstring)
| EvStatusBar (text : jsstring)
| EvSave (data : PluginData).

(** ** The platform *)

(** The host application, the network and the clock.  [treeDepth] bounds
    the nesting of remote directories: a listing that deep is taken to
    hold no further directory. *)
Class Platform : Type := mkPlatform {
  Env : Type;
  requestUrl : Request → Env → HttpOutcome * Env;
  setTimeout : Q → Env → Env;
  dateNow : Env → Z;
  getActiveFile : Env → option jsstring;
  askForResolution : jsstring → jsstring → jsstring → Env → Resolution * Env;
  subtleDigest : option (jsstring → jsstring);
  hasBuffer : bool;
  treeDepth : nat
}.

(** A file of the vault. *)
Record VaultFile : Type := mkVaultFile {
  vf_content : jsstring;
  vf_mtime : Z
}.

(** Field updates of [SyncState] and [FileMetadata]. *)
Definition set_inProgress (b : bool) (st : SyncState) : SyncState :=
  mkSyncState b (lastSync st) (pendingFiles st) (fileMetadata st)
    (pendingDeletions st) (recentlyPushedFiles st)
    (recentlyDeletedFromRemote st) (remoteChangesPendingForActiveFiles st).

Definition set_lastSync (t : Z) (st : SyncState) : SyncState :=
  mkSyncState (inProgress st) t (pendingFiles st) (fileMetadata st)
    (pendingDeletions st) (recentlyPushedFiles st)
    (recentlyDeletedFromRemote st) (remoteChangesPendingForActiveFiles st).

Definition upd_pendingFiles (f : JsSet jsstring → JsSet jsstring)
    (st : SyncState) : SyncState :=
  mkSyncState (inProgress st) (lastSync st) (f (pendingFiles st))
    (fileMetadata st) (pendingDeletions st) (recentlyPushedFiles st)
    (recentlyDeletedFromRemote st) (remoteChangesPendingForActiveFiles st).

Definition upd_fileMetadata
    (f : JsMap jsstring FileMetadata → JsMap jsstring FileMetadata)
    (st : SyncState) : SyncState :=
  mkSyncState (inProgress st) (lastSync st) (pendingFiles st)
    (f (fileMetadata st)) (pendingDeletions st) (recentlyPushedFiles st)
    (recentlyDeletedFromRemote st) (remoteChangesPendingForActiveFiles st).

Definition upd_pendingDeletions
    (f : JsMap jsstring jsstring → JsMap jsstring jsstring)
    (st : SyncState) : SyncState :=
  mkSyncState (inProgress st) (lastSync st) (pendingFiles st)
    (fileMetadata st) (f (pendingDeletions st)) (recentlyPushedFiles st)
    (recentlyDeletedFromRemote st) (remoteChangesPendingForActiveFiles st).

Definition upd_recentlyPushedFiles
    (f : JsMap jsstring Z → JsMap jsstring Z) (st : SyncState) : SyncState :=
  mkSyncState (inProgress st) (lastSync st) (pendingFiles st)
    (fileMetadata st) (pendingDeletions st) (f (recentlyPushedFiles st))
    (recentlyDeletedFromRemote st) (remoteChangesPendingForActiveFiles st).

Definition upd_recentlyDeletedFromRemote
    (f : JsMap jsstring Z → JsMap jsstring Z) (st : SyncState) : SyncState :=
  mkSyncState (inProgress st) (lastSync st) (pendingFiles st)
    (fileMetadata st) (pendingDeletions st) (recentlyPushedFiles st)
    (f (recentlyDeletedFromRemote st)) (remoteChangesPendingForActiveFiles st).

Definition upd_remoteChangesPending
    (f : JsSet jsstring → JsSet jsstring) (st : SyncState) : SyncState :=
  mkSyncState (inProgress st) (lastSync st) (pendingFiles st)
    (fileMetadata st) (pendingDeletions st) (recentlyPushedFiles st)
    (recentlyDeletedFromRemote st) (f (remoteChangesPendingForActiveFiles st)).

Definition set_lastSyncTime (t : Z) (s : GitHubSyncSettings) : GitHubSyncSettings :=
  mkSettings (githubToken s) (repoOwner s) (repoName s) (branch s) (syncPath s)
    (autoSync s) (syncInterval s) (conflictResolution s) (realtimeSync s)
    (syncOnSave s) t (notificationVerbosity s).

(** ** The world and the monad *)

Section Engine.
Context `{Platform}.

(** Everything a run can read or change: the plugin's state and settings,
    the vault, the environment, and the ghost trace. *)
Record World : Type := mkWorld {
  syncState : SyncState;
  settings : GitHubSyncSettings;
  vault : JsMap jsstring VaultFile;
  env : Env;
  log : list Event
}.

Definition M (A : Type) : Type := World → Res A * World.

Definition ret {A} (a : A) : M A := λ w, (Ok a, w).

Definition bind {A B} (m : M A) (k : A → M B) : M B :=
  λ w, match m w with
       | (Ok a, w') => k a w'
       | (Throw e, w') => (Throw e, w')
       end.

Definition throw {A} (e : JsError) : M A := λ w, (Throw e, w).

(** [try { m } catch (e) { h e }] *)
Definition tryCatch {A} (m : M A) (h : JsError → M A) : M A :=
  λ w, match m w with
       | (Ok a, w') => (Ok a, w')
       | (Throw e, w') => h e w'
       end.

(** [try { m } finally { f }] *)
Definition tryFinally {A} (m : M A) (f : M unit) : M A :=
  λ w, match m w with
       | (r, w') =>
           match f w' with
           | (Ok _, w'') => (r, w'')
           | (Throw e, w'') => (Throw e, w'')
           end
       end.

(** The outcome of [m] as a value: the body of a [try] whose handler
    inspects the error. *)
Definition attempt {A} (m : M A) : M (Res A) :=
  λ w, match m w with
       | (r, w') => (Ok r, w')
       end.

#[global] Instance M_ret : MRet M := @ret.
#[global] Instance M_bind : MBind M := λ A B k m, bind m k.

Definition getState : M SyncState := λ w, (Ok (syncState w), w).

Definition modifyState (f : SyncState → SyncState) : M unit :=
  λ w, (Ok tt, mkWorld (f (syncState w)) (settings w) (vault w) (env w) (log w)).

Definition getSettings : M GitHubSyncSettings := λ w, (Ok (settings w), w).

Definition modifySettings (f : GitHubSyncSettings → GitHubSyncSettings) : M unit :=
  λ w, (Ok tt, mkWorld (syncState w) (f (settings w)) (vault w) (env w) (log w)).

Definition getVault : M (JsMap jsstring VaultFile) := λ w, (Ok (vault w), w).

Definition modifyVault
    (f : JsMap jsstring VaultFile → JsMap jsstring VaultFile) : M unit :=
  λ w, (Ok tt, mkWorld (syncState w) (settings w) (f (vault w)) (env w) (log w)).

Definition emit (e : Event) : M unit :=
  λ w, (Ok tt, mkWorld (syncState w) (settings w) (vault w) (env w) (log w ++ [e])).

(** An interaction with the environment. *)
Definition envStep {A} (f : Env → A * Env) : M A :=
  λ w, match f (env w) with
       | (a, e') => (Ok a, mkWorld (syncState w) (settings w) (vault w) e' (log w))
       end.

(** [Date.now()] *)
Definition now : M Z := λ w, (Ok (dateNow (env w)), w).

(** [await new Promise(resolve => setTimeout(resolve, ms))] *)
Definition sleep (ms : Z) : M unit :=
  _ ← envStep (λ e, (tt, setTimeout (inject_Z ms) e));
  emit (EvSleep ms).

(** [this.debouncedShowNotice(message, ...)] and [new Notice(message)] *)
Definition showNotice (message : jsstring) : M unit := emit (EvNotice message).

(** [this.updateStatusBar(status)] *)
Definition updateStatusBar (status : jsstring) : M unit :=
  emit (EvStatusBar (js "GitHub SyncMate: " ++ status)).

(** [for (const x of xs) { body x }] *)
Fixpoint forEach {A} (xs : list A) (body : A → M unit) : M unit :=
  match xs with
  | [] => mret tt
  | x :: rest => _ ← body x; forEach rest body
  end.

Definition when (b : bool) (m : M unit) : M unit := if b then m else mret tt.

(** A string is truthy when it is not empty; an absent value is falsy. *)
Definition nonEmpty (s : jsstring) : bool :=
  match s with [] => false | _ => true end.

Definition truthy (s : option jsstring) : bool :=
  match s with Some s => nonEmpty s | None => false end.

(** ** Checksum service *)

(** [x | 0]: the signed 32-bit integer of a number. *)
Definition toInt32 (z : Z) : Z := ((z + 2 ^ 31) mod 2 ^ 32 - 2 ^ 31)%Z.

(** The fallback of [calculateChecksum]:
    [hash = ((hash << 5) - hash) + char; hash = hash & hash]. *)
Definition fallbackHash (content : jsstring) : Z :=
  fold_left (λ hash char, toInt32 (toInt32 (hash * 32) - hash + Z.of_N char)%Z)
            content 0%Z.

(** [calculateChecksum]: the hexadecimal SHA-256 digest where the
    platform has [crypto.subtle], else the decimal fallback hash. *)
Definition calculateChecksum (content : jsstring) : jsstring :=
  match subtleDigest with
  | Some digest => digest content
  | None => showZ (fallbackHash content)
  end.

(** ** Persistence and settings *)

(** [savePluginData] *)
Definition savePluginData : M unit :=
  st ← getState;
  s ← getSettings;
  emit (EvSave (mkPluginData s (fileMetadata st) (pendingDeletions st)
                  (remoteChangesPendingForActiveFiles st))).

(** [validateSettings] *)
Definition validateSettings : M bool :=
  s ← getSettings;
  if negb (nonEmpty (githubToken s)) || negb (nonEmpty (repoOwner s))
     || negb (nonEmpty (repoName s))
  then
    _ ← showNotice
          (js "Please configure GitHub settings first (Token, Owner, Repo Name).");
    mret false
  else mret true.

(** [updateOverallStatusBar] *)
Definition updateOverallStatusBar : M unit :=
  st ← getState;
  s ← getSettings;
  if inProgress st then mret tt
  else if realtimeSync s then
    updateStatusBar (js "Real-time sync active " ++ [9889%N])
  else if autoSync s then
    updateStatusBar (js "Auto-sync active " ++ [55357%N; 56580%N])
  else updateStatusBar (js "Idle").

(** ** Remote client *)

(** [isRetryableError] of [makeGitHubRequest]: a network failure is
    recognised by the error's message, a server failure by its status. *)
Definition isRetryableError (error : JsError) : bool :=
  (nonEmpty (err_message error)
   && (includes (err_message error) (js "net::ERR_TIMED_OUT")
       || includes (err_message error) (js "Failed to fetch")))
  || match err_status error with
     | Some status =>
         negb (status =? 0)%N
         && bool_decide (status ∈ [500; 502; 503; 504; 409]%N)
     | None => false
     end.

(** The [try] block of one attempt: a rejected request, a status of 400
    or more, and a body that does not parse all end in the [catch]. *)
Definition classifyOutcome (out : HttpOutcome) : JsError + Json :=
  match out with
  | Rejected e => inl e
  | Responded r =>
      if (400 <=? resp_status r)%N then
        inl (mkError (js "GitHub API Error: " ++ showN (resp_status r)
                        ++ js " - " ++ resp_text r)
                     (Some (resp_status r)))
      else resp_json r
  end.

(** The [while (attempts < retries)] loop; [remaining] is
    [retries - attempts].  The error built from [error.request.response]
    is thrown inside a [try] whose [catch] discards it, so the original
    error is the one rethrown. *)
Fixpoint requestLoop (remaining : nat) (req : Request) (delay : Q)
    (attempts : list Attempt) : M Json :=
  match remaining with
  | 0 =>
      let error := plainError
        (js "Max retries reached for GitHub request without successful response.") in
      _ ← emit (EvCall req attempts (Throw error));
      throw error
  | S remaining' =>
      out ← envStep (requestUrl req);
      match classifyOutcome out with
      | inr json =>
          _ ← emit (EvCall req (attempts ++ [mkAttempt out None]) (Ok json));
          mret json
      | inl error =>
          if negb (Nat.eqb remaining' 0) && isRetryableError error then
            _ ← envStep (λ e, (tt, setTimeout delay e));
            requestLoop remaining' req (Qred (delay * 1.5))
                        (attempts ++ [mkAttempt out (Some delay)])
          else
            _ ← emit (EvCall req (attempts ++ [mkAttempt out None]) (Throw error));
            throw error
      end
  end.

(** [makeGitHubRequest(endpoint, options, retries, delay)] *)
Definition makeGitHubRequestWith (req : Request) (retries : nat) (delay : Q)
    : M Json :=
  requestLoop retries req delay [].

(** Every caller leaves [retries = 3] and [delay = 1000]. *)
Definition makeGitHubRequest (req : Request) : M Json :=
  makeGitHubRequestWith req 3 1000.

(** [this.encodeFilePath(path)] where a URL is built: the [URIError] of
    [encodeURIComponent] is thrown there, before anything is sent. *)
Definition uriError : JsError := plainError (js "URI malformed").

Definition encodeFilePathM (path : jsstring) : M jsstring :=
  match encodeFilePath path with
  | Some encoded => mret encoded
  | None => throw uriError
  end.

(** ** The vault *)

(** [file.name] of a path: its last segment. *)
Definition baseName (path : jsstring) : jsstring :=
  List.last (split slash path) [].

Definition tfileOf (path : jsstring) : TFile := mkTFile path (baseName path).

(** [vault.getAbstractFileByPath(path)] when it is a file. *)
Definition getAbstractFileByPath (path : jsstring) : M (option TFile) :=
  v ← getVault;
  mret (if mapHas path v then Some (tfileOf path) else None).

(** [vault.read(file)] and [vault.cachedRead(file)] *)
Definition vaultRead (file : TFile) : M jsstring :=
  v ← getVault;
  match mapGet (file_path file) v with
  | Some f => mret (vf_content f)
  | None => throw (plainError (js "ENOENT: no such file or directory"))
  end.

(** [file.stat.mtime] *)
Definition statMtime (file : TFile) : M Z :=
  v ← getVault;
  mret (match mapGet (file_path file) v with Some f => vf_mtime f | None => 0%Z end).

(** [vault.modify(file, data)] *)
Definition vaultModify (file : TFile) (data : jsstring) : M unit :=
  t ← now;
  modifyVault (mapSet (file_path file) (mkVaultFile data t)).

(** [vault.create(path, data)] *)
Definition vaultCreate (path : jsstring) (data : jsstring) : M unit :=
  v ← getVault;
  if mapHas path v then throw (plainError (js "File already exists."))
  else t ← now; modifyVault (mapSet path (mkVaultFile data t)).

(** [vault.delete(file)] *)
Definition vaultDelete (file : TFile) : M unit :=
  modifyVault (mapDelete (file_path file)).

(** [vault.getMarkdownFiles()]: the files with extension [md]. *)
Definition getMarkdownFiles : M (list TFile) :=
  v ← getVault;
  mret (tfileOf <$> filter (λ p, endsWith p (js ".md") = true) (fst <$> v)).

(** [ensureDirectoryExists]: folders are not part of the model. *)
Definition ensureDirectoryExists (filePath : jsstring) : M unit := mret tt.

(** ** Small accessors of the plugin state *)

Definition getMetadata (path : jsstring) : M (option FileMetadata) :=
  st ← getState; mret (mapGet path (fileMetadata st)).

Definition setMetadata (path : jsstring) (md : FileMetadata) : M unit :=
  modifyState (upd_fileMetadata (mapSet path md)).

Definition pendingAdd (path : jsstring) : M unit :=
  modifyState (upd_pendingFiles (setAdd path)).

Definition pendingDelete (path : jsstring) : M unit :=
  modifyState (upd_pendingFiles (setDelete path)).

(** [this.syncState.recentlyDeletedFromRemote.set(filePath, Date.now())] *)
Definition recordDeleted (filePath : jsstring) : M unit :=
  t ← now;
  modifyState (upd_recentlyDeletedFromRemote (mapSet filePath t)).

Definition isQuietMode : M bool :=
  s ← getSettings;
  mret (match notificationVerbosity s with Quiet => true | _ => false end).

(** [this.encodeBase64(str)] and [this.decodeBase64(str)] as they throw. *)
Definition encodeBase64M (str : jsstring) : M jsstring :=
  match encodeBase64 hasBuffer str with
  | Some e => mret e
  | None => throw (plainError (js "Failed to encode string to base64."))
  end.

(** The decoding of [data.content]; a [content] that is no string makes
    [decodeBase64] throw as well. *)
Definition decodedBase64 (str : option jsstring) : JsError + jsstring :=
  match str ≫= decodeBase64 hasBuffer with
  | Some decoded => inr decoded
  | None => inl (plainError (js "Failed to decode base64 string"))
  end.

(** [data.content] of an answer, decoded; an answer that is no object has
    no [content]. *)
Definition decodedContent (data : Json) : JsError + jsstring :=
  match data with
  | JObject o => decodedBase64 (contentText (obj_content o))
  | JArray _ => decodedBase64 None
  | JNull => inl (plainError (js "Cannot read properties of null"))
  end.

Definition liftResult {A} (r : JsError + A) : M A :=
  match r with
  | inr a => mret a
  | inl e => throw e
  end.

Definition decodeBase64M (str : option jsstring) : M jsstring :=
  liftResult (decodedBase64 str).

Definition decodeContentOf (data : Json) : M jsstring :=
  liftResult (decodedContent data).

(** [existingFileResponse && !Array.isArray(existingFileResponse)] *)
Definition asFileObject (data : Json) : option JsonObject :=
  match data with JObject o => Some o | _ => None end.

Definition hasStatus (error : JsError) (status : N) : bool :=
  bool_decide (err_status error = Some status).

(** [metadata.field = ...] on the object stored under [path]. *)
Definition updateMetadata (path : jsstring) (f : FileMetadata → FileMetadata)
    : M unit :=
  modifyState (upd_fileMetadata (λ m,
    match mapGet path m with
    | Some md => mapSet path (f md) m
    | None => m
    end)).

(** What a listing or a download knows of a remote file. *)
Record RemoteFileInfo : Type := mkRemoteFileInfo {
  rf_path : jsstring;
  rf_sha : jsstring;
  rf_type : jsstring
}.

(** An entry of [getLocalFileStates]. *)
Record LocalFileState : Type := mkLocalFileState {
  lf_file : TFile;
  lf_content : jsstring;
  lf_checksum : jsstring;
  lf_mtime : Z
}.

(** An entry of the map [detectConflicts] returns. *)
Record Conflict : Type := mkConflict {
  c_local : LocalFileState;
  c_remote : RemoteFileInfo;
  c_remoteContent : jsstring;
  c_metadata : FileMetadata
}.

(** ** Delete protocol *)

(** [existingFileResponse.sha ?? undefined], read only off an object. *)
Definition currentShaOf (existingFileResponse : Json) : option jsstring :=
  match asFileObject existingFileResponse with
  | Some o => obj_sha o
  | None => None
  end.

Definition deleteMessage (filePath : jsstring) : jsstring :=
  js "Delete " ++ filePath ++ js " (Obsidian SyncMate)".

(** The [for (let i = 0; i < maxRetries; i++)] loop of
    [deleteFileFromGitHub]; [remaining] is [maxRetries - i]. *)
Fixpoint deleteLoop (remaining i maxRetries : nat)
    (filePath remotePath : jsstring) : M unit :=
  match remaining with
  | 0 => mret tt
  | S remaining' =>
      s ← getSettings;
      preCheck ← attempt (
        _ ← encodeFilePathM remotePath;
        makeGitHubRequest (GetContents remotePath (branch s)));
      match preCheck with
      | Throw error =>
          if hasStatus error 404 then recordDeleted filePath
          else if i <? maxRetries - 1 then
            _ ← sleep (1000 * (Z.of_nat i + 1));
            deleteLoop remaining' (S i) maxRetries filePath remotePath
          else throw error
      | Ok existingFileResponse =>
          match currentShaOf existingFileResponse with
          | Some (c :: sha) =>
              deletion ← attempt (
                _ ← encodeFilePathM remotePath;
                makeGitHubRequest
                  (DeleteContents remotePath (deleteMessage filePath) (c :: sha)
                                  (branch s)));
              match deletion with
              | Ok _ => recordDeleted filePath
              | Throw error =>
                  if hasStatus error 409 && (i <? maxRetries - 1) then
                    _ ← sleep (1000 * (Z.of_nat i + 1));
                    deleteLoop remaining' (S i) maxRetries filePath remotePath
                  else if hasStatus error 404 then recordDeleted filePath
                  else throw error
              end
          | _ => recordDeleted filePath
          end
      end
  end.

(** [deleteFileFromGitHub(filePath, initialFileSha, maxRetries)];
    [initialFileSha] is never read. *)
Definition deleteFileFromGitHub (filePath initialFileSha : jsstring)
    (maxRetries : nat) : M unit :=
  s ← getSettings;
  let remotePath := getRemotePath (syncPath s) filePath in
  deleteLoop maxRetries 0 maxRetries filePath remotePath.

(** ** Pull: [downloadFile] *)

Definition downloadFile (fileInfo : RemoteFileInfo) : M unit :=
  s ← getSettings;
  _ ← encodeFilePathM (rf_path fileInfo);
  fileData ← makeGitHubRequest (GetContents (rf_path fileInfo) (branch s));
  remoteContent ← decodeContentOf fileData;
  let localPath := getLocalPath (syncPath s) (rf_path fileInfo) in
  _ ← ensureDirectoryExists localPath;
  existingFile ← getAbstractFileByPath localPath;
  let remoteContentChecksum := calculateChecksum remoteContent in
  _ ← match existingFile with
      | Some existingFile =>
          localContent ← vaultRead existingFile;
          if decide (localContent = remoteContent) then mret tt
          else vaultModify existingFile remoteContent
      | None => vaultCreate localPath remoteContent
      end;
  existing ← getMetadata localPath;
  t ← now;
  let metadata := default (mkMetadata localPath [] t [] [] false) existing in
  _ ← setMetadata localPath
        (mkMetadata (md_path metadata) (rf_sha fileInfo) t
           remoteContentChecksum remoteContentChecksum (conflicted metadata));
  _ ← pendingDelete localPath;
  _ ← modifyState (upd_remoteChangesPending (setDelete localPath));
  savePluginData.

(** ** Push protocol: [uploadFile] *)

Definition resolutionOf (r : ConflictResolution) : option Resolution :=
  match r with
  | CRLocal => Some ResLocal
  | CRRemote => Some ResRemote
  | CRMerge => Some ResMerge
  | CRAsk => None
  end.

(** The choice of a resolution inside [uploadFile], made once and kept
    for the later attempts.  Under [realtimeSync] or [syncOnSave] nothing
    is stored and the [switch] falls to its default. *)
Definition chooseResolution (chosen : option Resolution)
    (path localContent remoteContent : jsstring) : M (option Resolution) :=
  match chosen with
  | Some _ => mret chosen
  | None =>
      s ← getSettings;
      if realtimeSync s || (syncOnSave s && negb (realtimeSync s)) then mret None
      else match conflictResolution s with
           | CRAsk =>
               r ← envStep (askForResolution path localContent remoteContent);
               mret (Some r)
           | strategy => mret (resolutionOf strategy)
           end
  end.

(** The first [try] of an attempt: the current remote revision id and
    content, both absent after a 404. *)
Definition fetchCurrent (path remotePath : jsstring)
    : M (option jsstring * option jsstring) :=
  s ← getSettings;
  fetched ← attempt (
    _ ← encodeFilePathM remotePath;
    existingFileResponse ← makeGitHubRequest (GetContents remotePath (branch s));
    match asFileObject existingFileResponse with
    | Some o =>
        remoteContentFromGitHub ← decodeBase64M (contentText (obj_content o));
        _ ← updateMetadata path (λ md,
              mkMetadata (md_path md) (default [] (obj_sha o)) (lastModified md)
                (localChecksum md) (calculateChecksum remoteContentFromGitHub)
                (conflicted md));
        _ ← savePluginData;
        mret (obj_sha o, Some remoteContentFromGitHub)
    | None => mret (None, None)
    end);
  match fetched with
  | Ok r => mret r
  | Throw error => if hasStatus error 404 then mret (None, None) else throw error
  end.

Definition putMessage (hasSha : bool) (name : jsstring) : jsstring :=
  (if hasSha then js "Update " else js "Add ") ++ name ++ js " (Obsidian SyncMate)".

(** The first half of an attempt of [uploadFile]: metadata is created
    when missing, the current remote revision is fetched, and a
    difference between the local and the remote content is resolved.
    The result is the content to push, the resolution kept for later
    attempts, and the current remote revision id. *)
Definition prepareUpload (file : TFile) (localContent remotePath : jsstring)
    (chosen : option Resolution)
    : M (jsstring * option Resolution * option jsstring) :=
  let path := file_path file in
  known ← getMetadata path;
  _ ← match known with
      | Some _ => mret tt
      | None =>
          mtime ← statMtime file;
          _ ← setMetadata path
                (mkMetadata path [] mtime (calculateChecksum localContent)
                   [] false);
          savePluginData
      end;
  '(currentRemoteSha, remoteContentFromGitHub) ← fetchCurrent path remotePath;
  match remoteContentFromGitHub with
  | Some remote =>
      if decide (localContent = remote)
      then mret (localContent, chosen, currentRemoteSha)
      else
        chosen ← chooseResolution chosen path localContent remote;
        contentToPush ←
          match chosen with
          | Some ResRemote => _ ← vaultModify file remote; mret remote
          | Some ResMerge =>
              let merged := mergeContent localContent remote in
              _ ← vaultModify file merged; mret merged
          | Some ResLocal | None => mret localContent
          end;
        t ← now;
        _ ← updateMetadata path (λ md,
              mkMetadata (md_path md) (default [] currentRemoteSha) t
                (calculateChecksum contentToPush)
                (calculateChecksum contentToPush) false);
        _ ← savePluginData;
        mret (contentToPush, chosen, currentRemoteSha)
  | None => mret (localContent, chosen, currentRemoteSha)
  end.

(** [result.content.sha] of the answer to a PUT.  Reading [sha] off a
    [content] that is absent throws; off a [content] that is a string,
    or an object without [sha], it gives [undefined]. *)
Definition contentSha (result : Json) : JsError + option jsstring :=
  match result with
  | JObject o =>
      match obj_content o with
      | ContentObject sha => inr sha
      | ContentText _ => inr None
      | NoContent => inl (plainError
          (js "Cannot read properties of undefined (reading 'sha')"))
      end
  | JArray _ => inl (plainError
      (js "Cannot read properties of undefined (reading 'sha')"))
  | JNull => inl (plainError
      (js "Cannot read properties of null (reading 'content')"))
  end.

(** [metadata.githubBlobSha = result.content.sha as string].  An
    [undefined] stored there is written as the empty string: the engine
    reads the field for its truthiness and to compare it with revision
    ids, and saving drops it. *)
Definition newShaOf (result : Json) : M jsstring :=
  sha ← liftResult (contentSha result);
  mret (default [] sha).

Definition putRequest (file : TFile) (remotePath content : jsstring)
    (currentRemoteSha : option jsstring) (branchName : jsstring) : Request :=
  PutContents remotePath
    (putMessage (truthy currentRemoteSha) (file_name file)) content
    (if truthy currentRemoteSha then currentRemoteSha else None) branchName.

(** The second half: the request body is built and the content is PUT;
    on success the metadata takes the new revision id and the checksum
    of the pushed content. *)
Definition putContent (file : TFile) (remotePath contentToPush : jsstring)
    (currentRemoteSha : option jsstring) : M (Res unit) :=
  let path := file_path file in
  s ← getSettings;
  content ← encodeBase64M contentToPush;
  attempt (
    _ ← encodeFilePathM remotePath;
    result ← makeGitHubRequest
      (putRequest file remotePath content currentRemoteSha (branch s));
    newSha ← newShaOf result;
    mtime ← statMtime file;
    metadata ← getMetadata path;
    _ ← setMetadata path
          (mkMetadata (from_option md_path path metadata) newSha mtime
             (calculateChecksum contentToPush)
             (calculateChecksum contentToPush) false);
    savePluginData).

(** The [while (currentAttempt < maxRetries)] loop of [uploadFile];
    [attemptsMade] is [currentAttempt] on entry and [remaining] is
    [maxRetries - currentAttempt]. *)
Fixpoint uploadLoop (remaining attemptsMade maxRetries : nat) (file : TFile)
    (localContent remotePath : jsstring) (chosen : option Resolution) : M unit :=
  match remaining with
  | 0 => mret tt
  | S remaining' =>
      let currentAttempt := S attemptsMade in
      '(contentToPush, chosen, currentRemoteSha) ←
        prepareUpload file localContent remotePath chosen;
      put ← putContent file remotePath contentToPush currentRemoteSha;
      match put with
      | Ok _ => mret tt
      | Throw error =>
          if hasStatus error 409 && (currentAttempt <? maxRetries) then
            _ ← sleep (1000 * Z.of_nat currentAttempt);
            uploadLoop remaining' currentAttempt maxRetries file localContent
                       remotePath chosen
          else throw error
      end
  end.

(** [uploadFile(file, maxRetries)] *)
Definition uploadFile (file : TFile) (maxRetries : nat) : M unit :=
  localContent ← vaultRead file;
  s ← getSettings;
  let remotePath := getRemotePath (syncPath s) (file_path file) in
  uploadLoop maxRetries 0 maxRetries file localContent remotePath None.

(** ** Local and remote file states *)

(** [getLocalFileStates] *)
Definition getLocalFileStates : M (JsMap jsstring LocalFileState) :=
  s ← getSettings;
  files ← getMarkdownFiles;
  let fix go (files : list TFile) (fileStates : JsMap jsstring LocalFileState)
      : M (JsMap jsstring LocalFileState) :=
    match files with
    | [] => mret fileStates
    | file :: rest =>
        if shouldSyncFile (syncPath s) file then
          read ← attempt (vaultRead file);
          match read with
          | Ok content =>
              mtime ← statMtime file;
              go rest (mapSet (file_path file)
                         (mkLocalFileState file content
                            (calculateChecksum content) mtime)
                         fileStates)
          | Throw _ => go rest fileStates
          end
        else go rest fileStates
    end in
  go files [].

Definition infoOfItem (item : RemoteItem) : RemoteFileInfo :=
  mkRemoteFileInfo (item_path item) (item_sha item) (item_type item).

(** [processRemoteDirectory]: files with a Markdown name are recorded
    under their local path, directories are listed in turn; a directory
    that cannot be listed is skipped. *)
Fixpoint processRemoteDirectory (depth : nat) (items : list RemoteItem)
    (remoteStates : JsMap jsstring RemoteFileInfo)
    {struct depth} : M (JsMap jsstring RemoteFileInfo) :=
  let fix go (items : list RemoteItem)
             (remoteStates : JsMap jsstring RemoteFileInfo)
      {struct items} : M (JsMap jsstring RemoteFileInfo) :=
    match items with
    | [] => mret remoteStates
    | item :: rest =>
        s ← getSettings;
        if bool_decide (item_type item = js "file") && isMarkdownFile (item_name item)
        then go rest (mapSet (getLocalPath (syncPath s) (item_path item))
                             (infoOfItem item) remoteStates)
        else if bool_decide (item_type item = js "dir") then
          match depth with
          | 0 => go rest remoteStates
          | S depth' =>
              subContents ← attempt (
                _ ← encodeFilePathM (item_path item);
                makeGitHubRequest (GetContents (item_path item) (branch s)));
              match subContents with
              | Ok (JArray subItems) =>
                  remoteStates ← processRemoteDirectory depth' subItems remoteStates;
                  go rest remoteStates
              | _ => go rest remoteStates
              end
          end
        else go rest remoteStates
    end in
  go items remoteStates.

(** A cache entry set at [timestamp] is within [period] at [now]. *)
Definition withinGrace (timestamp : option Z) (now period : Z) : bool :=
  match timestamp with
  | Some t => negb (t =? 0)%Z && (now - t <? period)%Z
  | None => false
  end.

(** The pass of [getRemoteFileStates] over the listing: a recently
    deleted path is dropped; a recently pushed path whose listed sha
    differs from the sha in its metadata is reported with the latter. *)
Definition augmentRemoteStates (st : SyncState) (now : Z)
    (remoteStatesFromApi : JsMap jsstring RemoteFileInfo)
    : JsMap jsstring RemoteFileInfo :=
  fold_left (λ finalRemoteStates '(path, fileInfoFromApi),
    if withinGrace (mapGet path (recentlyDeletedFromRemote st)) now
                   RECENTLY_DELETED_GRACE_PERIOD_MS
    then finalRemoteStates
    else
      match mapGet path (fileMetadata st) with
      | Some metadata =>
          if withinGrace (mapGet path (recentlyPushedFiles st)) now
                         RECENTLY_PUSHED_GRACE_PERIOD_MS
             && nonEmpty (githubBlobSha metadata)
             && bool_decide (githubBlobSha metadata ≠ rf_sha fileInfoFromApi)
          then mapSet path
                 (mkRemoteFileInfo (rf_path fileInfoFromApi)
                    (githubBlobSha metadata) (rf_type fileInfoFromApi))
                 finalRemoteStates
          else mapSet path fileInfoFromApi finalRemoteStates
      | None => mapSet path fileInfoFromApi finalRemoteStates
      end)
    remoteStatesFromApi [].

(** The entries of a grace-period cache that are not older than
    [period]. *)
Definition expire (now period : Z) (cache : JsMap jsstring Z) : JsMap jsstring Z :=
  filter (λ '(_, timestamp), ¬ (now - timestamp > period)%Z) cache.

Definition expireCaches : M unit :=
  t ← now;
  _ ← modifyState (upd_recentlyPushedFiles
        (expire t RECENTLY_PUSHED_GRACE_PERIOD_MS));
  modifyState (upd_recentlyDeletedFromRemote
        (expire t RECENTLY_DELETED_GRACE_PERIOD_MS)).

(** [getRemoteFileStates]; [None] is the [null] returned on failure.  An
    object without [sha] is recorded with the empty string.  The sync
    path is encoded before the [try]. *)
Definition getRemoteFileStates : M (option (JsMap jsstring RemoteFileInfo)) :=
  s ← getSettings;
  let syncPathClean := stripSlashes (trim (syncPath s)) in
  _ ← encodeFilePathM syncPathClean;
  tryCatch (
    contents ← makeGitHubRequest (GetContents syncPathClean (branch s));
    remoteStatesFromApi ←
      match contents with
      | JArray items => processRemoteDirectory treeDepth items []
      | JObject o =>
          if bool_decide (obj_type o = js "file") && isMarkdownFile (obj_name o)
          then mret (mapSet (getLocalPath (syncPath s) (obj_path o))
                       (mkRemoteFileInfo (obj_path o) (default [] (obj_sha o))
                          (obj_type o)) [])
          else mret []
      | JNull => throw (plainError (js "Cannot read properties of null (reading 'type')"))
      end;
    t ← now;
    st ← getState;
    let finalRemoteStates := augmentRemoteStates st t remoteStatesFromApi in
    _ ← modifyState (upd_recentlyPushedFiles
          (expire t RECENTLY_PUSHED_GRACE_PERIOD_MS));
    _ ← modifyState (upd_recentlyDeletedFromRemote
          (expire t RECENTLY_DELETED_GRACE_PERIOD_MS));
    mret (Some finalRemoteStates))
  (λ _,
    _ ← showNotice (js "Failed to fetch remote file states. This may affect sync accuracy. Check your GitHub settings and network connection.");
    mret None).

(** ** Conflict detector *)

Definition fetchWarning (path : jsstring) : jsstring :=
  js "Warning: Could not fetch remote content for '" ++ path
  ++ js "'. Sync accuracy might be affected.".

(** The body of the loop of [detectConflicts] over the local files, for
    one entry [path, localFile]. *)
Definition detectLocalFile (remoteFiles : JsMap jsstring RemoteFileInfo)
    (conflicts : JsMap jsstring Conflict) (path : jsstring)
    (localFile : LocalFileState) : M (JsMap jsstring Conflict) :=
  st ← getState;
  s ← getSettings;
  match mapGet path remoteFiles with
  | None =>
      (* Scenario 1: the file exists locally but not remotely. *)
      _ ← when (negb (mapHas path (pendingDeletions st))
                && match mapGet path (fileMetadata st) with
                   | None => true
                   | Some metadata => negb (nonEmpty (githubBlobSha metadata))
                   end)
               (pendingAdd path);
      mret conflicts
  | Some remoteFileMetadata =>
      match mapGet path (fileMetadata st) with
      | None =>
          (* No metadata: fetch the remote content to seed it. *)
          seeded ← attempt (
            _ ← encodeFilePathM (rf_path remoteFileMetadata);
            remoteContentData ← makeGitHubRequest
              (GetContents (rf_path remoteFileMetadata) (branch s));
            remoteContent ← decodeContentOf remoteContentData;
            let remoteChecksum := calculateChecksum remoteContent in
            _ ← setMetadata path
                  (mkMetadata path (rf_sha remoteFileMetadata) (lf_mtime localFile)
                     (lf_checksum localFile) remoteChecksum false);
            if decide (lf_checksum localFile = remoteChecksum)
            then pendingDelete path else pendingAdd path);
          match seeded with
          | Ok _ => mret conflicts
          | Throw _ =>
              _ ← showNotice (fetchWarning path);
              _ ← pendingAdd path;
              mret conflicts
          end
      | Some metadata =>
          let localChanged :=
            bool_decide (lf_checksum localFile ≠ remoteContentChecksum metadata) in
          let remoteChanged :=
            bool_decide (rf_sha remoteFileMetadata ≠ githubBlobSha metadata) in
          if localChanged && remoteChanged then
            _ ← encodeFilePathM (rf_path remoteFileMetadata);
            remoteContentData ← makeGitHubRequest
              (GetContents (rf_path remoteFileMetadata) (branch s));
            remoteContent ← decodeContentOf remoteContentData;
            _ ← pendingAdd path;
            mret (mapSet path
                    (mkConflict localFile remoteFileMetadata remoteContent metadata)
                    conflicts)
          else if localChanged && negb remoteChanged then
            _ ← pendingAdd path; mret conflicts
          else if negb localChanged && remoteChanged then
            _ ← pendingDelete path; mret conflicts
          else
            _ ← pendingDelete path; mret conflicts
      end
  end.

Fixpoint detectLoop (remoteFiles : JsMap jsstring RemoteFileInfo)
    (localFiles : JsMap jsstring LocalFileState)
    (conflicts : JsMap jsstring Conflict) : M (JsMap jsstring Conflict) :=
  match localFiles with
  | [] => mret conflicts
  | (path, localFile) :: rest =>
      conflicts ← detectLocalFile remoteFiles conflicts path localFile;
      detectLoop remoteFiles rest conflicts
  end.

(** [detectConflicts].  Without remote states every local file that has
    no metadata, or whose checksum differs from the cached remote one, is
    marked for push.  The closing loop over the remote files only logs. *)
Definition detectConflicts (localFiles : JsMap jsstring LocalFileState)
    (remoteFiles : option (JsMap jsstring RemoteFileInfo))
    : M (JsMap jsstring Conflict) :=
  match remoteFiles with
  | None =>
      _ ← forEach localFiles (λ '(path, localFile),
            st ← getState;
            match mapGet path (fileMetadata st) with
            | Some metadata =>
                when (bool_decide
                        (lf_checksum localFile ≠ remoteContentChecksum metadata))
                     (pendingAdd path)
            | None => pendingAdd path
            end);
      mret []
  | Some remoteFiles => detectLoop remoteFiles localFiles []
  end.

(** ** Conflict resolver *)

Definition isRealtimeType (syncType : SyncType) : bool :=
  match syncType with
  | RealtimeSync | SaveOnCloseSync => true
  | _ => false
  end.

(** [applyConflictResolution] *)
Definition applyConflictResolution (path : jsstring) (conflict : Conflict)
    (resolution : Resolution) : M unit :=
  s ← getSettings;
  file ← getAbstractFileByPath path;
  quiet ← isQuietMode;
  _ ← match resolution with
      | ResLocal =>
          _ ← pendingAdd path;
          when (negb quiet)
            (showNotice (js "Conflict resolved for " ++ path
                         ++ js ": Kept local version."))
      | ResRemote =>
          match file with
          | Some file =>
              _ ← vaultModify file (c_remoteContent conflict);
              let checksum := calculateChecksum (c_remoteContent conflict) in
              _ ← updateMetadata path (λ metadata,
                    mkMetadata (md_path metadata) (rf_sha (c_remote conflict))
                      (lastModified metadata) checksum checksum
                      (conflicted metadata));
              _ ← pendingDelete path;
              when (negb quiet)
                (showNotice (js "Conflict resolved for " ++ path
                   ++ js ": Kept remote version. (You may need to reopen the file to see changes.)"))
          | None =>
              let localPath := getLocalPath (syncPath s) path in
              _ ← ensureDirectoryExists localPath;
              _ ← vaultCreate localPath (c_remoteContent conflict);
              let checksum := calculateChecksum (c_remoteContent conflict) in
              t ← now;
              _ ← setMetadata localPath
                    (mkMetadata localPath (rf_sha (c_remote conflict)) t
                       checksum checksum false);
              when (negb quiet)
                (showNotice (js "Conflict resolved for " ++ path
                   ++ js ": Created local file with remote version. (You may need to reopen the file to see changes.)"))
          end
      | ResMerge =>
          let merged := mergeContent (lf_content (c_local conflict))
                                     (c_remoteContent conflict) in
          match file with
          | Some file =>
              _ ← vaultModify file merged;
              _ ← pendingAdd path;
              when (negb quiet)
                (showNotice (js "Conflict resolved for " ++ path
                   ++ js ": Auto-merged. (This version will be pushed.)"))
          | None => mret tt
          end
      end;
  savePluginData.

(** [resolveConflicts] *)
Definition resolveConflicts (conflicts : JsMap jsstring Conflict)
    (syncType : SyncType) : M unit :=
  match conflicts with
  | [] => mret tt
  | _ =>
      quiet ← isQuietMode;
      _ ← when (negb quiet)
            (showNotice (js "Resolving " ++ showZ (Z.of_nat (length conflicts))
                         ++ js " conflicts..."));
      forEach conflicts (λ '(path, conflict),
        s ← getSettings;
        effectiveResolution ←
          match conflictResolution s with
          | CRAsk =>
              if isRealtimeType syncType then
                _ ← when (negb quiet)
                      (showNotice ([55357; 57000]%N ++ js " Conflict detected in '"
                         ++ path ++ js "'! Kept local version to avoid interruption. Please review and sync manually if needed."));
                _ ← updateStatusBar (js "Conflict in '" ++ path ++ js "' "
                                     ++ [9888; 65039]%N);
                mret ResLocal
              else
                envStep (askForResolution path (lf_content (c_local conflict))
                                          (c_remoteContent conflict))
          | CRLocal => mret ResLocal
          | CRRemote => mret ResRemote
          | CRMerge => mret ResMerge
          end;
        applyConflictResolution path conflict effectiveResolution)
  end.

(** ** Orchestrator *)

(** [activeFile && activeFile.path === path] *)
Definition isActivelyEditing (path : jsstring) : M bool :=
  λ w, (Ok (bool_decide (getActiveFile (env w) = Some path)), w).

(** [getFirstLinkpathDest(path, '')?.basename || path]: the name without
    its extension when the vault has the file. *)
Definition displayName (path : jsstring) : M jsstring :=
  v ← getVault;
  let name := baseName path in
  let stem := reverse (dropThrough 46%N (reverse name)) in
  mret (if mapHas path v && nonEmpty stem then stem else path).

(** The files to push: the pending paths that exist locally, in the
    order of [pendingFiles]; the others leave the set. *)
Fixpoint collectPushes (pending : list jsstring)
    (localFiles : JsMap jsstring LocalFileState) (filesToPush : JsSet TFile)
    : M (JsSet TFile) :=
  match pending with
  | [] => mret filesToPush
  | path :: rest =>
      match mapGet path localFiles with
      | Some localFile =>
          collectPushes rest localFiles
            (if bool_decide (lf_file localFile ∈ filesToPush) then filesToPush
             else filesToPush ++ [lf_file localFile])
      | None =>
          _ ← pendingDelete path;
          collectPushes rest localFiles filesToPush
      end
  end.

(** One iteration of the push loop.  When the proactive pull re-reads the
    local states and the file is not among them, the JavaScript stores
    [undefined] under its path; the entry is removed here. *)
Definition pushOne (currentRemoteFiles : option (JsMap jsstring RemoteFileInfo))
    (file : TFile) (acc : JsMap jsstring LocalFileState * nat)
    : M (JsMap jsstring LocalFileState * nat) :=
  let '(localFiles, pushedCount) := acc in
  let path := file_path file in
  pushed ← attempt (
    s ← getSettings;
    metadata ← getMetadata path;
    editing ← isActivelyEditing path;
    localFiles ←
      match metadata with
      | Some metadata =>
          if negb editing && realtimeSync s then
            match currentRemoteFiles ≫= mapGet path with
            | Some remoteFileMetadata =>
                if bool_decide (rf_sha remoteFileMetadata ≠ githubBlobSha metadata)
                then
                  _ ← downloadFile remoteFileMetadata;
                  fresh ← getLocalFileStates;
                  mret (match mapGet path fresh with
                        | Some state => mapSet path state localFiles
                        | None => mapDelete path localFiles
                        end)
                else mret localFiles
            | None => mret localFiles
            end
          else mret localFiles
      | None => mret localFiles
      end;
    _ ← uploadFile file 3;
    _ ← pendingDelete path;
    t ← now;
    _ ← modifyState (upd_recentlyPushedFiles (mapSet path t));
    mret localFiles);
  match pushed with
  | Ok localFiles => mret (localFiles, S pushedCount)
  | Throw _ =>
      _ ← showNotice (js "Failed to push " ++ path
                      ++ js ". Check console for details.");
      mret (localFiles, pushedCount)
  end.

Fixpoint pushLoop (currentRemoteFiles : option (JsMap jsstring RemoteFileInfo))
    (filesToPush : list TFile) (acc : JsMap jsstring LocalFileState * nat)
    : M (JsMap jsstring LocalFileState * nat) :=
  match filesToPush with
  | [] => mret acc
  | file :: rest =>
      acc ← pushOne currentRemoteFiles file acc;
      pushLoop currentRemoteFiles rest acc
  end.

(** The loop over the refreshed remote states that fills [filesToPull]. *)
Fixpoint collectPulls (remoteFiles : JsMap jsstring RemoteFileInfo)
    (localFiles : JsMap jsstring LocalFileState) (filesToPush : JsSet TFile)
    (filesToPull : list RemoteFileInfo) : M (list RemoteFileInfo) :=
  match remoteFiles with
  | [] => mret filesToPull
  | (path, remoteFileMetadata) :: rest =>
      st ← getState;
      s ← getSettings;
      match mapGet path localFiles with
      | None =>
          (* Case 1: the file exists remotely but not locally. *)
          collectPulls rest localFiles filesToPush
            (if mapHas path (pendingDeletions st) then filesToPull
             else filesToPull ++ [remoteFileMetadata])
      | Some localFile =>
          (* Case 2: both exist; has the remote changed? *)
          match mapGet path (fileMetadata st) with
          | Some metadata =>
              if bool_decide (rf_sha remoteFileMetadata ≠ githubBlobSha metadata)
              then
                editing ← isActivelyEditing path;
                if editing : bool then
                  _ ← when (negb (setHas path (remoteChangesPendingForActiveFiles st)))
                        (_ ← modifyState (upd_remoteChangesPending (setAdd path));
                         fileName ← displayName path;
                         quiet ← isQuietMode;
                         when (negb quiet)
                           (showNotice (js "Remote changes for '" ++ fileName
                              ++ js "' detected. Pull skipped to prevent overwrite. Close file to pull, or manually resolve.")));
                  collectPulls rest localFiles filesToPush filesToPull
                else if negb (bool_decide (lf_file localFile ∈ filesToPush))
                        || bool_decide (conflictResolution s = CRRemote) then
                  _ ← modifyState (upd_remoteChangesPending (setDelete path));
                  collectPulls rest localFiles filesToPush
                               (filesToPull ++ [remoteFileMetadata])
                else collectPulls rest localFiles filesToPush filesToPull
              else collectPulls rest localFiles filesToPush filesToPull
          | None => collectPulls rest localFiles filesToPush filesToPull
          end
      end
  end.

(** [wasRecentlyPushed] of the local-deletion pass. *)
Definition wasRecentlyPushed (st : SyncState) (now : Z) (path : jsstring) : bool :=
  match mapGet path (recentlyPushedFiles st) with
  | Some timestamp => (now - timestamp <? RECENTLY_PUSHED_GRACE_PERIOD_MS)%Z
  | None => false
  end.

(** The test of the local-deletion pass: the path is missing remotely,
    was tracked remotely before, and was not pushed within the grace
    period. *)
Definition deletesLocally (st : SyncState) (now : Z)
    (currentRemoteFiles : JsMap jsstring RemoteFileInfo) (path : jsstring) : bool :=
  let isRemoteMissing := negb (mapHas path currentRemoteFiles) in
  let wasTrackedRemotely :=
    match mapGet path (fileMetadata st) with
    | Some metadata => nonEmpty (githubBlobSha metadata)
    | None => false
    end in
  isRemoteMissing && wasTrackedRemotely && negb (wasRecentlyPushed st now path).

(** [filesToDeleteLocally] *)
Definition localDeletions (st : SyncState) (now : Z)
    (currentRemoteFiles : JsMap jsstring RemoteFileInfo)
    (localFiles : JsMap jsstring LocalFileState) : list TFile :=
  omap (λ '(path, localFileState),
    if deletesLocally st now currentRemoteFiles path
    then Some (lf_file localFileState) else None)
    localFiles.

Fixpoint deleteLocally (files : list TFile) (deletedLocallyCount : nat) : M nat :=
  match files with
  | [] => mret deletedLocallyCount
  | file :: rest =>
      deleted ← attempt (
        _ ← vaultDelete file;
        _ ← modifyState (upd_fileMetadata (mapDelete (file_path file)));
        modifyState (upd_remoteChangesPending (setDelete (file_path file))));
      match deleted with
      | Ok _ => deleteLocally rest (S deletedLocallyCount)
      | Throw _ =>
          _ ← showNotice (js "Failed to delete local file " ++ file_path file
                          ++ js ". Check console.");
          deleteLocally rest deletedLocallyCount
      end
  end.

Fixpoint pullLoop (filesToPull : list RemoteFileInfo) (pulledCount : nat) : M nat :=
  match filesToPull with
  | [] => mret pulledCount
  | remoteFileMetadata :: rest =>
      pulled ← attempt (downloadFile remoteFileMetadata);
      match pulled with
      | Ok _ => pullLoop rest (S pulledCount)
      | Throw _ =>
          _ ← showNotice (js "Failed to pull " ++ rf_path remoteFileMetadata
                          ++ js ". Check console for details.");
          pullLoop rest pulledCount
      end
  end.

(** [performSync]; the result is
    [(pushedCount, pulledCount, deletedLocallyCount)]. *)
Definition performSync (localFiles : JsMap jsstring LocalFileState)
    (currentRemoteFiles : option (JsMap jsstring RemoteFileInfo))
    : M (nat * nat * nat) :=
  st ← getState;
  filesToPush ← collectPushes (pendingFiles st) localFiles [];
  '(localFiles, pushedCount) ←
    pushLoop currentRemoteFiles filesToPush (localFiles, 0);
  currentRemoteFiles ← getRemoteFileStates;
  '(pulledCount, deletedLocallyCount) ←
    match currentRemoteFiles with
    | Some currentRemoteFiles =>
        filesToPull ← collectPulls currentRemoteFiles localFiles filesToPush [];
        st ← getState;
        t ← now;
        deletedLocallyCount ←
          deleteLocally (localDeletions st t currentRemoteFiles localFiles) 0;
        pulledCount ← pullLoop filesToPull 0;
        mret (pulledCount, deletedLocallyCount)
    | None =>
        _ ← showNotice (js "Skipping some pull/delete operations due to network issues after push. Please check connection and try again.");
        mret (0, 0)
    end;
  _ ← expireCaches;
  mret (pushedCount, pulledCount, deletedLocallyCount).

(** [processPendingDeletions] *)
Definition processPendingDeletions : M nat :=
  st ← getState;
  let fix go (entries : JsMap jsstring jsstring)
             (successfulDeletions : list jsstring) (deletedRemotelyCount : nat)
      : M (list jsstring * nat) :=
    match entries with
    | [] => mret (successfulDeletions, deletedRemotelyCount)
    | (path, sha) :: rest =>
        deleted ← attempt (deleteFileFromGitHub path sha 3);
        match deleted with
        | Ok _ => go rest (setAdd path successfulDeletions) (S deletedRemotelyCount)
        | Throw _ =>
            _ ← showNotice (js "Failed to delete " ++ path
                            ++ js " from GitHub. Check console for details.");
            go rest successfulDeletions deletedRemotelyCount
        end
    end in
  '(successfulDeletions, deletedRemotelyCount) ← go (pendingDeletions st) [] 0;
  _ ← forEach successfulDeletions (λ path,
        modifyState (upd_pendingDeletions (mapDelete path)));
  _ ← savePluginData;
  mret deletedRemotelyCount.

(** The counts a run reports. *)
Record ChangesMade : Type := mkChanges {
  pushedCount : nat;
  pulledCount : nat;
  deletedLocallyCount : nat;
  deletedRemotelyCount : nat
}.

Definition syncTypeName (syncType : SyncType) : jsstring :=
  match syncType with
  | ManualSync => js "Manual Sync"
  | AutoSync => js "Auto Sync"
  | RealtimeSync => js "Real-time sync"
  | StartupSync => js "Startup Sync"
  | SaveOnCloseSync => js "Save on Close Sync"
  end.

Definition toLowerCase (s : jsstring) : jsstring :=
  (λ c, if (65 <=? c)%N && (c <=? 90)%N then (c + 32)%N else c) <$> s.

Definition showCount (n : nat) : jsstring := showZ (Z.of_nat n).

(** [specificFilePath ? getFirstLinkpathDest(specificFilePath, '')?.basename : ''] *)
Definition linkBasename (specificFilePath : option jsstring) : M jsstring :=
  match specificFilePath with
  | Some path =>
      v ← getVault;
      mret (if mapHas path v
            then reverse (dropThrough 46%N (reverse (baseName path))) else [])
  | None => mret []
  end.

Definition hourglass : jsstring := [32; 9203]%N.

(** The notices at the end of a successful run. *)
Definition reportSuccess (syncType : SyncType) (specificFilePath : option jsstring)
    (changesMade : ChangesMade) : M unit :=
  s ← getSettings;
  let totalChanges := pushedCount changesMade + pulledCount changesMade
                      + deletedLocallyCount changesMade
                      + deletedRemotelyCount changesMade in
  match syncType with
  | StartupSync =>
      _ ← updateStatusBar (js "Vault synced " ++ [10024%N]);
      showNotice (js "GitHub SyncMate: Vault synchronized. "
                  ++ showCount (pushedCount changesMade) ++ js " files uploaded, "
                  ++ showCount (pulledCount changesMade) ++ js " files downloaded.")
  | RealtimeSync | SaveOnCloseSync =>
      match notificationVerbosity s with
      | Quiet => mret tt
      | _ =>
          match totalChanges with
          | 0 => mret tt
          | 1 =>
              fileName ← linkBasename specificFilePath;
              let quoted := js "'" ++ fileName ++ js "'" in
              showNotice (
                if (pushedCount changesMade =? 1) && nonEmpty fileName then
                  [9989; 32]%N ++ quoted ++ js " uploaded."
                else if (pulledCount changesMade =? 1) && nonEmpty fileName then
                  [11015; 65039; 32]%N ++ quoted ++ js " downloaded."
                else if deletedRemotelyCount changesMade =? 1 then
                  [55357; 56785; 65039; 32]%N
                  ++ (if nonEmpty fileName then quoted else js "A file")
                  ++ js " deleted from GitHub."
                else if deletedLocallyCount changesMade =? 1 then
                  [55357; 56785; 65039; 32]%N
                  ++ (if nonEmpty fileName then quoted ++ js " deleted locally."
                      else js "A file deleted locally.;")
                else [9989; 32]%N ++ js "1 file synced.")
          | _ =>
              showNotice (js "GitHub SyncMate: " ++ showCount totalChanges
                ++ js " changes processed ("
                ++ showCount (pushedCount changesMade) ++ js " uploaded, "
                ++ showCount (pulledCount changesMade) ++ js " downloaded).")
          end
      end
  | ManualSync | AutoSync =>
      let part (n : nat) (before after : jsstring) : jsstring :=
        if 0 <? n then before ++ showCount n ++ after else [] in
      showNotice (syncTypeName syncType ++ js ": Sync completed."
        ++ part (pushedCount changesMade) (js " Pushed ") (js " file(s).")
        ++ part (pulledCount changesMade) (js " Pulled ") (js " file(s).")
        ++ part (deletedLocallyCount changesMade) (js " Deleted ")
                (js " local file(s).")
        ++ part (deletedRemotelyCount changesMade) (js " Deleted ")
                (js " remote file(s).")
        ++ (if totalChanges =? 0 then js " No changes detected." else []))
  end.

(** The [try] block of [syncWithGitHub]. *)
Definition syncPhases (syncType : SyncType) (specificFilePath : option jsstring)
    : M ChangesMade :=
  s ← getSettings;
  let isRealtime := isRealtimeType syncType in
  _ ← match syncType with
      | StartupSync => updateStatusBar (js "Startup sync in progress..." ++ hourglass)
      | RealtimeSync | SaveOnCloseSync =>
          fileName ← linkBasename specificFilePath;
          updateStatusBar (js "Syncing"
            ++ (if nonEmpty fileName then js " " ++ fileName else [])
            ++ js "..." ++ hourglass)
      | _ => updateStatusBar (js "Syncing (" ++ syncTypeName syncType
                              ++ js ")..." ++ hourglass)
      end;
  _ ← match syncType with
      | StartupSync =>
          showNotice (js "GitHub SyncMate: Starting initial vault synchronization...")
      | _ =>
          when (negb isRealtime
                || match notificationVerbosity s with Verbose => true | _ => false end)
            (showNotice (js "GitHub SyncMate: Starting "
                         ++ toLowerCase (syncTypeName syncType) ++ js "..."))
      end;
  localFiles ← getLocalFileStates;
  (* Pending deletions are processed before anything else. *)
  deletedRemotely ← processPendingDeletions;
  remoteFiles ← getRemoteFileStates;
  conflicts ← detectConflicts localFiles remoteFiles;
  _ ← resolveConflicts conflicts syncType;
  '(pushed, pulled, deletedLocally) ← performSync localFiles remoteFiles;
  let changesMade := mkChanges pushed pulled deletedLocally deletedRemotely in
  t ← now;
  _ ← modifyState (set_lastSync t);
  _ ← modifySettings (set_lastSyncTime t);
  _ ← savePluginData;
  _ ← reportSuccess syncType specificFilePath changesMade;
  mret changesMade.

(** The [catch] block of [syncWithGitHub]. *)
Definition reportFailure (syncType : SyncType) (specificFilePath : option jsstring)
    (error : JsError) : M unit :=
  errorFileName ← linkBasename specificFilePath;
  _ ← showNotice (js "GitHub SyncMate: "
        ++ (if isRealtimeType syncType && nonEmpty errorFileName
            then js "Failed to sync '" ++ errorFileName ++ js "'."
            else js "Failed to sync changes.")
        ++ js " Error: "
        ++ (if nonEmpty (err_message error) then err_message error
            else js "Unknown error")
        ++ js ". Please check your connection or plugin settings.");
  updateStatusBar
    (match syncType with
     | StartupSync => js "Startup sync error " ++ [9888; 65039]%N
     | RealtimeSync | SaveOnCloseSync => js "Sync Error! " ++ [10071%N]
     | _ => js "Sync Failed!"
     end).

(** [syncWithGitHub(syncType, specificFilePath)].  The result is the
    [changesMade] of a run that completed its [try] block; a refused or
    failed run reports none. *)
Definition syncWithGitHub (syncType : SyncType)
    (specificFilePath : option jsstring) : M (option ChangesMade) :=
  valid ← validateSettings;
  st ← getState;
  if negb valid || inProgress st then
    _ ← when (inProgress st) (showNotice (js "Sync in progress, please wait."));
    mret None
  else
    _ ← modifyState (set_inProgress true);
    tryFinally
      (tryCatch
         (changesMade ← syncPhases syncType specificFilePath;
          mret (Some changesMade))
         (λ error,
            _ ← reportFailure syncType specificFilePath error;
            mret None))
      (_ ← modifyState (set_inProgress false);
       _ ← savePluginData;
       updateOverallStatusBar).

End Engine.

(* ================================================================== *)
(** * Vault event handlers and the force operations *)
(* ================================================================== *)

Section Handlers.
Context `{Platform}.

(** ** Vault event handlers *)

(** A handler ends by calling [debouncedSync] or not; the call it makes
    is its result. *)
Definition debouncedSyncCall (enabled : bool) (filePath : jsstring)
    : option (SyncType * jsstring) :=
  if enabled then Some (RealtimeSync, filePath) else None.

(** [updateFileMetadata]: a failure is logged and swallowed. *)
Definition updateFileMetadata (file : TFile) : M unit :=
  tryCatch
    (content ← vaultRead file;
     let checksum := calculateChecksum content in
     metadata ← getMetadata (file_path file);
     mtime ← statMtime file;
     _ ← setMetadata (file_path file)
           (match metadata with
            | None => mkMetadata (file_path file) [] mtime checksum [] false
            | Some metadata =>
                mkMetadata (md_path metadata) (githubBlobSha metadata) mtime
                  checksum (remoteContentChecksum metadata) false
            end);
     savePluginData)
    (λ _, mret tt).

(** [onFileModified] *)
Definition onFileModified (file : TFile) : M (option (SyncType * jsstring)) :=
  let path := file_path file in
  _ ← updateFileMetadata file;
  localFileStates ← getLocalFileStates;
  metadata ← getMetadata path;
  _ ← match mapGet path localFileStates, metadata with
      | Some localFileState, Some metadata =>
          if bool_decide (lf_checksum localFileState ≠ remoteContentChecksum metadata)
          then pendingAdd path
          else pendingDelete path
      | _, None => pendingAdd path
      | None, Some _ => mret tt
      end;
  s ← getSettings;
  mret (debouncedSyncCall
          (realtimeSync s || (syncOnSave s && negb (realtimeSync s))) path).

(** [onFileCreated] *)
Definition onFileCreated (file : TFile) : M (option (SyncType * jsstring)) :=
  let path := file_path file in
  _ ← updateFileMetadata file;
  metadata ← getMetadata path;
  _ ← match metadata with
      | Some metadata =>
          if bool_decide (localChecksum metadata ≠ remoteContentChecksum metadata)
          then pendingAdd path
          else pendingDelete path
      | None => pendingAdd path
      end;
  s ← getSettings;
  mret (debouncedSyncCall
          (realtimeSync s || (syncOnSave s && negb (realtimeSync s))) path).

(** [if (metadata && metadata.githubBlobSha) pendingDeletions.set(path, sha)] *)
Definition markForRemoteDeletion (path : jsstring) (metadata : option FileMetadata)
    : M unit :=
  match metadata with
  | Some metadata =>
      when (nonEmpty (githubBlobSha metadata))
        (modifyState (upd_pendingDeletions (mapSet path (githubBlobSha metadata))))
  | None => mret tt
  end.

(** [onFileDeleted] *)
Definition onFileDeleted (file : TFile) : M (option (SyncType * jsstring)) :=
  let path := file_path file in
  metadata ← getMetadata path;
  _ ← markForRemoteDeletion path metadata;
  _ ← modifyState (upd_fileMetadata (mapDelete path));
  _ ← pendingDelete path;
  _ ← modifyState (upd_remoteChangesPending (setDelete path));
  s ← getSettings;
  _ ← savePluginData;
  mret (debouncedSyncCall (realtimeSync s || autoSync s) path).

(** [onFileRenamed]; reading the renamed file may throw, after the old
    path has been dealt with. *)
Definition onFileRenamed (file : TFile) (oldPath : jsstring)
    : M (option (SyncType * jsstring)) :=
  let path := file_path file in
  oldMetadata ← getMetadata oldPath;
  _ ← markForRemoteDeletion oldPath oldMetadata;
  _ ← pendingDelete oldPath;
  _ ← modifyState (upd_fileMetadata (mapDelete oldPath));
  _ ← modifyState (upd_remoteChangesPending (setDelete oldPath));
  mtime ← statMtime file;
  content ← vaultRead file;
  _ ← setMetadata path
        (mkMetadata path (from_option githubBlobSha [] oldMetadata) mtime
           (calculateChecksum content)
           (from_option remoteContentChecksum [] oldMetadata) false);
  _ ← pendingAdd path;
  s ← getSettings;
  _ ← savePluginData;
  mret (debouncedSyncCall (realtimeSync s || autoSync s) path).

(** The listeners of [setupEventListeners]: a handler runs only for a
    file that [shouldSyncFile] accepts (for a rename: the file, or the old
    path by [shouldSyncPath]). *)
Definition onVaultModify (file : TFile) : M (option (SyncType * jsstring)) :=
  s ← getSettings;
  if shouldSyncFile (syncPath s) file then onFileModified file else mret None.

Definition onVaultCreate (file : TFile) : M (option (SyncType * jsstring)) :=
  s ← getSettings;
  if shouldSyncFile (syncPath s) file then onFileCreated file else mret None.

Definition onVaultDelete (file : TFile) : M (option (SyncType * jsstring)) :=
  s ← getSettings;
  if shouldSyncFile (syncPath s) file then onFileDeleted file else mret None.


(** ** Force operations *)

(** [this.syncState.lastSync = Date.now(); this.settings.lastSyncTime = ...;
    await this.savePluginData()] *)
Definition stampLastSync : M unit :=
  t ← now;
  _ ← modifyState (set_lastSync t);
  _ ← modifySettings (set_lastSyncTime t);
  savePluginData.

Fixpoint forcePullLoop (remoteFilesMetadata : JsMap jsstring RemoteFileInfo)
    (pulledCount : nat) : M nat :=
  match remoteFilesMetadata with
  | [] => mret pulledCount
  | (path, remoteFileMetadata) :: rest =>
      pulled ← attempt (downloadFile remoteFileMetadata);
      match pulled with
      | Ok _ => forcePullLoop rest (S pulledCount)
      | Throw _ =>
          _ ← showNotice (js "Failed to pull " ++ path
                          ++ js " during force pull. Check console.");
          forcePullLoop rest pulledCount
      end
  end.

(** The [finally] block of the force operations. *)
Definition releaseForce : M unit :=
  _ ← modifyState (set_inProgress false);
  updateOverallStatusBar.

(** [forcePullFromGitHub] *)
Definition forcePullFromGitHub : M unit :=
  valid ← validateSettings;
  if negb valid then mret tt
  else
    st ← getState;
    if inProgress st then
      showNotice (js "Sync in progress, please wait before forcing a pull.")
    else
      tryFinally
        (tryCatch
           (_ ← modifyState (set_inProgress true);
            _ ← updateStatusBar (js "Force pulling...");
            _ ← showNotice (js "Starting force pull from GitHub...");
            remoteFilesMetadata ← getRemoteFileStates;
            match remoteFilesMetadata with
            | None =>
                showNotice (js "Force pull aborted: Could not retrieve remote file states due to network issues.")
            | Some remoteFilesMetadata =>
                pulledCount ← forcePullLoop remoteFilesMetadata 0;
                _ ← stampLastSync;
                _ ← updateStatusBar (js "Force pull complete");
                showNotice (js "Force pull completed. Pulled "
                            ++ showCount pulledCount ++ js " file(s).")
            end)
           (λ error,
              showNotice (js "Force pull failed: " ++ err_message error)))
        releaseForce.

Fixpoint forcePushLoop (files : list TFile) (pushedCount : nat) : M nat :=
  match files with
  | [] => mret pushedCount
  | file :: rest =>
      s ← getSettings;
      if shouldSyncFile (syncPath s) file then
        pushed ← attempt (uploadFile file 1);
        match pushed with
        | Ok _ => forcePushLoop rest (S pushedCount)
        | Throw _ =>
            _ ← showNotice (js "Failed to push " ++ file_path file
                            ++ js " during force push. Check console.");
            forcePushLoop rest pushedCount
        end
      else forcePushLoop rest pushedCount
  end.

(** [forcePushToGitHub] *)
Definition forcePushToGitHub : M unit :=
  valid ← validateSettings;
  if negb valid then mret tt
  else
    st ← getState;
    if inProgress st then
      showNotice (js "Sync in progress, please wait before forcing a push.")
    else
      tryFinally
        (tryCatch
           (_ ← modifyState (set_inProgress true);
            _ ← updateStatusBar (js "Force pushing...");
            _ ← showNotice (js "Starting force push to GitHub...");
            files ← getMarkdownFiles;
            pushedCount ← forcePushLoop files 0;
            _ ← stampLastSync;
            _ ← updateStatusBar (js "Force push complete");
            showNotice (js "Force push completed. Pushed "
                        ++ showCount pushedCount ++ js " file(s)."))
           (λ error,
              showNotice (js "Force push failed: " ++ err_message error)))
        releaseForce.

End Handlers.

(* ================================================================== *)
(** * Specification vocabulary *)
(* ================================================================== *)

(** The predicates below are not part of the program: they say, over the
    ghost trace and the state, what the specification promises. *)

Section Vocabulary.
Context `{Platform}.

(** The world after an interaction that touches only the environment
    and the trace. *)
Definition touched (w : World) (e' : Env) (events : list Event) : World :=
  mkWorld (syncState w) (settings w) (vault w) e' (log w ++ events).

(** The attempts of one remote call, retried at most [bound] times:
    [front] are the attempts that were retried - each failed with a
    retryable error and was followed by a wait of [delay] times 1.5 to
    the power of its index - and [final] is the attempt that decided the
    result. *)
Definition retryTrace (delay : Q) (bound : nat) (front : list Attempt)
    (final : Attempt) (r : Res Json) : Prop :=
  length front ≤ bound ∧
  (∀ k a, front !! k = Some a →
     ∃ error d, classifyOutcome (att_outcome a) = inl error ∧
                isRetryableError error = true ∧
                att_backoff a = Some d ∧
                (d == delay * (3 # 2) ^ Z.of_nat k)%Q) ∧
  att_backoff final = None ∧
  match classifyOutcome (att_outcome final) with
  | inr json => r = Ok json
  | inl error =>
      r = Throw error ∧ (isRetryableError error = false ∨ length front = bound)
  end.




End Vocabulary.

(** The delete protocol, as the specification words it, over the calls
    of one run on [filePath]: [DeleteRun i events r] says that the
    attempts from the [i]-th on leave the trace [events] and end in [r]. *)
Section DeleteVocabulary.
Variables (filePath remotePath branchName : jsstring) (maxRetries : nat).

Definition getCall (attempts : list Attempt) (result : Res Json) : Event :=
  EvCall (GetContents remotePath branchName) attempts result.

Definition deleteCall (sha : jsstring) (attempts : list Attempt)
    (result : Res Json) : Event :=
  EvCall (DeleteContents remotePath (deleteMessage filePath) sha branchName)
         attempts result.

Definition backoffOf (i : nat) : Event := EvSleep (1000 * (Z.of_nat i + 1)).

Inductive DeleteRun : nat → list Event → Res unit → Prop :=
| DR_precheck_404 i attempts error :
    (* the pre-check finds nothing: already deleted *)
    hasStatus error 404 = true →
    DeleteRun i [getCall attempts (Throw error)] (Ok tt)
| DR_precheck_retry i attempts error rest r :
    (* the pre-check fails otherwise and attempts remain *)
    hasStatus error 404 = false → S i < maxRetries →
    DeleteRun (S i) rest r →
    DeleteRun i (getCall attempts (Throw error) :: backoffOf i :: rest) r
| DR_precheck_fail i attempts error :
    hasStatus error 404 = false → ¬ S i < maxRetries →
    DeleteRun i [getCall attempts (Throw error)] (Throw error)
| DR_no_sha i attempts json :
    (* the pre-check answers without a revision id: taken as gone *)
    truthy (currentShaOf json) = false →
    DeleteRun i [getCall attempts (Ok json)] (Ok tt)
| DR_deleted i attempts json sha attempts' json' :
    currentShaOf json = Some sha → sha ≠ [] →
    DeleteRun i [getCall attempts (Ok json); deleteCall sha attempts' (Ok json')]
              (Ok tt)
| DR_delete_409_retry i attempts json sha attempts' error rest r :
    (* stale revision id and attempts remain: wait, then start over *)
    currentShaOf json = Some sha → sha ≠ [] →
    hasStatus error 409 = true → S i < maxRetries →
    DeleteRun (S i) rest r →
    DeleteRun i (getCall attempts (Ok json)
                 :: deleteCall sha attempts' (Throw error)
                 :: backoffOf i :: rest) r
| DR_delete_404 i attempts json sha attempts' error :
    currentShaOf json = Some sha → sha ≠ [] →
    hasStatus error 404 = true →
    DeleteRun i [getCall attempts (Ok json);
                 deleteCall sha attempts' (Throw error)] (Ok tt)
| DR_delete_fail i attempts json sha attempts' error :
    currentShaOf json = Some sha → sha ≠ [] →
    hasStatus error 404 = false →
    ¬ (hasStatus error 409 = true ∧ S i < maxRetries) →
    DeleteRun i [getCall attempts (Ok json);
                 deleteCall sha attempts' (Throw error)] (Throw error).

(** The whole protocol.  A remote path that [encodeFilePath] cannot
    encode fails every pre-check before anything is sent: the run only
    waits between the attempts and ends with the [URIError]. *)
Definition DeleteProtocol (i : nat) (events : list Event) (r : Res unit) : Prop :=
  match encodeFilePath remotePath with
  | Some _ => DeleteRun i events r
  | None =>
      events = backoffOf <$> seq i (maxRetries - 1 - i) ∧ r = Throw uriError
  end.

End DeleteVocabulary.

(** ** Merge policy *)

(** The block that [mergeContent] returns when the remote content has a
    line the local content lacks. *)
Definition conflictBlock (localContent remoteContent : list N) : list N :=
  js "<<<<<<< local version" ++ [nl] ++ localContent ++ [nl] ++
  js "=======" ++ [nl] ++ remoteContent ++ [nl] ++
  js ">>>>>>> remote version" ++ [nl].

(** ** Tracking *)





(** ** Conflict detector *)

Section DetectorVocabulary.
Context `{Platform}.

(** The world once [path] has been added to [pendingFiles]. *)
Definition markPending (path : list N) (w : World) : World :=
  mkWorld (upd_pendingFiles (setAdd path) (syncState w)) (settings w) (vault w)
          (env w) (log w).

(** What other paths keep across one iteration of the detector. *)
Definition keepsOthers (path : list N) (w w' : World) : Prop :=
  settings w' = settings w ∧
  (∃ events, log w' = log w ++ events) ∧
  ∀ q, q ≠ path →
    mapGet q (fileMetadata (syncState w')) = mapGet q (fileMetadata (syncState w)) ∧
    (q ∈ pendingFiles (syncState w') ↔ q ∈ pendingFiles (syncState w)).



End DetectorVocabulary.

(** ** Orchestrator *)

Section GuardVocabulary.
Context `{Platform}.

(** The notices of a refused run: the one of [validateSettings] when the
    settings are incomplete, then the one of the guard. *)
Definition settingsComplete (s : GitHubSyncSettings) : bool :=
  nonEmpty (githubToken s) && nonEmpty (repoOwner s) && nonEmpty (repoName s).

Definition configureNotice : Event :=
  EvNotice (js "Please configure GitHub settings first (Token, Owner, Repo Name).").

Definition inProgressNotice : Event :=
  EvNotice (js "Sync in progress, please wait.").

(** The status bar text of [updateOverallStatusBar] when no run is in
    progress. *)
Definition idleStatus (s : GitHubSyncSettings) : jsstring :=
  js "GitHub SyncMate: "
  ++ (if realtimeSync s then js "Real-time sync active " ++ [9889%N]
      else if autoSync s then js "Auto-sync active " ++ [55357%N; 56580%N]
      else js "Idle").

(** The [finally] block applied to the world the [try]/[catch] leaves. *)
Definition released (w : World) : World :=
  let st := set_inProgress false (syncState w) in
  mkWorld st (settings w) (vault w) (env w)
    (log w ++ [EvSave (mkPluginData (settings w) (fileMetadata st)
                         (pendingDeletions st)
                         (remoteChangesPendingForActiveFiles st));
               EvStatusBar (idleStatus (settings w))]).

(** The world in which the phases start. *)
Definition acquired (w : World) : World :=
  mkWorld (set_inProgress true (syncState w)) (settings w) (vault w) (env w) (log w).

End GuardVocabulary.

(** ** Paths *)

(** [s.startsWith('/')] *)
Definition leadingSlash (s : list N) : bool :=
  match s with c :: _ => bool_decide (c = slash) | [] => false end.

(** ** Checksum *)

(** Horner's scheme with multiplier 31 over the code units. *)
Definition polynomialHash (content : list N) : Z :=
  fold_left (λ hash char, 31 * hash + Z.of_N char)%Z content 0%Z.

(** ** Base64 transport *)

(** A string of 16-bit code units. *)
Definition isJsString (s : list N) : Prop := Forall (λ c, c < 65536)%N s.

(** A character that both decoders skip. *)
Definition isSkipped (c : N) : Prop :=
  b64Value c = None ∧ c ≠ padChar ∧ c ≠ 45%N ∧ c ≠ 95%N.

#[local] Instance isSkipped_dec (c : N) : Decision (isSkipped c).
Proof. unfold isSkipped. apply _. Defined.

(** ** Paths in URLs *)

(** The value of a hexadecimal digit in upper case. *)
Definition hexValue (c : N) : N := (if c <? 58 then c - 48 else c - 55)%N.

(** The bytes a percent-encoded text stands for. *)
Fixpoint percentDecode (s : list N) : list N :=
  match s with
  | [] => []
  | c :: r =>
      match r with
      | h :: l :: r' =>
          if decide (c = 37%N) then (16 * hexValue h + hexValue l)%N :: percentDecode r'
          else c :: percentDecode r
      | _ => c :: percentDecode r
      end
  end.

(** A character of an encoded path. *)
Definition isUrlSafe (c : N) : bool :=
  isUriUnreserved c || bool_decide (c = 37%N) || bool_decide (c = slash).

(** ** Engine *)

Section EngineVocabulary.
Context `{Platform}.

(** What a successful pull leaves for the local path: the remote
    content in the vault, and metadata holding the listed sha and the
    checksum of that content. *)
Definition pulled (localPath : list N) (sha content : list N) (w' : World) : Prop :=
  (∃ f, mapGet localPath (vault w') = Some f ∧ vf_content f = content) ∧
  (∃ md, mapGet localPath (fileMetadata (syncState w')) = Some md ∧
         githubBlobSha md = sha ∧
         localChecksum md = calculateChecksum content ∧
         remoteContentChecksum md = calculateChecksum content) ∧
  (localPath ∉ pendingFiles (syncState w')) ∧
  (localPath ∉ remoteChangesPendingForActiveFiles (syncState w')).

(** A local file that the detector marks for push when the remote
    states are unknown: untracked, or changed since the last known
    remote content. *)
Definition changedLocally (st : SyncState) (path : list N)
    (localFile : LocalFileState) : Prop :=
  match mapGet path (fileMetadata st) with
  | Some metadata => lf_checksum localFile ≠ remoteContentChecksum metadata
  | None => True
  end.

(** The world once [path] has been removed from [pendingFiles]. *)
Definition unmarkPending (path : list N) (w : World) : World :=
  mkWorld (upd_pendingFiles (setDelete path) (syncState w)) (settings w) (vault w)
          (env w) (log w).

(** The world after the detector has seeded metadata for a path that
    had none. *)
Definition seeded (path : list N) (localFile : LocalFileState)
    (remote : RemoteFileInfo) (content : list N) (w1 : World) : World :=
  let md := mkMetadata path (rf_sha remote) (lf_mtime localFile)
              (lf_checksum localFile) (calculateChecksum content) false in
  mkWorld
    (upd_pendingFiles
       (if decide (lf_checksum localFile = calculateChecksum content)
        then setDelete path else setAdd path)
       (upd_fileMetadata (mapSet path md) (syncState w1)))
    (settings w1) (vault w1) (env w1) (log w1).

(** The world after the expiry passes of [getRemoteFileStates] at time
    [t]. *)
Definition expiredAt (t : Z) (w : World) : World :=
  mkWorld
    (upd_recentlyDeletedFromRemote (expire t RECENTLY_DELETED_GRACE_PERIOD_MS)
       (upd_recentlyPushedFiles (expire t RECENTLY_PUSHED_GRACE_PERIOD_MS)
          (syncState w)))
    (settings w) (vault w) (env w) (log w).

Definition listingFailedNotice : Event :=
  EvNotice (js "Failed to fetch remote file states. This may affect sync accuracy. Check your GitHub settings and network connection.").

(** Two states that differ at most in [recentlyDeletedFromRemote], the
    later one holding every path the earlier one holds there. *)
Definition deletionsRecorded (st st' : SyncState) : Prop :=
  inProgress st' = inProgress st ∧ lastSync st' = lastSync st ∧
  pendingFiles st' = pendingFiles st ∧ fileMetadata st' = fileMetadata st ∧
  pendingDeletions st' = pendingDeletions st ∧
  recentlyPushedFiles st' = recentlyPushedFiles st ∧
  remoteChangesPendingForActiveFiles st' = remoteChangesPendingForActiveFiles st ∧
  ∀ path, is_Some (mapGet path (recentlyDeletedFromRemote st)) →
          is_Some (mapGet path (recentlyDeletedFromRemote st')).

(** The state [getLocalFileStates] builds for a file of the vault. *)
Definition localStateOf (path : list N) (f : VaultFile) : LocalFileState :=
  mkLocalFileState (tfileOf path) (vf_content f)
    (calculateChecksum (vf_content f)) (vf_mtime f).

(** The snapshot [savePluginData] hands to the host. *)
Definition snapshot (w : World) : PluginData :=
  mkPluginData (settings w) (fileMetadata (syncState w))
    (pendingDeletions (syncState w))
    (remoteChangesPendingForActiveFiles (syncState w)).

(** The metadata [updateFileMetadata] stores for a file with the given
    content and modification time. *)
Definition refreshedMetadata (path : list N) (old : option FileMetadata)
    (f : VaultFile) : FileMetadata :=
  mkMetadata (from_option md_path path old) (from_option githubBlobSha [] old)
    (vf_mtime f) (calculateChecksum (vf_content f))
    (from_option remoteContentChecksum [] old) false.

(** The world after [updateFileMetadata] for a file of the vault. *)
Definition refreshed (path : list N) (f : VaultFile) (w : World) : World :=
  let st := upd_fileMetadata
              (mapSet path
                 (refreshedMetadata path
                    (mapGet path (fileMetadata (syncState w))) f))
              (syncState w) in
  let w1 := mkWorld st (settings w) (vault w) (env w) (log w) in
  mkWorld st (settings w) (vault w) (env w) (log w ++ [EvSave (snapshot w1)]).

(** The [finally] block of the force operations applied to the world the
    [try]/[catch] leaves: the flag is cleared and the status bar
    updated; nothing is saved. *)
Definition releasedForce (w : World) : World :=
  mkWorld (set_inProgress false (syncState w)) (settings w) (vault w) (env w)
    (log w ++ [EvStatusBar (idleStatus (settings w))]).

(** A computation that leaves the settings as they are. *)
Definition keepsSettings {A} (m : M A) : Prop :=
  ∀ w, settings (snd (m w)) = settings w.

End EngineVocabulary.

(* ================================================================== *)
(** * An example platform *)
(* ================================================================== *)

(** A small repository in memory, used to run the engine on concrete
    scenarios.  It answers the contents API the way GitHub does for the
    cases the scenarios meet: a file is returned with its revision id and
    base64 content, a directory with its listing, anything else is a 404;
    a PUT or DELETE must name the current revision id or is a 409. *)
Record DemoEnv : Type := mkDemoEnv {
  demo_files : JsMap jsstring jsstring;   (* remote path to content *)
  demo_clock : Z;
  demo_active : option jsstring
}.

Definition demoSha (content : jsstring) : jsstring :=
  js "blob" ++ showZ (fallbackHash content).

Definition demoItems (dir : jsstring) (files : JsMap jsstring jsstring)
    : list RemoteItem :=
  let dirPrefix := if nonEmpty dir then dir ++ [slash] else [] in
  fold_left (λ items '(path, content),
    if startsWith path dirPrefix then
      match split slash (drop (length dirPrefix) path) with
      | [name] => items ++ [mkItem (js "file") name path (demoSha content)]
      | name :: _ =>
          let sub := dirPrefix ++ name in
          if bool_decide (Exists (λ item, item_path item = sub) items) then items
          else items ++ [mkItem (js "dir") name sub (js "tree")]
      | [] => items
      end
    else items) files [].

Definition demoAnswer (status : N) (json : Json) : HttpOutcome :=
  Responded (mkResponse status [] (inr json)).

Definition demoError (status : N) (message : string) : HttpOutcome :=
  Responded (mkResponse status (js message) (inr JNull)).

Definition demoRequest (req : Request) (e : DemoEnv) : HttpOutcome * DemoEnv :=
  let files := demo_files e in
  let store files := mkDemoEnv files (demo_clock e) (demo_active e) in
  match req with
  | GetContents path _ =>
      match mapGet path files with
      | Some content =>
          (demoAnswer 200 (JObject
             (mkObject (js "file") (List.last (split slash path) []) path
                (Some (demoSha content))
                (ContentText (base64Encode (utf8Encode content))))), e)
      | None =>
          match demoItems path files with
          | [] => (demoError 404 "Not Found", e)
          | items => (demoAnswer 200 (JArray items), e)
          end
      end
  | PutContents path _ content sha _ =>
      let content := utf8Decode (bufferFromBase64 content) in
      if bool_decide (sha = demoSha <$> mapGet path files) then
        (demoAnswer 200 (JObject
           (mkObject [] [] [] None (ContentObject (Some (demoSha content))))),
         store (mapSet path content files))
      else (demoError 409 "does not match", e)
  | DeleteContents path _ sha _ =>
      match mapGet path files with
      | Some content =>
          if bool_decide (sha = demoSha content) then
            (demoAnswer 200 (JObject (mkObject [] [] [] None NoContent)),
             store (mapDelete path files))
          else (demoError 409 "does not match", e)
      | None => (demoError 404 "Not Found", e)
      end
  end.

Definition demoPlatform : Platform := {|
  Env := DemoEnv;
  requestUrl := demoRequest;
  setTimeout ms e :=
    mkDemoEnv (demo_files e) (demo_clock e + Qfloor ms) (demo_active e);
  dateNow := demo_clock;
  getActiveFile := demo_active;
  askForResolution _ _ _ e := (ResLocal, e);
  subtleDigest := None;
  hasBuffer := true;
  treeDepth := 8
|}.

Definition demoSettings (syncPath : string) : GitHubSyncSettings :=
  mkSettings (js "token") (js "owner") (js "notes-repo") (js "main")
    (js syncPath) true 300000 CRAsk false false 0 Standard.

Definition emptyState : SyncState := mkSyncState false 0 [] [] [] [] [] [].

(** A world of the example platform: the given settings, vault and
    repository, nothing synchronized yet, the clock at [clock]. *)
Definition demoWorld (syncPath : string) (vault remote : JsMap jsstring jsstring)
    (clock : Z) : @World demoPlatform :=
  @mkWorld demoPlatform emptyState (demoSettings syncPath)
    ((λ '(path, content), (path, mkVaultFile content clock)) <$> vault)
    (mkDemoEnv remote clock None) [].

(** Metadata and a local state for the examples. *)
Definition demoMetadata (path : string) (sha checksum : string) : FileMetadata :=
  mkMetadata (js path) (js sha) 0 (js checksum) (js checksum) false.

Definition demoLocalFile (path content : string) : LocalFileState :=
  mkLocalFileState (tfileOf (js path)) (js content)
    (@calculateChecksum demoPlatform (js content)) 0.


(** A successful DELETE of [path] in a trace. *)
Definition deletedRemotely (path : string) (events : list Event) : bool :=
  existsb (λ ev,
    match ev with
    | EvCall (DeleteContents remotePath _ _ _) _ (Ok _) =>
        bool_decide (remotePath = js path)
    | _ => false
    end) events.

(* ================================================================== *)
(** * Properties *)
(* ================================================================== *)

(** ** Arithmetic and list helpers *)

Ltac divmod := zify; Z.to_euclidean_division_equations; lia.

(** A run whose result is known, paired with the world it leaves. *)
Lemma result_with_world {A W : Type} (p : A * W) (a : A) :
  fst p = a → p = (a, snd p).
Proof. destruct p. by intros [= ->]. Qed.

Lemma list_ind3 {A} (P : list A → Prop) :
  P [] → (∀ a, P [a]) → (∀ a b, P [a; b]) →
  (∀ a b c r, P r → P (a :: b :: c :: r)) → ∀ l, P l.
Proof.
  intros H0 H1 H2 H3.
  assert (∀ l, P l ∧ (∀ a, P (a :: l)) ∧ (∀ a b, P (a :: b :: l))) as H.
  { induction l as [|x l (IH0 & IH1 & IH2)]; [by auto|].
    split; [apply IH1|]. split; [intros; apply IH2|]. intros. by apply H3. }
  intros l. apply H.
Qed.

Lemma sextets_lt (i : N) :
  (i < 64)%N → In i (map N.of_nat (seq 0 64)).
Proof.
  intros Hi. rewrite <- (N2Nat.id i). apply in_map, in_seq. lia.
Qed.

Lemma alphabet_facts (i : N) :
  (i < 64)%N →
  b64Value (b64Char i) = Some i ∧ bufferValue (b64Char i) = Some i ∧
  b64Char i ≠ padChar ∧ isAsciiWhitespace (b64Char i) = false.
Proof.
  intros Hi%sextets_lt. revert i Hi. apply (proj1 (List.Forall_forall _ _)).
  apply (bool_decide_unpack _). by vm_compute.
Qed.

Lemma sextetsOf_lt (bytes : list N) :
  Forall (λ b, b < 256)%N bytes → Forall (λ x, x < 64)%N (sextetsOf bytes).
Proof.
  induction bytes as [|a|a b|a b c r IH] using list_ind3; intros Hb; cbn [sextetsOf].
  - constructor.
  - apply Forall_cons_1 in Hb as [Ha _]. repeat constructor; divmod.
  - apply Forall_cons_1 in Hb as [Ha [Hb _]%Forall_cons_1].
    repeat constructor; divmod.
  - apply Forall_cons_1 in Hb as [Ha [Hb [Hc Hr]%Forall_cons_1]%Forall_cons_1].
    repeat (constructor; [divmod|]). by apply IH.
Qed.

Lemma bytesOf_sextetsOf (bytes : list N) :
  Forall (λ b, b < 256)%N bytes → bytesOf (sextetsOf bytes) = bytes.
Proof.
  induction bytes as [|a|a b|a b c r IH] using list_ind3; intros Hb; cbn [sextetsOf bytesOf].
  - done.
  - apply Forall_cons_1 in Hb as [Ha _]. f_equal. divmod.
  - apply Forall_cons_1 in Hb as [Ha [Hb _]%Forall_cons_1].
    f_equal; [divmod|]. f_equal. divmod.
  - apply Forall_cons_1 in Hb as [Ha [Hb [Hc Hr]%Forall_cons_1]%Forall_cons_1].
    rewrite IH by done. f_equal; [divmod|]. f_equal; [divmod|]. f_equal; divmod.
Qed.

(** Shape of the encoder's output: lengths by the residue of the input
    length modulo three. *)
Lemma sextetsOf_length (bytes : list N) :
  ∃ q,
    (length bytes = 3 * q ∧ length (sextetsOf bytes) = 4 * q
       ∧ padLength (length bytes) = 0) ∨
    (length bytes = 3 * q + 1 ∧ length (sextetsOf bytes) = 4 * q + 2
       ∧ padLength (length bytes) = 2) ∨
    (length bytes = 3 * q + 2 ∧ length (sextetsOf bytes) = 4 * q + 3
       ∧ padLength (length bytes) = 1).
Proof.
  induction bytes as [|a|a b|a b c r IH] using list_ind3.
  - exists 0. by left.
  - exists 0. right; by left.
  - exists 0. right; by right.
  - destruct IH as [q IH]. exists (S q). cbn [sextetsOf length].
    unfold padLength in *.
    replace (S (S (S (length r))) mod 3) with (length r mod 3) by divmod.
    lia.
Qed.

(** ** Base64 transport *)

Lemma untilPad_encoded (sx : list N) (k : nat) :
  Forall (λ x, x < 64)%N sx →
  untilPad (map b64Char sx ++ replicate k padChar) = map b64Char sx.
Proof.
  induction 1 as [|x sx Hx _ IH]; cbn [map app untilPad].
  - destruct k; cbn; [done|]. by rewrite decide_True.
  - rewrite decide_False by by apply alphabet_facts. by rewrite IH.
Qed.

Lemma omap_bufferValue (sx : list N) :
  Forall (λ x, x < 64)%N sx → omap bufferValue (map b64Char sx) = sx.
Proof.
  induction 1 as [|x sx Hx _ IH]; cbn [map omap list_omap]; [done|].
  destruct (alphabet_facts x Hx) as (_ & -> & _). by rewrite IH.
Qed.

Lemma mapM_b64Value (sx : list N) :
  Forall (λ x, x < 64)%N sx → mapM b64Value (map b64Char sx) = Some sx.
Proof.
  intros Hsx. apply mapM_Some_2.
  induction Hsx as [|x sx Hx _ IH]; cbn [map]; constructor; [|done].
  by apply alphabet_facts.
Qed.

Lemma bufferFromBase64_encode (bytes : list N) :
  Forall (λ b, b < 256)%N bytes → bufferFromBase64 (base64Encode bytes) = bytes.
Proof.
  intros Hb. unfold bufferFromBase64, base64Encode.
  rewrite untilPad_encoded, omap_bufferValue by by apply sextetsOf_lt.
  by apply bytesOf_sextetsOf.
Qed.

Lemma encoded_chars (bytes : list N) :
  Forall (λ b, b < 256)%N bytes →
  Forall (λ c, (is_Some (b64Value c) ∨ c = padChar) ∧ isAsciiWhitespace c = false)
         (base64Encode bytes).
Proof.
  intros Hb%sextetsOf_lt. unfold base64Encode. apply Forall_app. split.
  - induction Hb as [|x sx Hx _ IH]; cbn [map]; constructor; [|done].
    destruct (alphabet_facts x Hx) as (-> & _ & _ & ->). eauto.
  - apply Forall_replicate. split; [by right|done].
Qed.

Lemma filter_all {A} (P : A → Prop) `{∀ x, Decision (P x)} (l : list A) :
  Forall P l → filter P l = l.
Proof.
  induction 1 as [|x l Hx _ IH]; [done|].
  by rewrite filter_cons_True, IH.
Qed.

Lemma base64Encode_length (bytes : list N) : length (base64Encode bytes) mod 4 = 0.
Proof.
  unfold base64Encode. rewrite length_app, length_map, length_replicate.
  destruct (sextetsOf_length bytes) as [q Hq]. divmod.
Qed.

Lemma stripPadding_encode (bytes : list N) :
  Forall (λ b, b < 256)%N bytes →
  stripPadding (base64Encode bytes) = map b64Char (sextetsOf bytes).
Proof.
  intros Hb. unfold stripPadding.
  rewrite decide_True by apply base64Encode_length.
  assert (∀ c, c ∈ map b64Char (sextetsOf bytes) → c ≠ padChar) as Hne.
  { intros c [i [<- Hi]]%list_elem_of_In%in_map_iff.
    apply alphabet_facts. apply sextetsOf_lt in Hb.
    rewrite List.Forall_forall in Hb. by apply Hb. }
  unfold base64Encode.
  destruct (sextetsOf_length bytes) as [q [(_ & Hl & ->)|[(_ & Hl & ->)|(_ & Hl & ->)]]];
    cbn [replicate]; rewrite <- (length_map b64Char) in Hl;
    set (m := map b64Char (sextetsOf bytes)) in *.
  - rewrite app_nil_r.
    destruct (reverse m) as [|c1 [|c2 r]] eqn:Hr; [done| |].
    + rewrite decide_False; [done|]. apply Hne, elem_of_reverse. rewrite Hr. repeat constructor.
    + rewrite decide_False; [done|]. apply Hne, elem_of_reverse. rewrite Hr. repeat constructor.
  - rewrite reverse_app. cbn. rewrite !decide_True by done. apply reverse_involutive.
  - rewrite reverse_app. cbn.
    destruct (reverse m) as [|c2 r] eqn:Hr.
    { apply (f_equal length) in Hr. rewrite length_reverse in Hr. cbn in Hr. lia. }
    rewrite decide_True by done. rewrite decide_False.
    + change (rev_append r [c2]) with (reverse (c2 :: r)).
      rewrite <- Hr. apply reverse_involutive.
    + apply Hne, elem_of_reverse. rewrite Hr. repeat constructor.
Qed.

Lemma atob_encode (bytes : list N) :
  Forall (λ b, b < 256)%N bytes → atob (base64Encode bytes) = Some bytes.
Proof.
  intros Hb. unfold atob. cbv zeta.
  rewrite filter_all by (eapply list.Forall_impl; [by apply encoded_chars|]; by intros ? [_ ?]).
  rewrite stripPadding_encode by done.
  rewrite decide_False.
  - rewrite mapM_b64Value by by apply sextetsOf_lt. cbn. f_equal.
    by apply bytesOf_sextetsOf.
  - rewrite length_map. destruct (sextetsOf_length bytes) as [q Hq]. divmod.
Qed.

Lemma clean_pad_encode (bytes : list N) :
  Forall (λ b, b < 256)%N bytes →
  padToMultipleOf4 (cleanBase64 (base64Encode bytes)) = base64Encode bytes.
Proof.
  intros Hb. unfold cleanBase64.
  rewrite filter_all by (eapply list.Forall_impl; [by apply encoded_chars|]; by intros ? [? _]).
  unfold padToMultipleOf4. rewrite base64Encode_length. cbn. apply app_nil_r.
Qed.


Lemma utf8Step_start (b : N) : utf8Step utf8Init b = utf8Start b.
Proof. done. Qed.

Lemma utf8Start_ascii (b : N) : (b ≤ 127)%N → utf8Start b = ([b], utf8Init).
Proof. intros. unfold utf8Start. by rewrite (proj2 (N.leb_le _ _)). Qed.

Lemma utf8Start_lead (b : N) :
  (194 ≤ b ≤ 244)%N →
  utf8Start b =
    ([], if (b <=? 223)%N then mkUtf8State (b mod 32) 0 1 128 191
         else if (b <=? 239)%N then
           mkUtf8State (b mod 16) 0 2 (if (b =? 224)%N then 160%N else 128%N)
                       (if (b =? 237)%N then 159%N else 191%N)
         else
           mkUtf8State (b mod 8) 0 3 (if (b =? 240)%N then 144%N else 128%N)
                       (if (b =? 244)%N then 143%N else 191%N)).
Proof.
  intros Hb. unfold utf8Start.
  repeat match goal with
  | |- context [(?x <=? ?y)%N] => destruct (N.leb_spec x y); try lia; cbn [andb]
  end; done.
Qed.

Lemma utf8Step_mid (st : Utf8State) (b : N) :
  (u_bytesNeeded st ≠ 0)%N → (u_lower st ≤ b ≤ u_upper st)%N →
  (u_bytesSeen st + 1 ≠ u_bytesNeeded st)%N →
  utf8Step st b =
    ([], mkUtf8State (u_codePoint st * 64 + b mod 64) (u_bytesSeen st + 1)
                     (u_bytesNeeded st) 128 191).
Proof.
  intros Hn Hb Hs. unfold utf8Step.
  rewrite (proj2 (N.eqb_neq _ _)) by done.
  destruct (N.ltb_spec b (u_lower st)); [lia|].
  destruct (N.ltb_spec (u_upper st) b); [lia|].
  cbn [orb]. by rewrite (proj2 (N.eqb_neq _ _)).
Qed.

Lemma utf8Step_last (st : Utf8State) (b : N) :
  (u_bytesNeeded st ≠ 0)%N → (u_lower st ≤ b ≤ u_upper st)%N →
  (u_bytesSeen st + 1 = u_bytesNeeded st)%N →
  utf8Step st b = ([(u_codePoint st * 64 + b mod 64)%N], utf8Init).
Proof.
  intros Hn Hb Hs. unfold utf8Step.
  rewrite (proj2 (N.eqb_neq _ _)) by done.
  destruct (N.ltb_spec b (u_lower st)); [lia|].
  destruct (N.ltb_spec (u_upper st) b); [lia|].
  cbn [orb]. by rewrite (proj2 (N.eqb_eq _ _)).
Qed.

Ltac utf8_side :=
  cbn [u_codePoint u_bytesSeen u_bytesNeeded u_lower u_upper];
  repeat match goal with
  | |- context [(?x =? ?y)%N] => destruct (N.eqb_spec x y)
  end; divmod.

Lemma utf8Decode_codePoint (cp : N) (rest : list N) :
  isScalarValue cp →
  utf8DecodeFrom utf8Init (utf8EncodeCodePoint cp ++ rest) =
  cp :: utf8DecodeFrom utf8Init rest.
Proof.
  intros [Hmax Hsur]. unfold utf8EncodeCodePoint.
  destruct (N.ltb_spec cp 128) as [H1|H1]; [|
  destruct (N.ltb_spec cp 2048) as [H2|H2]; [|
  destruct (N.ltb_spec cp 65536) as [H3|H3]]];
  cbn [app utf8DecodeFrom]; rewrite utf8Step_start.
  - by rewrite utf8Start_ascii by lia.
  - rewrite utf8Start_lead by divmod.
    destruct (N.leb_spec (192 + cp / 64) 223); [|divmod].
    rewrite utf8Step_last by utf8_side.
    cbn [app u_codePoint]. f_equal. divmod.
  - rewrite utf8Start_lead by divmod.
    destruct (N.leb_spec (224 + cp / 4096) 223); [divmod|].
    destruct (N.leb_spec (224 + cp / 4096) 239); [|divmod].
    rewrite utf8Step_mid by utf8_side.
    cbn [app]. rewrite utf8Step_last by utf8_side.
    cbn [app u_codePoint]. f_equal. divmod.
  - rewrite utf8Start_lead by divmod.
    destruct (N.leb_spec (240 + cp / 262144) 223); [divmod|].
    destruct (N.leb_spec (240 + cp / 262144) 239); [divmod|].
    rewrite utf8Step_mid by utf8_side.
    cbn [app]. rewrite utf8Step_mid by utf8_side.
    cbn [app]. rewrite utf8Step_last by utf8_side.
    cbn [app u_codePoint]. f_equal. divmod.
Qed.

Lemma utf8Decode_flat (cps rest : list N) :
  Forall isScalarValue cps →
  utf8DecodeFrom utf8Init (flat_map utf8EncodeCodePoint cps ++ rest) =
  cps ++ utf8DecodeFrom utf8Init rest.
Proof.
  induction 1 as [|cp cps Hcp _ IH]; cbn [flat_map app]; [done|].
  by rewrite <- app_assoc, utf8Decode_codePoint, IH.
Qed.

Lemma utf8EncodeCodePoint_bytes (cp : N) :
  isScalarValue cp → Forall (λ b, b < 256)%N (utf8EncodeCodePoint cp).
Proof.
  intros [Hmax _]. unfold utf8EncodeCodePoint.
  repeat match goal with
  | |- context [(?x <? ?y)%N] => destruct (N.ltb_spec x y)
  end; repeat constructor; divmod.
Qed.

Lemma surrogate_cases (c : N) :
  (isHighSurrogate c = true ∧ (55296 ≤ c ≤ 56319)%N) ∨
  (isHighSurrogate c = false ∧ isLowSurrogate c = true ∧ (56320 ≤ c ≤ 57343)%N) ∨
  (isHighSurrogate c = false ∧ isLowSurrogate c = false ∧ ¬ (55296 ≤ c ≤ 57343)%N).
Proof.
  unfold isHighSurrogate, isLowSurrogate.
  repeat match goal with
  | |- context [(?x <=? ?y)%N] => destruct (N.leb_spec x y)
  end; cbn; lia.
Qed.

(** The three lemmas on well-formed strings go by induction on the
    length, since a surrogate pair consumes two code units. *)
Lemma wellFormed_ind (P : list N → Prop) :
  P [] →
  (∀ c r, isHighSurrogate c = false → isLowSurrogate c = false →
          (c < 65536)%N → wellFormed r = true → P r → P (c :: r)) →
  (∀ c d r, isHighSurrogate c = true → isLowSurrogate d = true →
            wellFormed r = true → P r → P (c :: d :: r)) →
  ∀ s, wellFormed s = true → P s.
Proof.
  intros Hnil Hone Hpair s.
  induction s as [s IH] using (induction_ltof1 _ (@length N)). unfold ltof in IH.
  destruct s as [|c r]; [done|]. cbn [wellFormed].
  destruct (isHighSurrogate c) eqn:Hc.
  - destruct r as [|d r']; [done|]. intros [Hd Hr]%andb_prop.
    apply Hpair; [done..|]. apply IH; [cbn; lia|done].
  - intros [[Hl Hlt%N.ltb_lt]%andb_prop Hr]%andb_prop.
    apply negb_true_iff in Hl.
    apply Hone; [done..|]. apply IH; [cbn; lia|done].
Qed.

Lemma codePoints_scalar (s : list N) :
  wellFormed s = true → Forall isScalarValue (codePoints s).
Proof.
  revert s. apply wellFormed_ind.
  - constructor.
  - intros c r Hh Hl Hc _ IH. cbn [codePoints]. rewrite Hh, Hl.
    constructor; [|done]. destruct (surrogate_cases c) as [[? _]|[(_ & ? & _)|(_ & _ & ?)]];
      [congruence..|]. split; lia.
  - intros c d r Hh Hl _ IH. cbn [codePoints]. rewrite Hh, Hl.
    constructor; [|done].
    destruct (surrogate_cases c) as [[_ ?]|[(? & _)|(? & _)]]; [|congruence..].
    destruct (surrogate_cases d) as [[_ ?]|[(_ & _ & ?)|(_ & ? & _)]]; [| |congruence].
    + unfold isLowSurrogate in Hl. apply andb_prop in Hl as [?%N.leb_le ?%N.leb_le]. lia.
    + split; lia.
Qed.

Lemma codeUnits_codePoints (s : list N) :
  wellFormed s = true → flat_map codeUnits (codePoints s) = s.
Proof.
  revert s. apply wellFormed_ind.
  - done.
  - intros c r Hh Hl Hc _ IH. cbn [codePoints]. rewrite Hh, Hl.
    cbn [flat_map]. rewrite IH. unfold codeUnits.
    by rewrite (proj2 (N.ltb_lt _ _)).
  - intros c d r Hh Hl _ IH. cbn [codePoints]. rewrite Hh, Hl.
    cbn [flat_map]. rewrite IH. unfold codeUnits.
    destruct (surrogate_cases c) as [[_ ?]|[(? & _)|(? & _)]]; [|congruence..].
    unfold isLowSurrogate in Hl. apply andb_prop in Hl as [?%N.leb_le ?%N.leb_le].
    destruct (N.ltb_spec (65536 + (c - 55296) * 1024 + (d - 56320)) 65536); [lia|].
    cbn [app]. f_equal; [divmod|]. f_equal. divmod.
Qed.

Lemma utf8Encode_bytes (s : list N) :
  wellFormed s = true → Forall (λ b, b < 256)%N (utf8Encode s).
Proof.
  intros Hs%codePoints_scalar. unfold utf8Encode.
  induction Hs as [|cp cps Hcp _ IH]; cbn [flat_map]; [constructor|].
  apply Forall_app. split; [by apply utf8EncodeCodePoint_bytes|done].
Qed.

Lemma utf8Decode_utf8Encode (s : list N) :
  wellFormed s = true → utf8Decode (utf8Encode s) = s.
Proof.
  intros Hs. unfold utf8Decode, utf8Encode.
  rewrite <- (app_nil_r (flat_map utf8EncodeCodePoint _)).
  rewrite utf8Decode_flat by by apply codePoints_scalar.
  cbn [utf8DecodeFrom utf8Init u_bytesNeeded N.eqb]. rewrite app_nil_r.
  by apply codeUnits_codePoints.
Qed.

Lemma textDecoderDecode_no_bom (s : list N) :
  wellFormed s = true → startsWith s [byteOrderMark] = false →
  textDecoderDecode (utf8Encode s) = utf8Decode (utf8Encode s).
Proof.
  intros Hs Hb. unfold textDecoderDecode.
  destruct (utf8Encode s) as [|b1 [|b2 [|b3 r]]] eqn:He; [done..|].
  case_bool_decide as Hbom; [|done]. exfalso. destruct Hbom as (-> & -> & ->).
  destruct s as [|c s']; [done|].
  assert (c ≠ byteOrderMark) as Hc.
  { intros ->. apply bool_decide_eq_false in Hb. apply Hb. by exists s'. }
  revert He. unfold utf8Encode. cbn [codePoints wellFormed] in *.
  destruct (surrogate_cases c) as [[Hh ?]|[(Hh & Hl & ?)|(Hh & Hl & ?)]];
    rewrite Hh in *; [|rewrite Hl in *; done|rewrite Hl in *].
  - destruct s' as [|d s'']; [done|]. apply andb_prop in Hs as [Hd _]. rewrite Hd.
    unfold isLowSurrogate in Hd. apply andb_prop in Hd as [?%N.leb_le ?%N.leb_le].
    cbn [flat_map]. unfold utf8EncodeCodePoint.
    repeat match goal with
    | |- context [(?x <? ?y)%N] => destruct (N.ltb_spec x y); try lia
    end. cbn [app]. intros [= ? _]. divmod.
  - apply andb_prop in Hs as [[_ Hlt%N.ltb_lt]%andb_prop _].
    cbn [flat_map]. unfold utf8EncodeCodePoint, byteOrderMark in *.
    repeat match goal with
    | |- context [(?x <? ?y)%N] => destruct (N.ltb_spec x y); try lia
    end; cbn [app]; intros He; injection He; intros; divmod.
Qed.

(** C9 (as stated, refuted): a string holding a lone surrogate does not
    survive the transport.  UTF-8 has no encoding for the code unit
    U+D800 on its own; both encoders write U+FFFD in its place, so the
    decoded string differs from the original on either platform path. *)
Lemma base64_round_trip_lone_surrogate :
  (encodeBase64 true [55296%N] ≫= decodeBase64 true) = Some [65533%N] ∧
  (encodeBase64 false [55296%N] ≫= decodeBase64 false) = Some [65533%N] ∧
  [65533%N] ≠ [55296%N].
Proof. repeat split; [by vm_compute..|discriminate]. Qed.

(** C9 (amended): for every well-formed string - one whose surrogate
    code units all come in pairs - encoding always succeeds and decoding
    the result gives the string back.  Where the platform has no [Buffer]
    the string must also not begin with the byte order mark, which
    [TextDecoder] removes. *)
Theorem base64_round_trip_well_formed (withBuffer : bool) (s : jsstring) :
  wellFormed s = true →
  (withBuffer = false → startsWith s [byteOrderMark] = false) →
  encodeBase64 withBuffer s ≫= decodeBase64 withBuffer = Some s.
Proof.
  intros Hs Hbom. pose proof (utf8Encode_bytes s Hs) as Hbytes.
  unfold encodeBase64, decodeBase64. destruct withBuffer; cbn [mbind option_bind].
  - by rewrite bufferFromBase64_encode, utf8Decode_utf8Encode.
  - unfold btoa.
    rewrite (proj2 (forallb_forall _ _)); cbn [mbind option_bind].
    + rewrite clean_pad_encode, atob_encode by done. cbn [mbind option_bind].
      by rewrite textDecoderDecode_no_bom, utf8Decode_utf8Encode by auto.
    + intros b Hb. apply N.ltb_lt. rewrite List.Forall_forall in Hbytes. auto.
Qed.

Lemma base64_round_trip_well_formed_witness :
  encodeBase64 false (js "# Note") ≫= decodeBase64 false = Some (js "# Note").
Proof.
  apply base64_round_trip_well_formed; [reflexivity | intros _; reflexivity].
Defined.

(** ** Remote client: retry and backoff *)

Section RemoteClient.
Context `{Platform}.

Lemma backoff_step (delay d : Q) (k : nat) :
  (d == Qred (delay * 1.5) * (3 # 2) ^ Z.of_nat k)%Q →
  (d == delay * (3 # 2) ^ Z.of_nat (S k))%Q.
Proof.
  intros ->. rewrite Qred_correct, Nat2Z.inj_succ, <- Z.add_1_l.
  rewrite Qpower_plus by done. change ((3 # 2) ^ 1)%Q with (3 # 2)%Q.
  rewrite <- Qmult_assoc. apply Qmult_comp; [reflexivity|].
  apply Qmult_comp; reflexivity.
Qed.

Lemma requestLoop_unfold (remaining : nat) (req : Request) (delay : Q)
    (pre : list Attempt) (w : World) :
  requestLoop (S remaining) req delay pre w =
  let '(out, e1) := requestUrl req (env w) in
  match classifyOutcome out with
  | inr json =>
      (Ok json, touched w e1 [EvCall req (pre ++ [mkAttempt out None]) (Ok json)])
  | inl error =>
      if negb (remaining =? 0) && isRetryableError error then
        requestLoop remaining req (Qred (delay * 1.5))
          (pre ++ [mkAttempt out (Some delay)])
          (mkWorld (syncState w) (settings w) (vault w) (setTimeout delay e1) (log w))
      else
        (Throw error,
         touched w e1 [EvCall req (pre ++ [mkAttempt out None]) (Throw error)])
  end.
Proof.
  cbn [requestLoop]. unfold mbind, M_bind, bind, envStep.
  destruct (requestUrl req (env w)) as [out e1].
  destruct (classifyOutcome out) as [error|json]; [|done].
  by destruct (negb (remaining =? 0) && isRetryableError error).
Qed.

Lemma requestLoop_spec (remaining : nat) (req : Request) (delay : Q)
    (pre : list Attempt) (w : World) :
  ∃ r front final e',
    requestLoop (S remaining) req delay pre w
      = (r, touched w e' [EvCall req (pre ++ front ++ [final]) r]) ∧
    retryTrace delay remaining front final r.
Proof.
  revert delay pre w.
  induction remaining as [|remaining IH]; intros delay pre w;
    rewrite requestLoop_unfold;
    destruct (requestUrl req (env w)) as [out e1] eqn:Hreq;
    destruct (classifyOutcome out) as [error|json] eqn:Hout.
  - exists (Throw error), [], (mkAttempt out None), e1.
    split; [done|]. split; [done|]. split; [by intros k a ?|].
    cbn. rewrite Hout. auto.
  - exists (Ok json), [], (mkAttempt out None), e1.
    split; [done|]. split; [done|]. split; [by intros k a ?|].
    cbn. by rewrite Hout.
  - cbn [negb Nat.eqb andb]. destruct (isRetryableError error) eqn:Hretry.
    + edestruct (IH (Qred (delay * 1.5)) (pre ++ [mkAttempt out (Some delay)]))
        as (r & front & final & e' & Hrun & Hlen & Hmid & Hfin & Hres).
      rewrite Hrun. exists r, (mkAttempt out (Some delay) :: front), final, e'.
      split; [unfold touched; cbn; by rewrite <- !app_assoc|].
      split; [cbn; lia|]. split; [|split; [done|]].
      * intros [|k] a Hk; cbn in Hk.
        -- injection Hk as <-. exists error, delay. cbn.
           repeat split; try done. by rewrite Qmult_1_r.
        -- destruct (Hmid k a Hk) as (err & d & ? & ? & ? & Hd).
           exists err, d. repeat split; try done. by apply backoff_step.
      * destruct (classifyOutcome (att_outcome final)); [|done].
        destruct Hres as [-> [?|?]]; (split; [done|]); [by left|right]. cbn. lia.
    + exists (Throw error), [], (mkAttempt out None), e1.
      split; [done|]. split; [cbn; lia|]. split; [by intros k a ?|].
      cbn. rewrite Hout. auto.
  - exists (Ok json), [], (mkAttempt out None), e1.
    split; [done|]. split; [cbn; lia|]. split; [by intros k a ?|].
    cbn. by rewrite Hout.
Qed.

Lemma makeGitHubRequest_effect (req : Request) (w : World) :
  ∃ r attempts e',
    makeGitHubRequest req w = (r, touched w e' [EvCall req attempts r]).
Proof.
  destruct (requestLoop_spec 2 req 1000 [] w) as (r & front & final & e' & Hrun & _).
  by exists r, (front ++ [final]), e'.
Qed.

Lemma encodeFilePathM_run (path : list N) (w : World) :
  encodeFilePathM path w
  = match encodeFilePath path with
    | Some encoded => (Ok encoded, w)
    | None => (Throw uriError, w)
    end.
Proof. unfold encodeFilePathM. by destruct (encodeFilePath path). Qed.

(** A call whose URL holds the encoded [path]: nothing is sent when the
    path cannot be encoded. *)
Lemma encodedRequest_effect (path : list N) (req : Request) (w : World) :
  ∃ r attempts e',
    (_ ← encodeFilePathM path; makeGitHubRequest req) w
    = match encodeFilePath path with
      | Some _ => (r, touched w e' [EvCall req attempts r])
      | None => (Throw uriError, w)
      end.
Proof.
  destruct (makeGitHubRequest_effect req w) as (r & attempts & e' & Hrun).
  exists r, attempts, e'.
  cbv beta iota delta [mbind M_bind bind]. rewrite encodeFilePathM_run.
  by destruct (encodeFilePath path).
Qed.



End RemoteClient.

(** ** Maps and sets *)

Section JsMapFacts.
Context {K V : Type} `{EqDecision K}.

Lemma mapGet_mapSet_eq (k : K) (v : V) (m : list (K * V)) :
  mapGet k (mapSet k v m) = Some v.
Proof.
  induction m as [|[k' v'] m IH]; cbn.
  - by rewrite decide_True.
  - destruct (decide (k' = k)); cbn; [by rewrite decide_True|].
    by rewrite decide_False.
Qed.

Lemma mapGet_mapSet_ne (k k0 : K) (v : V) (m : list (K * V)) :
  k ≠ k0 → mapGet k0 (mapSet k v m) = mapGet k0 m.
Proof.
  intros Hne. induction m as [|[k' v'] m IH]; cbn.
  - by rewrite decide_False.
  - destruct (decide (k' = k)) as [->|]; cbn.
    + by rewrite !decide_False.
    + by rewrite IH.
Qed.

Lemma mapGet_mapDelete_eq (k : K) (m : list (K * V)) :
  mapGet k (mapDelete k m) = None.
Proof.
  induction m as [|[k' v'] m IH]; cbn; [done|].
  destruct (decide (k' = k)); cbn; [done|]. by rewrite decide_False.
Qed.

Lemma mapGet_mapDelete_ne (k k0 : K) (m : list (K * V)) :
  k ≠ k0 → mapGet k0 (mapDelete k m) = mapGet k0 m.
Proof.
  intros Hne. induction m as [|[k' v'] m IH]; cbn; [done|].
  destruct (decide (k' = k)) as [->|]; cbn.
  - by rewrite decide_False.
  - by rewrite IH.
Qed.




End JsMapFacts.

Section JsSetFacts.
Context {K : Type} `{EqDecision K}.

Lemma elem_of_setAdd (q p : K) (s : list K) : q ∈ setAdd p s ↔ q = p ∨ q ∈ s.
Proof.
  unfold setAdd, setHas. case_bool_decide as Hin.
  - split; [by right|]. by intros [->|?].
  - rewrite elem_of_app, list_elem_of_singleton. tauto.
Qed.

Lemma elem_of_setDelete (q p : K) (s : list K) : q ∈ setDelete p s ↔ q ≠ p ∧ q ∈ s.
Proof. unfold setDelete. by rewrite list_elem_of_filter. Qed.

End JsSetFacts.


(** ** Push protocol *)

Section PushProtocol.
Context `{Platform}.






End PushProtocol.

(** ** Delete protocol *)

Section DeleteProtocol.
Context `{Platform}.
Variables (filePath remotePath branchName : jsstring) (maxRetries : nat).

#[local] Abbreviation DeleteRun := (DeleteRun filePath remotePath branchName maxRetries).
#[local] Abbreviation DeleteProtocol :=
  (DeleteProtocol filePath remotePath branchName maxRetries).
#[local] Abbreviation getCall := (getCall remotePath branchName).
#[local] Abbreviation deleteCall := (deleteCall filePath remotePath branchName).

Lemma deleteLoop_unfold (remaining i : nat) (w : World) :
  deleteLoop (S remaining) i maxRetries filePath remotePath w =
  (s ← getSettings;
   preCheck ← attempt (
     _ ← encodeFilePathM remotePath;
     makeGitHubRequest (GetContents remotePath (branch s)));
   match preCheck with
   | Throw error =>
       if hasStatus error 404 then recordDeleted filePath
       else if i <? maxRetries - 1 then
         _ ← sleep (1000 * (Z.of_nat i + 1));
         deleteLoop remaining (S i) maxRetries filePath remotePath
       else throw error
   | Ok existingFileResponse =>
       match currentShaOf existingFileResponse with
       | Some (c :: sha) =>
           deletion ← attempt (
             _ ← encodeFilePathM remotePath;
             makeGitHubRequest
               (DeleteContents remotePath (deleteMessage filePath) (c :: sha)
                               (branch s)));
           match deletion with
           | Ok _ => recordDeleted filePath
           | Throw error =>
               if hasStatus error 409 && (i <? maxRetries - 1) then
                 _ ← sleep (1000 * (Z.of_nat i + 1));
                 deleteLoop remaining (S i) maxRetries filePath remotePath
               else if hasStatus error 404 then recordDeleted filePath
               else throw error
           end
       | _ => recordDeleted filePath
       end
   end) w.
Proof. reflexivity. Qed.

Lemma deleteLoop_unencodable (remaining i : nat) (w : World) :
  encodeFilePath remotePath = None →
  i + remaining = maxRetries → 0 < remaining →
  ∃ e',
    deleteLoop remaining i maxRetries filePath remotePath w
    = (Throw uriError, touched w e' (backoffOf <$> seq i (remaining - 1))).
Proof.
  intros Henc. revert i w.
  induction remaining as [|remaining IH]; intros i w Hi Hpos; [lia|].
  rewrite deleteLoop_unfold.
  cbv beta iota delta [mbind M_bind bind getSettings attempt].
  rewrite encodeFilePathM_run, Henc.
  change (hasStatus uriError 404) with false. cbv beta iota.
  destruct (Nat.ltb_spec i (maxRetries - 1)) as [Hlt|Hge].
  - cbv beta iota delta [sleep mbind M_bind bind envStep emit].
    cbn [env syncState settings vault log].
    edestruct (IH (S i)) as (e' & ->); [lia|lia|].
    exists e'. unfold touched. cbn [env syncState settings vault log].
    destruct remaining as [|remaining']; [lia|].
    cbn [seq fmap list_fmap Nat.sub]. rewrite Nat.sub_0_r, <- app_assoc.
    reflexivity.
  - exists (env w). replace remaining with 0 by lia. cbn. unfold touched.
    rewrite app_nil_r. by destruct w.
Qed.

Lemma deleteLoop_encodable (remaining i : nat) (w : World) :
  is_Some (encodeFilePath remotePath) →
  branch (settings w) = branchName →
  i + remaining = maxRetries → 0 < remaining →
  ∃ r w' events,
    deleteLoop remaining i maxRetries filePath remotePath w = (r, w') ∧
    log w' = log w ++ events ∧
    settings w' = settings w ∧ vault w' = vault w ∧
    DeleteRun i events r ∧
    match r with
    | Ok _ =>
        syncState w' =
        upd_recentlyDeletedFromRemote (mapSet filePath (dateNow (env w')))
                                      (syncState w)
    | Throw _ => syncState w' = syncState w
    end.
Proof.
  intros [encoded Henc]. revert i w.
  induction remaining as [|remaining IH]; intros i w Hbranch Hi Hpos; [lia|].
  destruct (deleteLoop (S remaining) i maxRetries filePath remotePath w)
    as [r w'] eqn:Hrun.
  exists r, w'. rewrite deleteLoop_unfold in Hrun.
  cbv beta iota delta [mbind M_bind bind getSettings attempt] in Hrun.
  rewrite Hbranch in Hrun. rewrite encodeFilePathM_run, Henc in Hrun.
  destruct (makeGitHubRequest_effect (GetContents remotePath branchName) w)
    as (r1 & atts1 & e1 & Hrun1). rewrite Hrun1 in Hrun. clear Hrun1.
  destruct r1 as [json|error].
  - destruct (currentShaOf json) as [[|c sha]|] eqn:Hsha.
    + injection Hrun as <- <-. eexists. split; [reflexivity|]. cbn.
      repeat split; try done. apply DR_no_sha. by rewrite Hsha.
    + rewrite encodeFilePathM_run, Henc in Hrun.
      destruct (makeGitHubRequest_effect
                  (DeleteContents remotePath (deleteMessage filePath) (c :: sha)
                     branchName)
                  (touched w e1 [EvCall (GetContents remotePath branchName) atts1 (Ok json)]))
        as (r2 & atts2 & e2 & Hrun2). rewrite Hrun2 in Hrun. clear Hrun2.
      destruct r2 as [json2|error].
      * injection Hrun as <- <-. eexists. split; [reflexivity|]. cbn.
        rewrite <- app_assoc. repeat split; try done. by eapply DR_deleted.
      * destruct (hasStatus error 409) eqn:H409; cbn [andb] in Hrun.
        -- destruct (Nat.ltb_spec i (maxRetries - 1)) as [Hlt|Hge].
           ++ cbv beta iota delta [sleep mbind M_bind bind envStep emit] in Hrun.
              cbn [env touched syncState settings vault log] in Hrun.
              edestruct (IH (S i)) as (r0 & w0 & events & Hrun0 & Hlog & Hset & Hvault & Htrace & Hst);
                [| | |rewrite Hrun0 in Hrun]; [done|lia|lia|].
              injection Hrun as <- <-. eexists. split; [reflexivity|].
              rewrite Hlog, Hset, Hvault. cbn [log touched settings vault].
              rewrite <- !app_assoc. cbn [app].
              split; [reflexivity|]. repeat split; try done.
              eapply DR_delete_409_retry; [done..|lia|done].
           ++ assert (hasStatus error 404 = false) as H404.
              { unfold hasStatus in *. apply bool_decide_eq_true in H409.
                apply bool_decide_eq_false. by rewrite H409. }
              rewrite H404 in Hrun. injection Hrun as <- <-.
              eexists. split; [reflexivity|]. cbn.
              rewrite <- app_assoc. repeat split; try done.
              eapply DR_delete_fail; [done..|]. intros [_ ?]. lia.
        -- destruct (hasStatus error 404) eqn:H404.
           ++ injection Hrun as <- <-. eexists. split; [reflexivity|]. cbn.
              rewrite <- app_assoc. repeat split; try done. by eapply DR_delete_404.
           ++ injection Hrun as <- <-. eexists. split; [reflexivity|]. cbn.
              rewrite <- app_assoc. repeat split; try done.
              eapply DR_delete_fail; [done..|]. intros [? _]. congruence.
    + injection Hrun as <- <-. eexists. split; [reflexivity|]. cbn.
      repeat split; try done. apply DR_no_sha. by rewrite Hsha.
  - destruct (hasStatus error 404) eqn:H404.
    + injection Hrun as <- <-. eexists. split; [reflexivity|]. cbn.
      repeat split; try done. by apply DR_precheck_404.
    + destruct (Nat.ltb_spec i (maxRetries - 1)) as [Hlt|Hge].
      * cbv beta iota delta [sleep mbind M_bind bind envStep emit] in Hrun.
        cbn [env touched syncState settings vault log] in Hrun.
        edestruct (IH (S i)) as (r0 & w0 & events & Hrun0 & Hlog & Hset & Hvault & Htrace & Hst);
          [| | |rewrite Hrun0 in Hrun]; [done|lia|lia|].
        injection Hrun as <- <-. eexists. split; [reflexivity|].
        rewrite Hlog, Hset, Hvault. cbn [log touched settings vault].
        rewrite <- !app_assoc. cbn [app].
        split; [reflexivity|]. repeat split; try done.
        eapply DR_precheck_retry; [done|lia|done].
      * injection Hrun as <- <-. eexists. split; [reflexivity|]. cbn.
        repeat split; try done. apply DR_precheck_fail; [done|lia].
Qed.

Lemma deleteLoop_spec (remaining i : nat) (w : World) :
  branch (settings w) = branchName →
  i + remaining = maxRetries → 0 < remaining →
  ∃ r w' events,
    deleteLoop remaining i maxRetries filePath remotePath w = (r, w') ∧
    log w' = log w ++ events ∧
    settings w' = settings w ∧ vault w' = vault w ∧
    DeleteProtocol i events r ∧
    match r with
    | Ok _ =>
        syncState w' =
        upd_recentlyDeletedFromRemote (mapSet filePath (dateNow (env w')))
                                      (syncState w)
    | Throw _ => syncState w' = syncState w
    end.
Proof.
  intros Hbranch Hi Hpos. unfold DeleteProtocol.
  destruct (encodeFilePath remotePath) as [encoded|] eqn:Henc.
  - apply deleteLoop_encodable; [by rewrite Henc|done..].
  - destruct (deleteLoop_unencodable remaining i w Henc Hi Hpos) as (e' & ->).
    eexists _, _, _. split; [reflexivity|]. split; [reflexivity|].
    split; [done|]. split; [done|]. split; [|done].
    split; [|done]. do 2 f_equal. lia.
Qed.




End DeleteProtocol.

Section DeleteTheorem.
Context `{Platform}.


End DeleteTheorem.

(** ** The protocols on the example platform *)

Section ProtocolExamples.
#[local] Existing Instance demoPlatform.


(** A remote path that cannot be encoded - here with a lone surrogate -
    is never requested: the run waits twice and throws. *)
Lemma deleteFileFromGitHub_unencodable_path :
  let w := demoWorld "" [] [(js "x.md", js "B")] 1700000000000 in
  let run := deleteFileFromGitHub (js "a" ++ [55296%N] ++ js ".md") (js "sha") 3 w in
  fst run = Throw uriError ∧
  log (snd run) = [EvSleep 1000; EvSleep 2000] ∧
  syncState (snd run) = syncState w.
Proof. vm_compute. repeat split; reflexivity. Qed.


End ProtocolExamples.

(** ** Merge policy *)

Lemma mergeLoop_flag (localLines remoteLines mergedLines : list (list N)) (flag : bool) :
  snd (mergeLoop localLines remoteLines mergedLines flag) =
  flag || bool_decide (Exists (λ line, line ∉ localLines) remoteLines).
Proof.
  revert mergedLines flag.
  induction remoteLines as [|line rest IH]; intros mergedLines flag; cbn [mergeLoop].
  - rewrite bool_decide_eq_false_2; [by rewrite orb_false_r|]. by intros ?%Exists_nil.
  - destruct (decide (line ∈ localLines)) as [Hin|Hin].
    + rewrite bool_decide_eq_true_2 by done. rewrite IH.
      f_equal. apply bool_decide_ext. rewrite Exists_cons. tauto.
    + rewrite bool_decide_eq_false_2 by done. rewrite IH.
      rewrite orb_true_l. symmetry. rewrite orb_comm. cbn.
      rewrite bool_decide_eq_true_2; [by destruct flag|].
      by apply Exists_cons_hd.
Qed.

Lemma mergeContent_cases (localContent remoteContent : list N) :
  mergeContent localContent remoteContent =
  if bool_decide (Exists (λ line, line ∉ split nl localContent)
                         (split nl remoteContent))
  then conflictBlock localContent remoteContent
  else localContent.
Proof.
  unfold mergeContent.
  pose proof (mergeLoop_flag (split nl localContent) (split nl remoteContent)
                (split nl localContent) false) as Hflag.
  destruct (mergeLoop _ _ _ _) as [merged flag]. cbn in Hflag. by rewrite Hflag.
Qed.

Lemma mergeContent_subset (localContent remoteContent : list N) :
  (∀ line, line ∈ split nl remoteContent → line ∈ split nl localContent) →
  mergeContent localContent remoteContent = localContent.
Proof.
  intros Hsub. rewrite mergeContent_cases, bool_decide_eq_false_2; [done|].
  intros (line & Hin & Hnot)%list.Exists_exists. by apply Hnot, Hsub.
Qed.

(** C2: on local lines [a, b] and remote lines [a, c] the loop collects
    [a, b, c] - the local lines followed by the line only the remote
    content has - but the merge returns the markers around the whole
    local and the whole remote content, the shared line [a] included. *)
Lemma mergeContent_failing_input :
  let localContent := js "a" ++ [nl] ++ js "b" in
  let remoteContent := js "a" ++ [nl] ++ js "c" in
  mergeLoop (split nl localContent) (split nl remoteContent)
            (split nl localContent) false
  = ([js "a"; js "b"; js "c"], true) ∧
  mergeContent localContent remoteContent =
  js "<<<<<<< local version" ++ [nl] ++ js "a" ++ [nl] ++ js "b" ++ [nl] ++
  js "=======" ++ [nl] ++ js "a" ++ [nl] ++ js "c" ++ [nl] ++
  js ">>>>>>> remote version" ++ [nl].
Proof. vm_compute. split; reflexivity. Qed.

(** ** Tracking *)




Section Tracking.
Context `{Platform}.










End Tracking.

Section TrackingExamples.
#[local] Existing Instance demoPlatform.


End TrackingExamples.

(** ** Conflict detector *)

Section ConflictDetector.
Context `{Platform}.

Lemma keepsOthers_pendingAdd (path : list N) (w : World) (e' : Env) (events : list Event) :
  keepsOthers path w
    (mkWorld (upd_pendingFiles (setAdd path) (syncState w)) (settings w) (vault w)
             e' (log w ++ events)).
Proof.
  split; [done|]. split; [by eexists|]. intros q Hq. split; [done|].
  cbn -[setAdd]. rewrite elem_of_setAdd. tauto.
Qed.

Lemma keepsOthers_pendingDelete (path : list N) (w : World) (e' : Env) (events : list Event) :
  keepsOthers path w
    (mkWorld (upd_pendingFiles (setDelete path) (syncState w)) (settings w) (vault w)
             e' (log w ++ events)).
Proof.
  split; [done|]. split; [by eexists|]. intros q Hq. split; [done|].
  cbn -[setDelete]. rewrite elem_of_setDelete. tauto.
Qed.

Lemma keepsOthers_touched (path : list N) (w : World) (e' : Env) (events : list Event) :
  keepsOthers path w (touched w e' events).
Proof. split; [done|]. split; [by eexists|]. by intros q Hq. Qed.

Lemma keepsOthers_refl (path : list N) (w : World) : keepsOthers path w w.
Proof.
  split; [done|]. split; [exists []; by rewrite app_nil_r|]. by intros q Hq.
Qed.

Lemma detectLocalFile_frame (remoteFiles : list (list N * RemoteFileInfo))
    (conflicts : list (list N * Conflict)) (path : list N)
    (localFile : LocalFileState) (w w' : World)
    (r : Res (list (list N * Conflict))) :
  detectLocalFile remoteFiles conflicts path localFile w = (r, w') →
  keepsOthers path w w' ∧
  ∀ conflicts', r = Ok conflicts' →
    ∀ q, q ≠ path → mapGet q conflicts' = mapGet q conflicts.
Proof.
  unfold detectLocalFile.
  cbv beta iota delta [mbind M_bind bind getState getSettings].
  destruct (mapGet path remoteFiles) as [remote|].
  - destruct (mapGet path (fileMetadata (syncState w))) as [md|].
    + destruct (bool_decide (lf_checksum localFile ≠ remoteContentChecksum md));
        destruct (bool_decide (rf_sha remote ≠ githubBlobSha md)); cbn [andb negb].
      * rewrite encodeFilePathM_run.
        destruct (encodeFilePath (rf_path remote)) as [encoded|];
          [|intros [= <- <-]; split; [apply keepsOthers_refl|done]].
        destruct (makeGitHubRequest_effect
                    (GetContents (rf_path remote) (branch (settings w))) w)
          as (r1 & atts & e1 & ->).
        destruct r1 as [json|error]; [|intros [= <- <-]; split;
          [apply keepsOthers_touched|done]].
        unfold decodeContentOf, liftResult.
        destruct (decodedContent json) as [error|content];
          intros [= <- <-].
        -- split; [apply keepsOthers_touched|done].
        -- split; [apply (keepsOthers_pendingAdd path w)|].
           intros ? [= <-] q Hq. by apply mapGet_mapSet_ne.
      * intros [= <- <-]. split; [|by intros ? [= <-]].
        rewrite <- (app_nil_r (log w)). apply keepsOthers_pendingAdd.
      * intros [= <- <-]. split; [|by intros ? [= <-]].
        rewrite <- (app_nil_r (log w)). apply keepsOthers_pendingDelete.
      * intros [= <- <-]. split; [|by intros ? [= <-]].
        rewrite <- (app_nil_r (log w)). apply keepsOthers_pendingDelete.
    + cbv beta iota delta [attempt mbind M_bind bind].
      rewrite encodeFilePathM_run.
      destruct (encodeFilePath (rf_path remote)) as [encoded|].
      2:{ intros [= <- <-]. split; [|by intros ? [= <-]].
          cbn. apply keepsOthers_pendingAdd. }
      destruct (makeGitHubRequest_effect
                  (GetContents (rf_path remote) (branch (settings w))) w)
        as (r1 & atts & e1 & ->).
      destruct r1 as [json|error].
      * unfold decodeContentOf, liftResult.
        destruct (decodedContent json) as [error|content].
        -- intros [= <- <-]. split; [|by intros ? [= <-]].
           cbn. rewrite <- app_assoc. apply keepsOthers_pendingAdd.
        -- cbn -[setAdd setDelete mapSet mapGet].
           case_decide; intros [= <- <-]; (split; [|by intros ? [= <-]]).
           ++ split; [done|]. split; [by eexists|]. intros q Hq.
              cbn -[setAdd setDelete mapSet mapGet].
              rewrite mapGet_mapSet_ne by done. rewrite elem_of_setDelete. tauto.
           ++ split; [done|]. split; [by eexists|]. intros q Hq.
              cbn -[setAdd setDelete mapSet mapGet].
              rewrite mapGet_mapSet_ne by done. rewrite elem_of_setAdd. tauto.
      * intros [= <- <-]. split; [|by intros ? [= <-]].
        cbn. rewrite <- app_assoc. apply keepsOthers_pendingAdd.
  - destruct (negb (mapHas path (pendingDeletions (syncState w))) && _);
      intros [= <- <-]; (split; [|by intros ? [= <-]]).
    + rewrite <- (app_nil_r (log w)). apply keepsOthers_pendingAdd.
    + apply keepsOthers_refl.
Qed.








End ConflictDetector.

Section DetectorExamples.
#[local] Existing Instance demoPlatform.


(** With a remote path that cannot be encoded the same document makes
    the detector throw before anything is sent. *)
Lemma detectConflicts_unencodable_path :
  let w0 := demoWorld "" [(js "a.md", js "L")] [(js "a.md", js "R")] 1700000000000 in
  let md := demoMetadata "a.md" "old-sha" "old-checksum" in
  let w := mkWorld (upd_fileMetadata (mapSet (js "a.md") md) (syncState w0))
             (settings w0) (vault w0) (env w0) (log w0) in
  let localFile := demoLocalFile "a.md" "L" in
  let remote := mkRemoteFileInfo (js "a" ++ [55296%N] ++ js ".md")
                  (demoSha (js "R")) (js "file") in
  let run := detectConflicts [(js "a.md", localFile)] (Some [(js "a.md", remote)]) w in
  fst run = Throw uriError ∧
  log (snd run) = [] ∧
  pendingFiles (syncState (snd run)) = [].
Proof. vm_compute. repeat split; reflexivity. Qed.

End DetectorExamples.

(** ** Grace period of a push *)

Section GracePeriod.
Context `{Platform}.

Lemma processRemoteDirectory_syncState :
  ∀ depth items acc w r w',
    processRemoteDirectory depth items acc w = (r, w') →
    syncState w' = syncState w.
Proof.
  induction depth as [|depth IHd]; intros items;
    induction items as [|item rest IHi]; intros acc w r w'.
  - by intros [= <- <-].
  - cbn [processRemoteDirectory].
    cbv beta iota delta [mbind M_bind bind getSettings].
    destruct (_ && _); [apply IHi|].
    destruct (bool_decide _); apply IHi.
  - by intros [= <- <-].
  - cbn [processRemoteDirectory].
    cbv beta iota delta [mbind M_bind bind getSettings].
    destruct (_ && _); [apply IHi|].
    destruct (bool_decide _); [|apply IHi].
    unfold attempt at 1. rewrite encodeFilePathM_run.
    destruct (encodeFilePath (item_path item)) as [encoded|]; [|apply IHi].
    destruct (makeGitHubRequest_effect (GetContents (item_path item) (branch (settings w))) w)
      as (answer & attempts & e' & ->).
    destruct answer as [[subItems|o|]|error];
      try (intros Hrun; by apply IHi in Hrun).
    destruct (processRemoteDirectory depth subItems acc _) as [[acc2|error] w2] eqn:Hsub.
    + apply IHd in Hsub. intros Hrun. apply IHi in Hrun. by rewrite Hrun, Hsub.
    + apply IHd in Hsub. by intros [= <- <-].
Qed.

Lemma mapGet_expire (path : list N) (t period timestamp : Z)
    (cache : list (list N * Z)) :
  mapGet path cache = Some timestamp →
  ¬ (t - timestamp > period)%Z →
  mapGet path (expire t period cache) = Some timestamp.
Proof.
  intros Hget Hfresh. unfold expire.
  induction cache as [|[q ts] cache IH]; [done|].
  cbn in Hget. case_decide as Hq.
  - injection Hget as ->. subst q.
    rewrite filter_cons_True by done. cbn. by rewrite decide_True.
  - destruct (decide (¬ (t - ts > period)%Z)).
    + rewrite filter_cons_True by done. cbn. rewrite decide_False by done. auto.
    + rewrite filter_cons_False by done. auto.
Qed.

(** A normal return of [getRemoteFileStates]: the states are the pass
    over some listing, at the time the world shows, and the caches have
    been expired at that time. *)
Lemma getRemoteFileStates_augmented (w w' : World)
    (remoteFiles : list (list N * RemoteFileInfo)) :
  getRemoteFileStates w = (Ok (Some remoteFiles), w') →
  ∃ api,
    remoteFiles = augmentRemoteStates (syncState w) (dateNow (env w')) api ∧
    syncState w'
    = upd_recentlyDeletedFromRemote
        (expire (dateNow (env w')) RECENTLY_DELETED_GRACE_PERIOD_MS)
        (upd_recentlyPushedFiles
           (expire (dateNow (env w')) RECENTLY_PUSHED_GRACE_PERIOD_MS)
           (syncState w)).
Proof.
  unfold getRemoteFileStates, tryCatch.
  cbv beta iota delta [mbind M_bind bind getSettings].
  rewrite encodeFilePathM_run.
  destruct (encodeFilePath (stripSlashes (trim (syncPath (settings w)))))
    as [encoded|]; [|done].
  destruct (makeGitHubRequest_effect
              (GetContents (stripSlashes (trim (syncPath (settings w))))
                 (branch (settings w))) w)
    as (answer & attempts & e' & ->).
  set (w1 := touched w e' _).
  assert (syncState w1 = syncState w) as Hst1 by done.
  destruct answer as [[items|o|]|error]; [| | |done].
  - destruct (processRemoteDirectory treeDepth items [] w1) as [[api|error] w2] eqn:Hlist;
      [|done].
    apply processRemoteDirectory_syncState in Hlist. rewrite Hst1 in Hlist.
    cbv beta iota delta [mbind M_bind bind now getState modifyState mret M_ret ret].
    intros [= <- <-]. exists api. cbn. by rewrite Hlist.
  - destruct (_ && _);
      cbv beta iota delta [mbind M_bind bind now getState modifyState mret M_ret ret];
      intros [= <- <-]; by eexists.
  - done.
Qed.

Lemma augmentRemoteStates_recently_pushed (st : SyncState) (now : Z)
    (path : list N) (timestamp : Z) (md : FileMetadata)
    (api : list (list N * RemoteFileInfo)) :
  mapGet path (recentlyPushedFiles st) = Some timestamp →
  timestamp ≠ 0%Z →
  (now - timestamp < RECENTLY_PUSHED_GRACE_PERIOD_MS)%Z →
  mapGet path (fileMetadata st) = Some md →
  githubBlobSha md ≠ [] →
  ∀ info, mapGet path (augmentRemoteStates st now api) = Some info →
    rf_sha info = githubBlobSha md.
Proof.
  intros Hpushed Hts Hnow Hmd Hsha. unfold augmentRemoteStates.
  assert (∀ info, mapGet path ([] : list (list N * RemoteFileInfo)) = Some info →
                  rf_sha info = githubBlobSha md) as Hacc by done.
  revert Hacc. generalize ([] : list (list N * RemoteFileInfo)).
  induction api as [|[q fromApi] rest IH]; intros acc Hacc; cbn [fold_left]; [done|].
  apply IH. destruct (withinGrace (mapGet q (recentlyDeletedFromRemote st)) _ _); [done|].
  destruct (decide (q = path)) as [->|Hne].
  - rewrite Hmd, Hpushed. unfold withinGrace.
    replace (timestamp =? 0)%Z with false by (symmetry; by apply Z.eqb_neq).
    replace (now - timestamp <? RECENTLY_PUSHED_GRACE_PERIOD_MS)%Z with true
      by (symmetry; by apply Z.ltb_lt).
    replace (nonEmpty (githubBlobSha md)) with true
      by (by destruct (githubBlobSha md)).
    cbn [negb andb]. intros info. case_bool_decide as Hdiff.
    + rewrite mapGet_mapSet_eq. by intros [= <-].
    + rewrite mapGet_mapSet_eq. by intros [= <-].
  - intros info.
    destruct (mapGet q (fileMetadata st)) as [metadata|];
      [destruct (_ && _ && _)|]; rewrite mapGet_mapSet_ne by done; apply Hacc.
Qed.

(** The iteration of the detector for a path whose remote sha is the one
    in its metadata leaves the conflicts as they are. *)
Lemma detectLocalFile_same_sha remoteFiles conflicts path localFile md w r w' :
  mapGet path (fileMetadata (syncState w)) = Some md →
  (∀ info, mapGet path remoteFiles = Some info → rf_sha info = githubBlobSha md) →
  detectLocalFile remoteFiles conflicts path localFile w = (r, w') →
  r = Ok conflicts ∧
  mapGet path (fileMetadata (syncState w')) = Some md.
Proof.
  intros Hmd Hsha. unfold detectLocalFile.
  cbv beta iota delta [mbind M_bind bind getState getSettings].
  destruct (mapGet path remoteFiles) as [remote|].
  - rewrite Hmd. rewrite (Hsha remote eq_refl).
    rewrite (bool_decide_eq_false_2 (githubBlobSha md ≠ githubBlobSha md)) by auto.
    rewrite andb_false_r. cbn [negb].
    destruct (bool_decide _); cbn [andb]; by intros [= <- <-].
  - destruct (_ && _); by intros [= <- <-].
Qed.

Lemma detectLoop_same_sha remoteFiles path md :
  (∀ info, mapGet path remoteFiles = Some info → rf_sha info = githubBlobSha md) →
  ∀ localFiles conflicts0 w conflicts w',
    mapGet path (fileMetadata (syncState w)) = Some md →
    detectLoop remoteFiles localFiles conflicts0 w = (Ok conflicts, w') →
    mapGet path conflicts = mapGet path conflicts0.
Proof.
  intros Hsha.
  induction localFiles as [|[q localFile] rest IH]; intros conflicts0 w conflicts w' Hmd.
  - by intros [= <- <-].
  - cbn [detectLoop]. cbv beta iota delta [mbind M_bind bind].
    destruct (detectLocalFile remoteFiles conflicts0 q localFile w) as [r1 w1] eqn:Hstep.
    destruct (decide (q = path)) as [->|Hne].
    + apply (detectLocalFile_same_sha _ _ _ _ md) in Hstep as [-> Hmd1]; [|done|done].
      by apply IH.
    + apply detectLocalFile_frame in Hstep as [(_ & _ & Hothers) Hconf].
      destruct r1 as [conflicts1|error]; [|done].
      intros Hloop. apply IH in Hloop.
      * rewrite Hloop. by apply Hconf.
      * destruct (Hothers path) as [-> _]; done.
Qed.

Lemma deletesLocally_recently_pushed (st : SyncState) (now : Z)
    (currentRemoteFiles : list (list N * RemoteFileInfo)) (path : list N)
    (timestamp : Z) :
  mapGet path (recentlyPushedFiles st) = Some timestamp →
  (now - timestamp < RECENTLY_PUSHED_GRACE_PERIOD_MS)%Z →
  deletesLocally st now currentRemoteFiles path = false.
Proof.
  intros Hpushed Hnow. unfold deletesLocally, wasRecentlyPushed. rewrite Hpushed.
  replace (now - timestamp <? RECENTLY_PUSHED_GRACE_PERIOD_MS)%Z with true
    by (symmetry; by apply Z.ltb_lt).
  cbn [negb]. by rewrite andb_false_r.
Qed.

(** C6: while the push of [path] at [timestamp] is within the grace
    period, the remote states report [path] under the sha its metadata
    holds whatever sha the listing shows, the conflict detector records
    no conflict for it, and it is not selected for local deletion. *)
Theorem recently_pushed_grace_period (path : list N) (timestamp : Z)
    (md : FileMetadata) :
  timestamp ≠ 0%Z →
  githubBlobSha md ≠ [] →
  (∀ w w' remoteFiles,
     mapGet path (recentlyPushedFiles (syncState w)) = Some timestamp →
     mapGet path (fileMetadata (syncState w)) = Some md →
     getRemoteFileStates w = (Ok (Some remoteFiles), w') →
     (dateNow (env w') - timestamp < RECENTLY_PUSHED_GRACE_PERIOD_MS)%Z →
     (∀ info, mapGet path remoteFiles = Some info → rf_sha info = githubBlobSha md) ∧
     mapGet path (recentlyPushedFiles (syncState w')) = Some timestamp ∧
     mapGet path (fileMetadata (syncState w')) = Some md) ∧
  (∀ remoteFiles localFiles w conflicts w',
     (∀ info, mapGet path remoteFiles = Some info → rf_sha info = githubBlobSha md) →
     mapGet path (fileMetadata (syncState w)) = Some md →
     detectConflicts localFiles (Some remoteFiles) w = (Ok conflicts, w') →
     mapGet path conflicts = None) ∧
  (∀ st now currentRemoteFiles localFiles,
     mapGet path (recentlyPushedFiles st) = Some timestamp →
     (now - timestamp < RECENTLY_PUSHED_GRACE_PERIOD_MS)%Z →
     deletesLocally st now currentRemoteFiles path = false ∧
     ∀ file, file ∈ localDeletions st now currentRemoteFiles localFiles →
       ∃ q state, (q, state) ∈ localFiles ∧ q ≠ path ∧ lf_file state = file).
Proof.
  intros Hts Hsha. split; [|split].
  - intros w w' remoteFiles Hpushed Hmd Hrun Hnow.
    apply getRemoteFileStates_augmented in Hrun as (api & -> & ->).
    split; [by eapply augmentRemoteStates_recently_pushed|].
    split; [|done]. cbn. apply mapGet_expire; [done|]. unfold RECENTLY_PUSHED_GRACE_PERIOD_MS in *. lia.
  - intros remoteFiles localFiles w conflicts w' Hremote Hmd Hrun.
    by apply (detectLoop_same_sha remoteFiles path md Hremote) in Hrun.
  - intros st now currentRemoteFiles localFiles Hpushed Hnow.
    assert (deletesLocally st now currentRemoteFiles path = false) as Hkeep
      by by eapply deletesLocally_recently_pushed.
    split; [done|]. intros file. unfold localDeletions.
    intros ([q state] & Hin & Hsome)%list_elem_of_omap.
    exists q, state. split; [done|].
    destruct (deletesLocally st now currentRemoteFiles q) eqn:Hq; [|done].
    split; [congruence|]. congruence.
Qed.

End GracePeriod.

Section GraceExamples.
#[local] Existing Instance demoPlatform.

Lemma recently_pushed_grace_period_witness :
  let w0 := demoWorld "" [(js "a.md", js "NEW")] [(js "a.md", js "OLD")] 1700000000000 in
  let md := demoMetadata "a.md" "new-sha" "new-checksum" in
  let st := upd_recentlyPushedFiles (mapSet (js "a.md") 1699999999000%Z)
              (upd_fileMetadata (mapSet (js "a.md") md) (syncState w0)) in
  let w := mkWorld st (settings w0) (vault w0) (env w0) (log w0) in
  ∃ remoteFiles w',
    getRemoteFileStates w = (Ok (Some remoteFiles), w') ∧
    (∀ info, mapGet (js "a.md") remoteFiles = Some info → rf_sha info = js "new-sha") ∧
    (∀ localFiles conflicts w'',
       detectConflicts localFiles (Some remoteFiles) w' = (Ok conflicts, w'') →
       mapGet (js "a.md") conflicts = None) ∧
    deletesLocally (syncState w') (dateNow (env w')) remoteFiles (js "a.md") = false.
Proof.
  intros w0 md st w.
  destruct (recently_pushed_grace_period (js "a.md") 1699999999000 md)
    as (Hstates & Hdetect & Hdelete).
  - discriminate.
  - discriminate.
  - eassert (getRemoteFileStates w = (Ok (Some _), _)) as Hrun.
    { apply result_with_world. vm_compute. reflexivity. }
    destruct (Hstates w _ _ eq_refl eq_refl Hrun) as (Hsha & Hpushed & Hmd).
    { vm_compute. reflexivity. }
    eexists _, _. split; [exact Hrun|]. split; [exact Hsha|]. split.
    + intros localFiles conflicts w''. exact (Hdetect _ _ _ _ _ Hsha Hmd).
    + apply (Hdelete _ _ _ [] Hpushed). vm_compute. reflexivity.
Defined.

End GraceExamples.

(** ** Orchestrator: the in-flight guard *)

Section Guard.
Context `{Platform}.

Lemma bind_run {A B} (m : M A) (k : A → M B) (w : World) :
  (x ← m; k x) w
  = match m w with
    | (Ok a, w') => k a w'
    | (Throw e, w') => (Throw e, w')
    end.
Proof. reflexivity. Qed.

Lemma linkBasename_ok (specificFilePath : option (list N)) (w : World) :
  ∃ name, linkBasename specificFilePath w = (Ok name, w).
Proof. destruct specificFilePath; by eexists. Qed.

Lemma reportFailure_ok syncType specificFilePath error (w : World) :
  ∃ w', reportFailure syncType specificFilePath error w = (Ok tt, w').
Proof.
  unfold reportFailure. cbv beta iota delta [mbind M_bind bind].
  destruct (linkBasename_ok specificFilePath w) as [name ->].
  by eexists.
Qed.

Lemma validateSettings_spec (w : World) :
  validateSettings w
  = (Ok (settingsComplete (settings w)),
     if settingsComplete (settings w) then w
     else mkWorld (syncState w) (settings w) (vault w) (env w)
            (log w ++ [configureNotice])).
Proof.
  unfold validateSettings, settingsComplete.
  cbv beta iota delta [mbind M_bind bind getSettings].
  destruct (nonEmpty (githubToken (settings w)));
    destruct (nonEmpty (repoOwner (settings w)));
    destruct (nonEmpty (repoName (settings w))); reflexivity.
Qed.

Lemma finally_released (w : World) :
  (_ ← modifyState (set_inProgress false);
   _ ← savePluginData;
   updateOverallStatusBar) w = (Ok tt, released w).
Proof.
  unfold released, idleStatus, updateOverallStatusBar, savePluginData, updateStatusBar.
  cbv beta iota delta [mbind M_bind bind modifyState getState getSettings emit].
  cbn. destruct (realtimeSync (settings w)); [|destruct (autoSync (settings w))];
    cbn; by rewrite <- app_assoc.
Qed.

(** C5: the in-flight guard.  A run requested while [inProgress] is set
    is refused: it returns nothing and changes nothing but the notices
    shown.  A run that is admitted sets the flag, and whether its phases
    complete or one of them throws, it ends with the [finally] block:
    the flag is cleared, the plugin data is saved and the status bar
    updated; no exception leaves [syncWithGitHub]. *)
Theorem syncWithGitHub_guard (syncType : SyncType)
    (specificFilePath : option (list N)) (w : World) :
  ∃ r w',
    syncWithGitHub syncType specificFilePath w = (Ok r, w') ∧
    if inProgress (syncState w) then
      r = None ∧
      syncState w' = syncState w ∧ settings w' = settings w ∧
      vault w' = vault w ∧ env w' = env w ∧
      log w' = log w
               ++ (if settingsComplete (settings w) then [] else [configureNotice])
               ++ [inProgressNotice]
    else if settingsComplete (settings w) then
      ∃ w2,
        w' = released w2 ∧
        inProgress (syncState w') = false ∧
        match syncPhases syncType specificFilePath (acquired w) with
        | (Ok changesMade, w1) => r = Some changesMade ∧ w2 = w1
        | (Throw error, w1) =>
            r = None ∧
            reportFailure syncType specificFilePath error w1 = (Ok tt, w2)
        end
    else
      r = None ∧
      w' = mkWorld (syncState w) (settings w) (vault w) (env w)
             (log w ++ [configureNotice]).
Proof.
  unfold syncWithGitHub.
  rewrite bind_run, validateSettings_spec.
  rewrite bind_run. unfold getState at 1.
  destruct (settingsComplete (settings w)) eqn:Hvalid; cbn [negb orb].
  - destruct (inProgress (syncState w)) eqn:Hbusy.
    + eexists _, _. split; [reflexivity|]. repeat split; reflexivity.
    + rewrite bind_run. unfold modifyState at 1. fold (acquired w).
      unfold tryFinally.
      destruct (tryCatch _ _ (acquired w)) as [r0 w2] eqn:Hbody.
      rewrite finally_released.
      unfold tryCatch in Hbody. rewrite bind_run in Hbody.
      destruct (syncPhases syncType specificFilePath (acquired w))
        as [[changesMade|error] w1].
      * injection Hbody as <- <-.
        eexists _, _. split; [reflexivity|]. by exists w1.
      * rewrite bind_run in Hbody.
        destruct (reportFailure_ok syncType specificFilePath error w1) as [w3 Hreport].
        rewrite Hreport in Hbody. injection Hbody as <- <-.
        eexists _, _. split; [reflexivity|]. by exists w3.
  - cbn [syncState]. destruct (inProgress (syncState w)) eqn:Hbusy.
    + eexists _, _. split; [reflexivity|].
      repeat split; try reflexivity. cbn. by rewrite <- app_assoc.
    + eexists _, _. split; [reflexivity|]. split; reflexivity.
Qed.

End Guard.

(** ** Orchestrator: two runs in a row *)

Section OrchestratorExamples.
#[local] Existing Instance demoPlatform.

(** C7: with the sub-path [notes] and the remote file [notes/x.md], a
    first run pulls the file to [x.md]; a second run right after it, with
    the vault and the repository unchanged, pulls it again instead of
    doing nothing. *)
Theorem syncWithGitHub_second_run_pulls_again :
  let w0 := demoWorld "notes" [] [(js "notes/x.md", js "B")] 1700000000000 in
  let run1 := syncWithGitHub AutoSync None w0 in
  let run2 := syncWithGitHub AutoSync None (snd run1) in
  fst run1 = Ok (Some (mkChanges 0 1 0 0)) ∧
  fst run2 = Ok (Some (mkChanges 0 1 0 0)) ∧
  vault (snd run1) = [(js "x.md", mkVaultFile (js "B") 1700000000000)] ∧
  vault (snd run2) = vault (snd run1) ∧
  demo_files (env (snd run1)) = demo_files (env w0) ∧
  demo_files (env (snd run2)) = demo_files (env w0) ∧
  shouldSyncFile (js "notes") (tfileOf (js "x.md")) = false ∧
  getLocalPath (js "notes") (js "notes/x.md") = js "x.md".
Proof. vm_compute. repeat split; reflexivity. Qed.

(** With the root as sub-path the second run does nothing. *)
Lemma syncWithGitHub_second_run_idle_at_root :
  let w0 := demoWorld "" [(js "a.md", js "A")] [(js "b.md", js "B")] 1700000000000 in
  let run1 := syncWithGitHub ManualSync None w0 in
  let run2 := syncWithGitHub ManualSync None (snd run1) in
  fst run1 = Ok (Some (mkChanges 1 1 0 0)) ∧
  fst run2 = Ok (Some (mkChanges 0 0 0 0)).
Proof. vm_compute. split; reflexivity. Qed.

End OrchestratorExamples.

(* ================================================================== *)
(** * Further properties *)
(* ================================================================== *)

(** ** Path mapper *)

Lemma stripLeadingSlash_id (s : list N) :
  leadingSlash s = false → stripLeadingSlash s = s.
Proof.
  destruct s as [|c r]; [done|]. cbn. intros Hc%bool_decide_eq_false.
  by rewrite decide_False.
Qed.

Lemma leadingSlash_app (s t : list N) :
  s ≠ [] → leadingSlash (s ++ t) = leadingSlash s.
Proof. by destruct s. Qed.

(** X1: mapping a vault path to the repository and back gives the path
    again (without its leading slash), provided neither the normalised
    sub-path nor the normalised path starts with a second slash. *)
Theorem getLocalPath_getRemotePath (syncPath localPath : list N) :
  leadingSlash (stripSlashes syncPath) = false →
  leadingSlash (stripLeadingSlash localPath) = false →
  getLocalPath syncPath (getRemotePath syncPath localPath)
  = stripLeadingSlash localPath.
Proof.
  intros Hsp Hlp. unfold getLocalPath, getRemotePath.
  set (nsp := stripSlashes syncPath) in *.
  set (nlp := stripLeadingSlash localPath) in *.
  destruct (decide (nsp = [])) as [Hroot|Hsub].
  - by apply stripLeadingSlash_id.
  - destruct (decide (nlp = [])) as [Hempty|Hfile].
    + rewrite (stripLeadingSlash_id nsp Hsp). by rewrite decide_True.
    + rewrite stripLeadingSlash_id by (by rewrite leadingSlash_app).
      rewrite decide_False.
      2:{ intros Heq. apply (f_equal length) in Heq.
          rewrite !length_app in Heq. cbn in Heq. lia. }
      unfold startsWith. rewrite bool_decide_eq_true_2.
      2:{ exists nlp. by rewrite <- app_assoc. }
      rewrite (app_assoc nsp [slash] nlp). by rewrite drop_app_length.
Qed.

Lemma getLocalPath_getRemotePath_witness :
  getLocalPath (js "/notes/") (getRemotePath (js "/notes/") (js "daily/a.md"))
  = js "daily/a.md".
Proof.
  apply (getLocalPath_getRemotePath (js "/notes/") (js "daily/a.md"));
    vm_compute; reflexivity.
Defined.

(** X2: the other way round, for the repository path of a file below
    the sub-path (or any path when the sub-path is the root). *)
Theorem getRemotePath_getLocalPath (syncPath rest : list N) :
  leadingSlash (stripSlashes syncPath) = false →
  leadingSlash rest = false →
  rest ≠ [] →
  let remotePath :=
    if decide (stripSlashes syncPath = []) then rest
    else stripSlashes syncPath ++ [slash] ++ rest in
  getLocalPath syncPath remotePath = rest ∧
  getRemotePath syncPath (getLocalPath syncPath remotePath) = remotePath.
Proof.
  intros Hsp Hrest Hne. cbv zeta. unfold getLocalPath, getRemotePath.
  set (nsp := stripSlashes syncPath) in *.
  destruct (decide (nsp = [])) as [Hroot|Hsub].
  - rewrite !(stripLeadingSlash_id rest Hrest). done.
  - rewrite stripLeadingSlash_id by (by rewrite leadingSlash_app).
    rewrite decide_False.
    2:{ intros Heq. apply (f_equal length) in Heq.
        rewrite !length_app in Heq. cbn in Heq. lia. }
    unfold startsWith. rewrite bool_decide_eq_true_2.
    2:{ exists rest. by rewrite <- app_assoc. }
    rewrite (app_assoc nsp [slash] rest), drop_app_length.
    rewrite (stripLeadingSlash_id rest Hrest).
    rewrite decide_False by done. by rewrite <- app_assoc.
Qed.

Lemma getRemotePath_getLocalPath_witness :
  getLocalPath (js "notes") (js "notes/a.md") = js "a.md" ∧
  getRemotePath (js "notes") (getLocalPath (js "notes") (js "notes/a.md"))
  = js "notes/a.md".
Proof.
  apply (getRemotePath_getLocalPath (js "notes") (js "a.md"));
    vm_compute; (reflexivity || discriminate).
Defined.


(** ** Tracking predicates agree *)

(** The segments of a path: all but the last are followed by the
    separator, and the last holds no separator. *)
Lemma split_segments (sep : N) (s : list N) :
  ∃ segments final,
    (split sep s = segments ++ [final]) ∧
    (sep ∉ final) ∧
    (s = flat_map (λ segment, segment ++ [sep]) segments ++ final).
Proof.
  induction s as [|c s (segments & final & Hsplit & Hfinal & Hs)]; cbn.
  - exists [], []. split; [done|]. split; [apply not_elem_of_nil|done].
  - case_decide as Hc.
    + subst c. exists ([] :: segments), final. rewrite Hsplit.
      split; [done|]. split; [done|]. cbn. by rewrite Hs at 1.
    + rewrite Hsplit. destruct segments as [|segment segments]; cbn.
      * exists [], (c :: final). split; [done|].
        split; [by apply not_elem_of_cons|]. cbn in Hs. by rewrite Hs at 1.
      * exists ((c :: segment) :: segments), final. split; [done|].
        split; [done|]. cbn. cbn in Hs. by rewrite Hs at 1.
Qed.

Lemma baseName_suffix (path : list N) :
  ∃ dir, path = dir ++ baseName path ∧
         (dir = [] ∨ ∃ dir', dir = dir' ++ [slash]) ∧
         slash ∉ baseName path.
Proof.
  unfold baseName.
  destruct (split_segments slash path) as (segments & final & -> & Hfinal & Hpath).
  rewrite List.last_last.
  exists (flat_map (λ segment, segment ++ [slash]) segments).
  split; [done|]. split; [|done].
  destruct segments as [|segment segments _] using rev_ind; [by left|].
  right. rewrite flat_map_app. cbn. rewrite app_nil_r.
  eexists. by rewrite app_assoc.
Qed.

(** A suffix without slash of a path is a suffix of its last segment. *)
Lemma suffix_baseName (ext path : list N) :
  slash ∉ ext →
  ext `suffix_of` path ↔ ext `suffix_of` baseName path.
Proof.
  intros Hext. destruct (baseName_suffix path) as (dir & Hpath & Hdir & Hname).
  split.
  - intros [k Hk]. rewrite Hpath in Hk at 1.
    apply app_eq_inv in Hk as [(k' & Hdir' & Hext')|(k' & Hk' & Hname')].
    + destruct k' as [|c k'] using rev_ind; [by subst ext|].
      exfalso. destruct Hdir as [->|[dir' ->]].
      * by destruct k, k'.
      * rewrite app_assoc in Hdir'. apply app_inj_tail in Hdir' as [_ <-].
        apply Hext. rewrite Hext'. apply elem_of_app. left.
        apply elem_of_app. right. by apply list_elem_of_singleton.
    + by exists k'.
  - intros Hsuffix. rewrite Hpath at 1. by apply suffix_app_r.
Qed.

Lemma isMarkdownFile_baseName (path : list N) :
  isMarkdownFile (baseName path) = isMarkdownFile path.
Proof.
  unfold isMarkdownFile, endsWith. f_equal; apply bool_decide_ext; symmetry;
    apply suffix_baseName; vm_compute; intros Hin;
    repeat (apply elem_of_cons in Hin as [Hin|Hin]; [discriminate|]);
    by apply elem_of_nil in Hin.
Qed.

(** X3: the predicate on a path and the predicate on the file of that
    path agree. *)
Theorem shouldSyncPath_shouldSyncFile (syncPath path : list N) :
  shouldSyncPath syncPath path = shouldSyncFile syncPath (tfileOf path).
Proof.
  unfold shouldSyncPath, shouldSyncFile, tfileOf. cbn [file_path file_name].
  by rewrite isMarkdownFile_baseName.
Qed.


(** ** Fallback checksum *)

Lemma toInt32_range (z : Z) : (- 2 ^ 31 ≤ toInt32 z < 2 ^ 31)%Z.
Proof. unfold toInt32. pose proof (Z.mod_pos_bound (z + 2 ^ 31) (2 ^ 32)). lia. Qed.

Lemma toInt32_congruent (a b : Z) :
  (a mod 2 ^ 32 = b mod 2 ^ 32)%Z → toInt32 a = toInt32 b.
Proof.
  intros Hab. unfold toInt32. f_equal.
  rewrite <- (Zplus_mod_idemp_l a), <- (Zplus_mod_idemp_l b). by rewrite Hab.
Qed.

Lemma toInt32_mod (a : Z) : (toInt32 a mod 2 ^ 32 = a mod 2 ^ 32)%Z.
Proof.
  unfold toInt32.
  rewrite <- Zminus_mod_idemp_l, Z.mod_mod by lia.
  rewrite Zminus_mod_idemp_l. f_equal. lia.
Qed.

Lemma fallbackHash_step (hash poly : Z) (char : N) :
  hash = toInt32 poly →
  toInt32 (toInt32 (hash * 32) - hash + Z.of_N char)
  = toInt32 (31 * poly + Z.of_N char).
Proof.
  intros ->. apply toInt32_congruent.
  rewrite <- Zplus_mod_idemp_l, <- Zminus_mod_idemp_l, <- Zminus_mod_idemp_r.
  rewrite !toInt32_mod.
  rewrite <- (Zmult_mod_idemp_l (toInt32 poly)), toInt32_mod, Zmult_mod_idemp_l.
  rewrite Zminus_mod_idemp_l, Zminus_mod_idemp_r, Zplus_mod_idemp_l.
  f_equal. lia.
Qed.

Section Checksum.
Context `{Platform}.

(** X4: the fallback checksum is the 31-polynomial of the code units
    wrapped to a signed 32-bit integer.  So on a platform without
    [crypto.subtle], contents with the same polynomial modulo 2^32 -
    such as ["Aa"] and ["BB"] - get the same checksum from
    [calculateChecksum]. *)
Theorem fallbackHash_polynomial (content : list N) :
  fallbackHash content = toInt32 (polynomialHash content) ∧
  (- 2 ^ 31 ≤ fallbackHash content < 2 ^ 31)%Z ∧
  (∀ other,
     (polynomialHash other mod 2 ^ 32 = polynomialHash content mod 2 ^ 32)%Z →
     fallbackHash other = fallbackHash content ∧
     (subtleDigest = None → calculateChecksum other = calculateChecksum content)) ∧
  fallbackHash (js "Aa") = fallbackHash (js "BB").
Proof.
  assert (∀ s hash poly, hash = toInt32 poly →
            fold_left (λ hash char,
                         toInt32 (toInt32 (hash * 32) - hash + Z.of_N char)%Z) s hash
            = toInt32 (fold_left (λ hash char, 31 * hash + Z.of_N char)%Z s poly))
    as Hfold.
  { induction s as [|char s IH]; intros hash poly Hhash; cbn [fold_left]; [done|].
    apply IH. by apply fallbackHash_step. }
  assert (∀ s, fallbackHash s = toInt32 (polynomialHash s)) as Hpoly
    by (intros s; by apply Hfold).
  split; [apply Hpoly|]. split; [rewrite Hpoly; apply toInt32_range|].
  split; [|by vm_compute].
  intros other Hsame.
  assert (fallbackHash other = fallbackHash content) as Hhash
    by (rewrite !Hpoly; by apply toInt32_congruent).
  split; [done|]. intros Hsubtle. unfold calculateChecksum.
  by rewrite Hsubtle, Hhash.
Qed.

End Checksum.


(** ** Merge policy *)

Lemma split_nonempty (sep : N) (s : list N) : split sep s ≠ [].
Proof.
  induction s as [|c s IH]; cbn; [done|]. case_decide; [done|].
  by destruct (split sep s).
Qed.

Lemma split_app_sep (sep : N) (s t : list N) :
  split sep (s ++ sep :: t)
  = split sep s ++ split sep t.
Proof.
  induction s as [|c s IH]; cbn.
  - by rewrite decide_True.
  - case_decide; [by rewrite IH|]. rewrite IH.
    pose proof (split_nonempty sep s) as Hne. by destruct (split sep s).
Qed.

Lemma conflictBlock_lines (localContent remoteContent : list N) (line : list N) :
  line ∈ split nl remoteContent →
  line ∈ split nl (conflictBlock localContent remoteContent).
Proof.
  intros Hin. unfold conflictBlock.
  cbn [app]. rewrite !split_app_sep, !elem_of_app. tauto.
Qed.

(** X5: what [mergeContent] returns.  When every remote line occurs
    among the local lines it is the local content; otherwise it is the block holding the
    whole local and the whole remote content between the markers.
    Merging the result with the same remote content again changes
    nothing. *)
Theorem mergeContent_behaviour (localContent remoteContent : list N) :
  ((∀ line, line ∈ split nl remoteContent → line ∈ split nl localContent) →
   mergeContent localContent remoteContent = localContent) ∧
  (∀ line, line ∈ split nl remoteContent → line ∉ split nl localContent →
   mergeContent localContent remoteContent
   = conflictBlock localContent remoteContent) ∧
  mergeContent localContent localContent = localContent ∧
  mergeContent (mergeContent localContent remoteContent) remoteContent
  = mergeContent localContent remoteContent.
Proof.
  split; [apply mergeContent_subset|]. split.
  { intros line Hin Hnot. rewrite mergeContent_cases, bool_decide_eq_true_2; [done|].
    apply list.Exists_exists. by exists line. }
  split; [by apply mergeContent_subset|].
  rewrite (mergeContent_cases localContent remoteContent). case_bool_decide as Hnew.
  - apply mergeContent_subset. intros line. apply conflictBlock_lines.
  - apply mergeContent_subset. intros line Hin.
    destruct (decide (line ∈ split nl localContent)) as [|Hnot]; [done|].
    exfalso. apply Hnew. apply list.Exists_exists. by exists line.
Qed.


(** ** Base64 transport: shape of the encoding, line breaks *)

Lemma codePoints_scalar_any (s : list N) :
  isJsString s → Forall isScalarValue (codePoints s).
Proof.
  assert (isScalarValue 65533) as Hrepl by (unfold isScalarValue; lia).
  assert (∀ n s, length s < n → isJsString s → Forall isScalarValue (codePoints s))
    as Hall.
  { clear s. induction n as [|n IH]; intros s Hn Hs; [lia|].
    destruct s as [|c r]; [constructor|]. cbn [codePoints].
    apply list.Forall_cons in Hs as [Hc Hr]. cbn in Hn.
    destruct (surrogate_cases c) as [[-> Hhigh]|[(-> & -> & Hlow)|(-> & -> & Hnone)]].
    - destruct r as [|d r']; [by constructor|].
      apply list.Forall_cons in Hr as [Hd Hr'].
      destruct (isLowSurrogate d) eqn:Hlow.
      + constructor; [|apply IH; cbn in *; [lia|done]].
        unfold isLowSurrogate in Hlow.
        apply andb_prop in Hlow as [H1%N.leb_le H2%N.leb_le].
        unfold isScalarValue. lia.
      + constructor; [done|]. apply IH; cbn in *; [lia|]. by constructor.
    - constructor; [done|]. apply IH; [lia|done].
    - constructor; [unfold isScalarValue; lia|]. apply IH; [lia|done]. }
  intros Hs. apply (Hall (S (length s))); [lia|done].
Qed.

Lemma utf8Encode_bytes_any (s : list N) :
  isJsString s → Forall (λ b, b < 256)%N (utf8Encode s).
Proof.
  intros Hs%codePoints_scalar_any. unfold utf8Encode.
  induction Hs as [|cp cps Hcp _ IH]; cbn [flat_map]; [constructor|].
  apply list.Forall_app. split; [by apply utf8EncodeCodePoint_bytes|done].
Qed.

(** X6: [encodeBase64] does not fail on a JavaScript string, whatever
    the platform; the text it returns has a length that is a multiple of
    four - four characters for every three UTF-8 bytes, rounded up - and
    holds only characters of the base64 alphabet and the padding. *)
Theorem encodeBase64_shape (withBuffer : bool) (s : list N) :
  isJsString s →
  ∃ encoded,
    encodeBase64 withBuffer s = Some encoded ∧
    length encoded = 4 * ((length (utf8Encode s) + 2) / 3) ∧
    Forall (λ c, is_Some (b64Value c) ∨ c = padChar) encoded.
Proof.
  intros Hbytes%utf8Encode_bytes_any.
  exists (base64Encode (utf8Encode s)). split; [|split].
  - unfold encodeBase64, btoa. destruct withBuffer; [done|].
    rewrite (proj2 (forallb_forall _ _)); [done|].
    intros b Hb. apply N.ltb_lt. rewrite List.Forall_forall in Hbytes. auto.
  - unfold base64Encode. rewrite length_app, length_map, length_replicate.
    destruct (sextetsOf_length (utf8Encode s)) as [q Hq]. divmod.
  - eapply list.Forall_impl; [by apply encoded_chars|]. by intros c [Hc _].
Qed.

Lemma encodeBase64_shape_witness :
  ∃ encoded,
    encodeBase64 false (js "# Note") = Some encoded ∧
    length encoded = 4 * ((length (utf8Encode (js "# Note")) + 2) / 3) ∧
    Forall (λ c, is_Some (b64Value c) ∨ c = padChar) encoded.
Proof.
  apply (encodeBase64_shape false (js "# Note")).
  unfold isJsString. vm_compute. repeat constructor.
Defined.

Lemma bufferFromBase64_skip (wire : list N) :
  bufferFromBase64 (filter (λ c, ¬ isSkipped c) wire) = bufferFromBase64 wire.
Proof.
  unfold bufferFromBase64. f_equal.
  induction wire as [|c wire IH]; [done|].
  destruct (decide (isSkipped c)) as [Hskip|Hkeep].
  - rewrite filter_cons_False by auto. rewrite IH.
    destruct Hskip as (Hvalue & Hpad & H45 & H95). cbn [untilPad].
    rewrite decide_False by done. cbn [omap list_omap].
    unfold bufferValue at 2. rewrite !decide_False by done. by rewrite Hvalue.
  - rewrite filter_cons_True by done. cbn [untilPad].
    case_decide; [done|]. cbn [omap list_omap]. by rewrite IH.
Qed.

Lemma cleanBase64_skip (wire : list N) :
  cleanBase64 (filter (λ c, ¬ isSkipped c) wire) = cleanBase64 wire.
Proof.
  unfold cleanBase64. induction wire as [|c wire IH]; [done|].
  destruct (decide (isSkipped c)) as [Hskip|Hkeep].
  - rewrite filter_cons_False by auto. rewrite IH.
    destruct Hskip as (Hvalue & Hpad & _).
    rewrite (filter_cons_False _ c); [done|].
    intros [Hsome|Heq]; [|done]. rewrite Hvalue in Hsome. by destruct Hsome.
  - rewrite filter_cons_True by done.
    destruct (decide (is_Some (b64Value c) ∨ c = padChar)).
    + rewrite !filter_cons_True by done. by rewrite IH.
    + rewrite !filter_cons_False by done. done.
Qed.

(** X7: [decodeBase64] skips every character that is neither in the
    alphabet nor the padding (nor, for [Buffer], one of [-] and [_]); so
    the encoding of a well-formed string decodes to that string however
    line breaks are laid into it, as the contents API lays them. *)
Theorem decodeBase64_line_breaks (withBuffer : bool) (s wire encoded : list N) :
  wellFormed s = true →
  (withBuffer = false → startsWith s [byteOrderMark] = false) →
  encodeBase64 withBuffer s = Some encoded →
  filter (λ c, c ≠ nl) wire = encoded →
  decodeBase64 withBuffer (filter (λ c, ¬ isSkipped c) wire)
  = decodeBase64 withBuffer wire ∧
  decodeBase64 withBuffer wire = Some s.
Proof.
  intros Hs Hbom Hencoded Hwire.
  assert (decodeBase64 withBuffer (filter (λ c, ¬ isSkipped c) wire)
          = decodeBase64 withBuffer wire) as Hskip.
  { unfold decodeBase64. destruct withBuffer.
    - by rewrite bufferFromBase64_skip.
    - by rewrite cleanBase64_skip. }
  split; [done|]. rewrite <- Hskip.
  pose proof (utf8Encode_bytes s Hs) as Hbytes.
  assert (encoded = base64Encode (utf8Encode s)) as Henc.
  { unfold encodeBase64, btoa in Hencoded. destruct withBuffer; [congruence|].
    destruct (forallb _ _); congruence. }
  assert (filter (λ c, ¬ isSkipped c) wire = encoded) as ->.
  { rewrite <- Hwire. pose proof (encoded_chars _ Hbytes) as Hchars.
    rewrite <- Henc, <- Hwire in Hchars. clear -Hchars.
    induction wire as [|c wire IH]; [done|].
    destruct (decide (c = nl)) as [->|Hc].
    - rewrite filter_cons_False by (intros Hk; apply Hk; by vm_compute).
      rewrite (filter_cons_False _ nl) by auto.
      rewrite (filter_cons_False _ nl) in Hchars by auto. auto.
    - rewrite (filter_cons_True (λ c, c ≠ nl)) in Hchars |- * by done.
      apply list.Forall_cons in Hchars as [[Hc' _] Hrest].
      rewrite filter_cons_True.
      + by rewrite IH.
      + intros (Hvalue & Hpad & _). destruct Hc' as [Hsome|Heq]; [|done].
        rewrite Hvalue in Hsome. by destruct Hsome. }
  rewrite Henc. unfold decodeBase64. destruct withBuffer.
  - by rewrite bufferFromBase64_encode, utf8Decode_utf8Encode.
  - rewrite clean_pad_encode, atob_encode by done. cbn [mbind option_bind].
    by rewrite textDecoderDecode_no_bom, utf8Decode_utf8Encode by auto.
Qed.

Lemma decodeBase64_line_breaks_witness :
  decodeBase64 true (filter (λ c, ¬ isSkipped c) (js "IyBO" ++ [nl] ++ js "b3Rl" ++ [nl]))
  = decodeBase64 true (js "IyBO" ++ [nl] ++ js "b3Rl" ++ [nl]) ∧
  decodeBase64 true (js "IyBO" ++ [nl] ++ js "b3Rl" ++ [nl]) = Some (js "# Note").
Proof.
  apply (decodeBase64_line_breaks true (js "# Note")
           (js "IyBO" ++ [nl] ++ js "b3Rl" ++ [nl]) (js "IyBOb3Rl")).
  - reflexivity.
  - intros _. reflexivity.
  - vm_compute. reflexivity.
  - vm_compute. reflexivity.
Defined.


(** ** Paths in URLs *)

(** *** Steps of [encodeFilePath] *)

Lemma split_cons_ne (sep c : N) (r : list N) :
  c ≠ sep →
  ∃ l ls, split sep r = l :: ls ∧ split sep (c :: r) = (c :: l) :: ls.
Proof.
  intros Hc. cbn. rewrite decide_False by done.
  pose proof (split_nonempty sep r) as Hne.
  destruct (split sep r) as [|l ls]; [done|]. by exists l, ls.
Qed.

Lemma encodeFilePath_slash (r : list N) :
  encodeFilePath (slash :: r) = cons slash <$> encodeFilePath r.
Proof.
  unfold encodeFilePath. cbn [split]. rewrite decide_True by done.
  pose proof (split_nonempty slash r) as Hne.
  destruct (split slash r) as [|l ls]; [done|].
  cbn. destruct (encodeURIComponent l); [|done]. cbn.
  by destruct (mapM encodeURIComponent ls).
Qed.

Lemma encodeFilePath_prefix (c : N) (r pre : list N) :
  c ≠ slash →
  (∀ l, encodeURIComponent (c :: l) = app pre <$> encodeURIComponent l) →
  encodeFilePath (c :: r) = app pre <$> encodeFilePath r.
Proof.
  intros Hc Henc. unfold encodeFilePath.
  destruct (split_cons_ne slash c r Hc) as (l & ls & -> & ->).
  cbn [mapM]. rewrite Henc.
  destruct (encodeURIComponent l) as [y|]; [|done]. cbn.
  destruct (mapM encodeURIComponent ls) as [ys|]; [|done]. cbn.
  by rewrite app_assoc.
Qed.

Lemma encodeFilePath_pair (c d : N) (r pre : list N) :
  c ≠ slash → d ≠ slash →
  (∀ l, encodeURIComponent (c :: d :: l) = app pre <$> encodeURIComponent l) →
  encodeFilePath (c :: d :: r) = app pre <$> encodeFilePath r.
Proof.
  intros Hc Hd Henc. unfold encodeFilePath.
  destruct (split_cons_ne slash d r Hd) as (l & ls & -> & Hsplit).
  destruct (split_cons_ne slash c (d :: r) Hc) as (l' & ls' & Hl' & ->).
  rewrite Hsplit in Hl'. injection Hl' as <- <-.
  cbn [mapM]. rewrite Henc.
  destruct (encodeURIComponent l) as [y|]; [|done]. cbn.
  destruct (mapM encodeURIComponent ls) as [ys|]; [|done]. cbn.
  by rewrite app_assoc.
Qed.

Lemma encodeFilePath_fail (c : N) (r : list N) :
  c ≠ slash →
  (∀ l, l `prefix_of` r → encodeURIComponent (c :: l) = None) →
  encodeFilePath (c :: r) = None.
Proof.
  intros Hc Henc. unfold encodeFilePath.
  destruct (split_segments slash r) as (segments & final & Hsplit & _ & Hr).
  destruct (split_cons_ne slash c r Hc) as (l & ls & Hl & ->).
  cbn [mapM]. rewrite Henc; [done|].
  rewrite Hl in Hsplit. destruct segments as [|segment segments].
  - injection Hsplit as -> ->. by rewrite Hr.
  - injection Hsplit as -> ->. rewrite Hr. cbn. rewrite <- !app_assoc.
    by apply prefix_app_r.
Qed.

(** *** Correctness *)

Lemma hexDigit_facts (d : N) :
  (d < 16)%N →
  hexValue (hexDigit d) = d ∧ isUriUnreserved (hexDigit d) = true.
Proof.
  intros Hd.
  assert (d ∈ (N.of_nat <$> seq 0 16)) as Hin.
  { apply list_elem_of_fmap. exists (N.to_nat d). split; [lia|].
    apply elem_of_seq. lia. }
  vm_compute in Hin.
  repeat (apply elem_of_cons in Hin as [->|Hin]; [by vm_compute|]).
  by apply elem_of_nil in Hin.
Qed.

Lemma percentDecode_encoded (bytes rest : list N) :
  Forall (λ b, b < 256)%N bytes →
  percentDecode (flat_map percentEncoded bytes ++ rest)
  = bytes ++ percentDecode rest.
Proof.
  induction 1 as [|b bytes Hb _ IH]; [done|].
  cbn [flat_map percentEncoded app percentDecode].
  rewrite decide_True by done. rewrite IH. f_equal.
  destruct (hexDigit_facts (b / 16)) as [-> _]; [divmod|].
  destruct (hexDigit_facts (b mod 16)) as [-> _]; [divmod|].
  divmod.
Qed.

Lemma percentDecode_plain (c : N) (rest : list N) :
  c ≠ 37%N → percentDecode (c :: rest) = c :: percentDecode rest.
Proof.
  intros Hc. cbn [percentDecode]. destruct rest as [|h [|l r']]; try done.
  by rewrite decide_False.
Qed.

Lemma urlSafe_encoded (bytes : list N) :
  Forall (λ b, b < 256)%N bytes →
  Forall (λ c, isUrlSafe c = true) (flat_map percentEncoded bytes).
Proof.
  induction 1 as [|b bytes Hb _ IH]; [constructor|].
  cbn [flat_map percentEncoded app]. unfold isUrlSafe.
  constructor; [done|].
  constructor; [destruct (hexDigit_facts (b / 16)) as [_ ->]; [divmod|done]|].
  constructor; [destruct (hexDigit_facts (b mod 16)) as [_ ->]; [divmod|done]|].
  done.
Qed.

Lemma unreserved_ascii (c : N) :
  isUriUnreserved c = true →
  (c < 128)%N ∧ c ≠ 37%N ∧ c ≠ slash ∧
  isHighSurrogate c = false ∧ isLowSurrogate c = false.
Proof.
  unfold isUriUnreserved, isHighSurrogate, isLowSurrogate, slash.
  intros [[[H1|H1]%orb_prop|H1]%orb_prop|H1%bool_decide_eq_true]%orb_prop.
  - apply andb_prop in H1 as [?%N.leb_le ?%N.leb_le].
    repeat split; try lia; apply andb_false_iff; left; apply N.leb_gt; lia.
  - apply andb_prop in H1 as [?%N.leb_le ?%N.leb_le].
    repeat split; try lia; apply andb_false_iff; left; apply N.leb_gt; lia.
  - apply andb_prop in H1 as [?%N.leb_le ?%N.leb_le].
    repeat split; try lia; apply andb_false_iff; left; apply N.leb_gt; lia.
  - repeat (apply elem_of_cons in H1 as [->|H1]; [by vm_compute|]).
    by apply elem_of_nil in H1.
Qed.

Lemma encodeFilePath_spec (n : nat) :
  ∀ path, length path < n → isJsString path →
    if wellFormed path then
      ∃ url, encodeFilePath path = Some url ∧
             percentDecode url = utf8Encode path ∧
             Forall (λ c, isUrlSafe c = true) url
    else encodeFilePath path = None.
Proof.
  induction n as [|n IH]; intros path Hn Hjs; [lia|].
  destruct path as [|c r]; [by exists []|].
  apply list.Forall_cons in Hjs as [Hc Hr]. cbn [length] in Hn.
  destruct (decide (c = slash)) as [->|Hslash].
  { rewrite encodeFilePath_slash. specialize (IH r ltac:(lia) Hr).
    cbn [wellFormed]. change (isHighSurrogate slash) with false.
    change (isLowSurrogate slash) with false. cbn [negb andb].
    change (slash <? 65536)%N with true. cbn [andb].
    destruct (wellFormed r).
    - destruct IH as (url & -> & Hdecode & Hsafe). exists (slash :: url).
      split; [done|]. split; [|by constructor].
      rewrite percentDecode_plain by done. by rewrite Hdecode.
    - by rewrite IH. }
  destruct (isUriUnreserved c) eqn:Hunres.
  { destruct (unreserved_ascii c Hunres) as (Hascii & H37 & _ & Hhigh & Hlow).
    rewrite (encodeFilePath_prefix c r [c]) by
      (try done; intros l; cbn [encodeURIComponent]; rewrite Hunres;
       by destruct (encodeURIComponent l)).
    specialize (IH r ltac:(lia) Hr).
    cbn [wellFormed]. rewrite Hhigh, Hlow. cbn [negb andb].
    replace (c <? 65536)%N with true by (symmetry; apply N.ltb_lt; lia). cbn [andb].
    destruct (wellFormed r).
    - destruct IH as (url & -> & Hdecode & Hsafe). exists (c :: url).
      split; [done|]. split.
      + cbn [app]. rewrite percentDecode_plain by done. rewrite Hdecode.
        unfold utf8Encode. cbn [codePoints]. rewrite Hhigh, Hlow. cbn [flat_map].
        unfold utf8EncodeCodePoint.
        by replace (c <? 128)%N with true by (symmetry; apply N.ltb_lt; lia).
      + constructor; [|done]. unfold isUrlSafe. by rewrite Hunres.
    - by rewrite IH. }
  destruct (surrogate_cases c) as [[Hhigh Hrange]|[(Hhigh & Hlow & Hrange)|(Hhigh & Hlow & Hnone)]].
  - (* a high surrogate *)
    destruct r as [|d r'].
    { cbn [wellFormed]. rewrite Hhigh.
      apply encodeFilePath_fail; [done|]. intros l Hl.
      apply prefix_nil_inv in Hl as ->. cbn. by rewrite Hunres, Hhigh. }
    apply list.Forall_cons in Hr as [Hd Hr']. cbn [length] in Hn.
    cbn [wellFormed]. rewrite Hhigh.
    destruct (isLowSurrogate d) eqn:Hdlow; cbn [andb].
    + assert (d ≠ slash) as Hdslash by (intros ->; done).
      set (cp := (65536 + (c - 55296) * 1024 + (d - 56320))%N).
      assert (isScalarValue cp) as Hscalar.
      { unfold isLowSurrogate in Hdlow.
        apply andb_prop in Hdlow as [?%N.leb_le ?%N.leb_le].
        unfold isScalarValue, cp. lia. }
      rewrite (encodeFilePath_pair c d r'
                 (flat_map percentEncoded (utf8EncodeCodePoint cp))) by
        (try done; intros l; cbn [encodeURIComponent];
         by rewrite Hunres, Hhigh, Hdlow).
      specialize (IH r' ltac:(lia) Hr').
      destruct (wellFormed r').
      * destruct IH as (url & -> & Hdecode & Hsafe). eexists. split; [done|]. split.
        -- rewrite percentDecode_encoded by (by apply utf8EncodeCodePoint_bytes).
           rewrite Hdecode. unfold utf8Encode. cbn [codePoints].
           by rewrite Hhigh, Hdlow.
        -- apply list.Forall_app. split; [|done].
           by apply urlSafe_encoded, utf8EncodeCodePoint_bytes.
      * by rewrite IH.
    + apply encodeFilePath_fail; [done|]. intros l Hl.
      cbn [encodeURIComponent]. rewrite Hunres, Hhigh.
      destruct l as [|d' l']; [done|].
      apply prefix_cons_inv_1 in Hl as ->. by rewrite Hdlow.
  - (* a low surrogate *)
    cbn [wellFormed]. rewrite Hhigh, Hlow. cbn [negb andb].
    apply encodeFilePath_fail; [done|]. intros l _.
    cbn [encodeURIComponent]. by rewrite Hunres, Hhigh, Hlow.
  - (* any other character *)
    assert (isScalarValue c) as Hscalar by (unfold isScalarValue; lia).
    rewrite (encodeFilePath_prefix c r
               (flat_map percentEncoded (utf8EncodeCodePoint c))) by
      (try done; intros l; cbn [encodeURIComponent];
       by rewrite Hunres, Hhigh, Hlow).
    specialize (IH r ltac:(lia) Hr).
    cbn [wellFormed]. rewrite Hhigh, Hlow. cbn [negb andb].
    replace (c <? 65536)%N with true by (symmetry; by apply N.ltb_lt). cbn [andb].
    destruct (wellFormed r).
    + destruct IH as (url & -> & Hdecode & Hsafe). eexists. split; [done|]. split.
      * rewrite percentDecode_encoded by (by apply utf8EncodeCodePoint_bytes).
        rewrite Hdecode. unfold utf8Encode. cbn [codePoints].
        by rewrite Hhigh, Hlow.
      * apply list.Forall_app. split; [|done].
        by apply urlSafe_encoded, utf8EncodeCodePoint_bytes.
    + by rewrite IH.
Qed.

(** X8: [encodeFilePath] on a JavaScript string.  It throws exactly
    when the path holds a surrogate without its partner; otherwise the
    result holds only unreserved characters, [%] and [/], it stands for
    the UTF-8 bytes of the path, and two different paths never give the
    same result. *)
Theorem encodeFilePath_faithful (path : list N) :
  isJsString path →
  (is_Some (encodeFilePath path) ↔ wellFormed path = true) ∧
  (∀ url, encodeFilePath path = Some url →
     Forall (λ c, isUrlSafe c = true) url ∧
     percentDecode url = utf8Encode path ∧
     ∀ other, isJsString other → encodeFilePath other = Some url → other = path).
Proof.
  intros Hjs.
  pose proof (encodeFilePath_spec (S (length path)) path ltac:(lia) Hjs) as Hspec.
  split.
  - destruct (wellFormed path).
    + destruct Hspec as (url & -> & _). split; [done|eauto].
    + rewrite Hspec. split; [by intros [? ?]|done].
  - intros url Hurl. destruct (wellFormed path) eqn:Hwf; [|congruence].
    destruct Hspec as (url' & Hurl' & Hdecode & Hsafe).
    assert (url' = url) as -> by congruence.
    split; [done|]. split; [done|].
    intros other Hother Hsame.
    pose proof (encodeFilePath_spec (S (length other)) other ltac:(lia) Hother) as Hspec'.
    destruct (wellFormed other) eqn:Hwf'; [|congruence].
    destruct Hspec' as (url' & Hurl'' & Hdecode' & _).
    assert (url' = url) as -> by congruence.
    rewrite <- (utf8Decode_utf8Encode other Hwf'), <- (utf8Decode_utf8Encode path Hwf).
    congruence.
Qed.

Lemma encodeFilePath_faithful_witness :
  (is_Some (encodeFilePath (js "notes/a b.md"))
   ↔ wellFormed (js "notes/a b.md") = true) ∧
  (∀ url, encodeFilePath (js "notes/a b.md") = Some url →
     Forall (λ c, isUrlSafe c = true) url ∧
     percentDecode url = utf8Encode (js "notes/a b.md") ∧
     ∀ other, isJsString other → encodeFilePath other = Some url →
              other = js "notes/a b.md").
Proof.
  apply (encodeFilePath_faithful (js "notes/a b.md")).
  unfold isJsString. vm_compute. repeat constructor.
Defined.


(** ** Pull *)

Section PullProtocol.
Context `{Platform}.

Lemma not_elem_of_setDelete (path : list N) (s : list (list N)) :
  path ∉ setDelete path s.
Proof. rewrite elem_of_setDelete. tauto. Qed.


End PullProtocol.

(** ** Conflict resolver *)

Section ResolutionEffect.
Context `{Platform}.

Lemma elem_of_setAdd_same (path : list N) (s : list (list N)) : path ∈ setAdd path s.
Proof. apply elem_of_setAdd. by left. Qed.

(** X10: [applyConflictResolution] on a file of the vault never throws.
    Keeping the local version only marks the path for push; keeping the
    remote version writes the remote content, gives existing metadata
    the remote sha and the checksum of that content, and removes the
    path from the pending set; merging writes [mergeContent] of the two
    contents and marks the path for push. *)
Theorem applyConflictResolution_effect (path : list N) (conflict : Conflict)
    (resolution : Resolution) (w : World) :
  mapHas path (vault w) = true →
  ∃ w',
    applyConflictResolution path conflict resolution w = (Ok tt, w') ∧
    settings w' = settings w ∧
    (∀ other, other ≠ path →
       mapGet other (vault w') = mapGet other (vault w) ∧
       mapGet other (fileMetadata (syncState w'))
       = mapGet other (fileMetadata (syncState w))) ∧
    match resolution with
    | ResLocal =>
        vault w' = vault w ∧
        fileMetadata (syncState w') = fileMetadata (syncState w) ∧
        path ∈ pendingFiles (syncState w')
    | ResRemote =>
        (∃ f, mapGet path (vault w') = Some f ∧
              vf_content f = c_remoteContent conflict) ∧
        (path ∉ pendingFiles (syncState w')) ∧
        match mapGet path (fileMetadata (syncState w)) with
        | Some old =>
            ∃ md, mapGet path (fileMetadata (syncState w')) = Some md ∧
                  githubBlobSha md = rf_sha (c_remote conflict) ∧
                  localChecksum md = calculateChecksum (c_remoteContent conflict) ∧
                  remoteContentChecksum md
                  = calculateChecksum (c_remoteContent conflict)
        | None => mapGet path (fileMetadata (syncState w')) = None
        end
    | ResMerge =>
        (∃ f, mapGet path (vault w') = Some f ∧
              vf_content f = mergeContent (lf_content (c_local conflict))
                                          (c_remoteContent conflict)) ∧
        fileMetadata (syncState w') = fileMetadata (syncState w) ∧
        path ∈ pendingFiles (syncState w')
    end.
Proof.
  intros Hfile. unfold applyConflictResolution.
  cbv beta iota delta [mbind M_bind bind mret M_ret ret getSettings
    getAbstractFileByPath getVault isQuietMode].
  rewrite Hfile.
  destruct resolution;
    cbv beta iota delta [mbind M_bind bind mret M_ret ret pendingAdd pendingDelete
      modifyState when showNotice emit savePluginData getState getSettings
      vaultModify now modifyVault updateMetadata];
    destruct (notificationVerbosity (settings w));
    cbn [negb syncState settings vault env log file_path tfileOf
         upd_pendingFiles upd_fileMetadata pendingFiles fileMetadata];
    eexists; (split; [reflexivity|]); (split; [reflexivity|]);
    cbn [syncState settings vault env log file_path tfileOf
         upd_pendingFiles upd_fileMetadata pendingFiles fileMetadata].
  (* local *)
  1-3: split; [by intros other Hother|];
       split; [done|]; split; [done|]; apply elem_of_setAdd_same.
  (* remote *)
  1-3: destruct (mapGet path (fileMetadata (syncState w))) as [old|] eqn:Hmd;
       (split; [intros other Hother; by rewrite !mapGet_mapSet_ne|]);
       (split; [eexists; by rewrite mapGet_mapSet_eq|]);
       (split; [apply not_elem_of_setDelete|]);
       [eexists; by rewrite mapGet_mapSet_eq | done].
  (* merge *)
  all: split; [intros other Hother; by rewrite !mapGet_mapSet_ne|];
       split; [eexists; by rewrite mapGet_mapSet_eq|];
       split; [done|]; apply elem_of_setAdd_same.
Qed.

End ResolutionEffect.

Section ResolutionStrategy.
Context `{Platform}.

Lemma applyConflictResolution_local (path : list N) (conflict : Conflict) (w : World) :
  ∃ events,
    applyConflictResolution path conflict ResLocal w
    = (Ok tt, touched (markPending path w) (env w) events).
Proof.
  unfold applyConflictResolution.
  cbv beta iota delta [mbind M_bind bind mret M_ret ret getSettings
    getAbstractFileByPath getVault isQuietMode pendingAdd modifyState when
    showNotice emit savePluginData getState].
  unfold touched, markPending.
  destruct (notificationVerbosity (settings w));
    cbn [negb syncState settings vault env log]; eexists;
    rewrite <- ?app_assoc; reflexivity.
Qed.

(** X11: [resolveConflicts] when the strategy is to keep the local
    version, or to ask while the sync is a real-time or save-on-close
    one.  It never throws and never opens the dialog: the environment,
    the vault, the settings and the metadata are as before, and every
    conflicting path is pending afterwards, beside the paths that
    were. *)
Theorem resolveConflicts_keeps_local
    (conflicts : list (list N * Conflict)) (syncType : SyncType) (w : World) :
  conflictResolution (settings w) = CRLocal ∨
  conflictResolution (settings w) = CRAsk ∧ isRealtimeType syncType = true →
  ∃ w',
    resolveConflicts conflicts syncType w = (Ok tt, w') ∧
    env w' = env w ∧ vault w' = vault w ∧ settings w' = settings w ∧
    fileMetadata (syncState w') = fileMetadata (syncState w) ∧
    ∀ path,
      path ∈ pendingFiles (syncState w') ↔
      path ∈ pendingFiles (syncState w) ∨ path ∈ conflicts.*1.
Proof.
  intros Hstrategy.
  assert (∀ (body : list N * Conflict → M unit) entries w0,
    (∀ path conflict w1, settings w1 = settings w →
       ∃ events, body (path, conflict) w1
                 = (Ok tt, touched (markPending path w1) (env w1) events)) →
    settings w0 = settings w →
    ∃ w',
      forEach entries body w0 = (Ok tt, w') ∧
      env w' = env w0 ∧ vault w' = vault w0 ∧ settings w' = settings w0 ∧
      fileMetadata (syncState w') = fileMetadata (syncState w0) ∧
      ∀ path,
        path ∈ pendingFiles (syncState w') ↔
        path ∈ pendingFiles (syncState w0) ∨ path ∈ entries.*1) as Hloop.
  { intros body. induction entries as [|[path conflict] rest IH]; intros w0 Hbody Hs.
    - exists w0. cbn. repeat split; try done; [by left|].
      intros [?|?%elem_of_nil]; done.
    - cbn [forEach]. rewrite bind_run.
      destruct (Hbody path conflict w0 Hs) as (events & ->).
      destruct (IH (touched (markPending path w0) (env w0) events) Hbody Hs)
        as (w' & -> & He & Hv & Hs' & Hmd & Hpending).
      exists w'. split; [done|]. split; [done|]. split; [done|]. split; [done|].
      split; [done|]. intros p. rewrite Hpending. cbn -[setAdd].
      rewrite elem_of_setAdd, elem_of_cons. tauto. }
  unfold resolveConflicts. destruct conflicts as [|entry rest] eqn:Hconflicts.
  { exists w. repeat split; try done; [by left|]. intros [?|?%elem_of_nil]; done. }
  rewrite <- Hconflicts. clear Hconflicts.
  rewrite bind_run. unfold isQuietMode at 1. rewrite bind_run.
  unfold getSettings at 1.
  change ((mret (match notificationVerbosity (settings w) with
                 | Quiet => true | _ => false end) : M bool) w)
    with (Ok (match notificationVerbosity (settings w) with
              | Quiet => true | _ => false end), w).
  cbv beta iota. rewrite bind_run.
  set (quiet := match notificationVerbosity (settings w) with
                | Quiet => true | _ => false end).
  assert (∃ events,
    when (negb quiet)
      (showNotice (js "Resolving " ++ showZ (Z.of_nat (length conflicts))
                   ++ js " conflicts...")) w
    = (Ok tt, touched w (env w) events)) as (events0 & ->).
  { destruct quiet; cbn [negb when].
    - exists []. unfold touched. rewrite app_nil_r. by destruct w.
    - by eexists. }
  edestruct Hloop as (w' & -> & He & Hv & Hs & Hmd & Hpending); [|reflexivity|].
  - intros path conflict w1 Hs1. cbv beta iota. rewrite bind_run.
    unfold getSettings at 1. rewrite Hs1.
    destruct Hstrategy as [-> |[-> ->]].
    + rewrite bind_run.
      change ((mret ResLocal : M Resolution) w1) with (Ok ResLocal, w1).
      cbv beta iota. apply applyConflictResolution_local.
    + rewrite bind_run.
      assert (∃ events1,
        (_ ← when (negb quiet)
               (showNotice ([55357; 57000]%N ++ js " Conflict detected in '"
                  ++ path ++ js "'! Kept local version to avoid interruption. Please review and sync manually if needed."));
         _ ← updateStatusBar (js "Conflict in '" ++ path ++ js "' "
                              ++ [9888; 65039]%N);
         mret ResLocal) w1
        = (Ok ResLocal, touched w1 (env w1) events1)) as (events1 & ->).
      { rewrite bind_run. destruct quiet; cbn [negb when].
        - change ((mret tt : M unit) w1) with (Ok tt, w1). cbv beta iota.
          rewrite bind_run. unfold updateStatusBar at 1, emit at 1. by eexists.
        - unfold showNotice at 1, emit at 1. cbv beta iota.
          rewrite bind_run. unfold updateStatusBar at 1, emit at 1.
          cbv beta iota. eexists. unfold touched. cbn [syncState settings vault env log].
          rewrite <- app_assoc. reflexivity. }
      cbv beta iota.
      destruct (applyConflictResolution_local path conflict (touched w1 (env w1) events1))
        as (events2 & ->).
      eexists. unfold touched, markPending. cbn [syncState settings vault env log].
      rewrite <- app_assoc. reflexivity.
  - exists w'. cbn in He, Hv, Hs, Hmd, Hpending.
    exact (conj eq_refl (conj He (conj Hv (conj Hs (conj Hmd Hpending))))).
Qed.

End ResolutionStrategy.

(** ** Conflict detector: the other cases *)

Section DetectorWithoutRemote.
Context `{Platform}.

Lemma pendingAdd_run (path : list N) (w : World) :
  pendingAdd path w = (Ok tt, markPending path w).
Proof. reflexivity. Qed.

(** X12: without remote states ([null]) the detector reports no conflict
    and never throws; it only adds to the pending set, exactly the local
    files that have no metadata or whose checksum differs from the
    cached remote one. *)
Theorem detectConflicts_without_remote
    (localFiles : list (list N * LocalFileState)) (w : World) :
  ∃ pending,
    detectConflicts localFiles None w
    = (Ok [], mkWorld (upd_pendingFiles (λ _, pending) (syncState w))
                (settings w) (vault w) (env w) (log w)) ∧
    ∀ path,
      path ∈ pending ↔
      path ∈ pendingFiles (syncState w) ∨
      ∃ localFile, (path, localFile) ∈ localFiles ∧
                   changedLocally (syncState w) path localFile.
Proof.
  unfold detectConflicts. rewrite bind_run.
  assert (∀ localFiles w0,
    fileMetadata (syncState w0) = fileMetadata (syncState w) →
    ∃ pending,
      forEach localFiles (λ '(path, localFile),
        st ← getState;
        match mapGet path (fileMetadata st) with
        | Some metadata =>
            when (bool_decide
                    (lf_checksum localFile ≠ remoteContentChecksum metadata))
                 (pendingAdd path)
        | None => pendingAdd path
        end) w0
      = (Ok tt, mkWorld (upd_pendingFiles (λ _, pending) (syncState w0))
                  (settings w0) (vault w0) (env w0) (log w0)) ∧
      ∀ path,
        path ∈ pending ↔
        path ∈ pendingFiles (syncState w0) ∨
        ∃ localFile, (path, localFile) ∈ localFiles ∧
                     changedLocally (syncState w) path localFile) as Hloop.
  { clear localFiles. induction localFiles as [|[q localFile] rest IH]; intros w0 Hmd.
    - exists (pendingFiles (syncState w0)). split.
      + cbn. by destruct w0 as [[]].
      + intros path. split; [by left|]. intros [?|(? & []%elem_of_nil & _)]. done.
    - cbn [forEach]. rewrite !bind_run. unfold getState at 1. rewrite Hmd.
      destruct (mapGet q (fileMetadata (syncState w))) as [metadata|] eqn:Hq.
      + case_bool_decide as Hchanged; cbn [when].
        * rewrite pendingAdd_run.
          destruct (IH (markPending q w0)) as (pending & -> & Hpending); [done|].
          exists pending. split; [done|]. intros path. rewrite Hpending. cbn.
          rewrite elem_of_setAdd. split.
          -- intros [[->|?]|(lf & Hin & Hch)]; [right|by left|right].
             ++ exists localFile. split; [by left|]. unfold changedLocally. by rewrite Hq.
             ++ exists lf. split; [by right|done].
          -- intros [?|(lf & [[= -> ->]|Hin]%elem_of_cons & Hch)]; [auto|auto|].
             right. by exists lf.
        * change ((mret tt : M unit) w0) with (Ok tt, w0).
          destruct (IH w0 Hmd) as (pending & -> & Hpending).
          exists pending. split; [done|]. intros path. rewrite Hpending. split.
          -- intros [?|(lf & Hin & Hch)]; [by left|]. right. exists lf. split; [by right|done].
          -- intros [?|(lf & [[= -> ->]|Hin]%elem_of_cons & Hch)]; [by left| |].
             ++ unfold changedLocally in Hch. rewrite Hq in Hch. done.
             ++ right. by exists lf.
      + rewrite pendingAdd_run.
        destruct (IH (markPending q w0)) as (pending & -> & Hpending); [done|].
        exists pending. split; [done|]. intros path. rewrite Hpending. cbn.
        rewrite elem_of_setAdd. split.
        * intros [[->|?]|(lf & Hin & Hch)]; [right|by left|right].
          -- exists localFile. split; [by left|]. unfold changedLocally. by rewrite Hq.
          -- exists lf. split; [by right|done].
        * intros [?|(lf & [[= -> ->]|Hin]%elem_of_cons & Hch)]; [auto|auto|].
          right. by exists lf. }
  destruct (Hloop localFiles w eq_refl) as (pending & -> & Hpending).
  by exists pending.
Qed.

End DetectorWithoutRemote.

Section DetectorOneSided.
Context `{Platform}.

(** X13: a tracked file whose two sides did not both change.  The
    detector makes no remote call, never throws and returns the
    conflicts it was given; the path ends up pending exactly when the
    local checksum differs from the cached remote checksum.  A file that
    is missing remotely becomes pending only if it is not awaiting remote
    deletion and was never tracked under a remote sha. *)
Theorem detectLocalFile_one_sided
    (remoteFiles : list (list N * RemoteFileInfo))
    (conflicts : list (list N * Conflict)) (path : list N)
    (localFile : LocalFileState) (w : World) :
  (∀ remote md,
     mapGet path remoteFiles = Some remote →
     mapGet path (fileMetadata (syncState w)) = Some md →
     lf_checksum localFile = remoteContentChecksum md
     ∨ rf_sha remote = githubBlobSha md →
     detectLocalFile remoteFiles conflicts path localFile w
     = (Ok conflicts,
        if bool_decide (lf_checksum localFile ≠ remoteContentChecksum md)
        then markPending path w else unmarkPending path w) ∧
     (path ∈ pendingFiles
               (syncState (snd (detectLocalFile remoteFiles conflicts path localFile w)))
      ↔ lf_checksum localFile ≠ remoteContentChecksum md)) ∧
  (mapGet path remoteFiles = None →
   detectLocalFile remoteFiles conflicts path localFile w
   = (Ok conflicts,
      if negb (mapHas path (pendingDeletions (syncState w)))
         && negb (nonEmpty (from_option githubBlobSha []
                              (mapGet path (fileMetadata (syncState w)))))
      then markPending path w else w)).
Proof.
  split.
  - intros remote md Hremote Hmd Hone.
    assert (detectLocalFile remoteFiles conflicts path localFile w
            = (Ok conflicts,
               if bool_decide (lf_checksum localFile ≠ remoteContentChecksum md)
               then markPending path w else unmarkPending path w)) as Hrun.
    { unfold detectLocalFile.
      cbv beta iota delta [mbind M_bind bind getState getSettings].
      rewrite Hremote, Hmd.
      destruct (bool_decide (lf_checksum localFile ≠ remoteContentChecksum md)) eqn:Hl;
        destruct (bool_decide (rf_sha remote ≠ githubBlobSha md)) eqn:Hr;
        cbn [andb negb]; try reflexivity.
      apply bool_decide_eq_true in Hl, Hr. by destruct Hone. }
    split; [done|]. rewrite Hrun. cbn [snd].
    case_bool_decide as Hl; cbn -[setAdd setDelete].
    + split; [done|]. intros _. apply elem_of_setAdd_same.
    + split; [|done]. intros Hin. by apply not_elem_of_setDelete in Hin.
  - intros Hremote. unfold detectLocalFile.
    cbv beta iota delta [mbind M_bind bind getState getSettings].
    rewrite Hremote.
    destruct (mapGet path (fileMetadata (syncState w))) as [md|];
      cbn [from_option];
      destruct (negb (mapHas path (pendingDeletions (syncState w))) && _);
      reflexivity.
Qed.


End DetectorOneSided.

(** ** Remote file states *)

Section RemoteStates.
Context `{Platform}.

Lemma augmentRemoteStates_recently_deleted (st : SyncState) (now : Z)
    (path : list N) (api : list (list N * RemoteFileInfo)) :
  withinGrace (mapGet path (recentlyDeletedFromRemote st)) now
              RECENTLY_DELETED_GRACE_PERIOD_MS = true →
  mapGet path (augmentRemoteStates st now api) = None.
Proof.
  intros Hdeleted. unfold augmentRemoteStates.
  assert (mapGet path ([] : list (list N * RemoteFileInfo)) = None) as Hacc by done.
  revert Hacc. generalize ([] : list (list N * RemoteFileInfo)).
  induction api as [|[q fromApi] rest IH]; intros acc Hacc; cbn [fold_left]; [done|].
  apply IH. destruct (decide (q = path)) as [->|Hne].
  - by rewrite Hdeleted.
  - destruct (withinGrace (mapGet q _) _ _); [done|].
    destruct (mapGet q (fileMetadata st)) as [metadata|];
      [destruct (_ && _ && _)|]; by rewrite mapGet_mapSet_ne.
Qed.

Lemma touched_touched (w : World) (e e' : Env) (events events' : list Event) :
  touched (touched w e events) e' events' = touched w e' (events ++ events').
Proof. unfold touched. cbn. by rewrite app_assoc. Qed.

Lemma touched_refl (w : World) : w = touched w (env w) [].
Proof. destruct w. unfold touched. cbn. by rewrite app_nil_r. Qed.

(** Listing a directory changes only the environment and the trace. *)
Lemma processRemoteDirectory_touched :
  ∀ depth items acc w r w',
    processRemoteDirectory depth items acc w = (r, w') →
    ∃ e' events, w' = touched w e' events.
Proof.
  induction depth as [|depth IHd]; intros items;
    induction items as [|item rest IHi]; intros acc w r w'.
  - intros [= <- <-]. eexists _, _. apply touched_refl.
  - cbn [processRemoteDirectory].
    cbv beta iota delta [mbind M_bind bind getSettings].
    destruct (_ && _); [apply IHi|].
    destruct (bool_decide _); apply IHi.
  - intros [= <- <-]. eexists _, _. apply touched_refl.
  - cbn [processRemoteDirectory].
    cbv beta iota delta [mbind M_bind bind getSettings].
    destruct (_ && _); [apply IHi|].
    destruct (bool_decide _); [|apply IHi].
    unfold attempt at 1. rewrite encodeFilePathM_run.
    destruct (encodeFilePath (item_path item)) as [encoded|]; [|apply IHi].
    destruct (makeGitHubRequest_effect (GetContents (item_path item) (branch (settings w))) w)
      as (answer & attempts & e1 & ->).
    assert (∀ r w', processRemoteDirectory (S depth) rest acc
                      (touched w e1 [EvCall (GetContents (item_path item)
                                               (branch (settings w))) attempts answer])
                    = (r, w') → ∃ e' events, w' = touched w e' events) as Hskip.
    { intros r0 w0 (e2 & events2 & ->)%IHi. rewrite touched_touched. by eexists _, _. }
    destruct answer as [[subItems|o|]|error]; try apply Hskip.
    destruct (processRemoteDirectory depth subItems acc _) as [[acc2|error] w2] eqn:Hsub.
    + apply IHd in Hsub as (e2 & events2 & ->). rewrite touched_touched.
      intros (e3 & events3 & ->)%IHi. rewrite touched_touched. by eexists _, _.
    + apply IHd in Hsub as (e2 & events2 & ->). rewrite touched_touched.
      intros [= <- <-]. by eexists _, _.
Qed.

Lemma getRemoteFileStates_cases (w : World) :
  match encodeFilePath (stripSlashes (trim (syncPath (settings w)))) with
  | Some _ =>
      ∃ e' events,
        (∃ api,
           getRemoteFileStates w
           = (Ok (Some (augmentRemoteStates (syncState w) (dateNow e') api)),
              expiredAt (dateNow e') (touched w e' events))) ∨
        getRemoteFileStates w
        = (Ok None, touched w e' (events ++ [listingFailedNotice]))
  | None => getRemoteFileStates w = (Throw uriError, w)
  end.
Proof.
  unfold getRemoteFileStates, tryCatch.
  cbv beta iota delta [mbind M_bind bind getSettings].
  rewrite encodeFilePathM_run.
  destruct (encodeFilePath (stripSlashes (trim (syncPath (settings w)))))
    as [encoded|]; [|done].
  destruct (makeGitHubRequest_effect
              (GetContents (stripSlashes (trim (syncPath (settings w))))
                 (branch (settings w))) w)
    as (answer & attempts & e1 & ->).
  set (call := EvCall _ attempts answer).
  assert (∀ e events,
    (let (r0, w3) := showNotice (js "Failed to fetch remote file states. This may affect sync accuracy. Check your GitHub settings and network connection.")
                       (touched w e events) in
     match r0 with
     | Ok _ => (mret None : M (option (list (list N * RemoteFileInfo)))) w3
     | Throw e0 => (Throw e0, w3)
     end) = (Ok None, touched w e (events ++ [listingFailedNotice]))) as Hfailed.
  { intros e events. unfold showNotice, emit, touched, listingFailedNotice.
    cbv beta iota delta [mret M_ret ret log syncState settings vault env].
    by rewrite app_assoc. }
  destruct answer as [[items|o|]|error].
  - destruct (processRemoteDirectory treeDepth items [] _) as [[api|error] w2] eqn:Hlist;
      apply processRemoteDirectory_touched in Hlist as (e2 & events2 & ->);
      rewrite touched_touched.
    + eexists _, _. left. exists api. reflexivity.
    + eexists _, _. right. apply Hfailed.
  - destruct (_ && _); eexists _, _; left; eexists; reflexivity.
  - eexists _, _. right. apply Hfailed.
  - eexists _, _. right. apply Hfailed.
Qed.

(** X15: with a sync path that [encodeFilePath] can encode,
    [getRemoteFileStates] never throws: a failure of the listing
    is answered by a notice and [null], with the plugin state as it was.
    When it returns states, a path deleted remotely less than 120 s
    before is not among them, whatever the listing still shows. *)
Theorem getRemoteFileStates_total (w : World) :
  is_Some (encodeFilePath (stripSlashes (trim (syncPath (settings w))))) →
  ∃ r w',
    getRemoteFileStates w = (Ok r, w') ∧
    settings w' = settings w ∧ vault w' = vault w ∧
    match r with
    | None =>
        syncState w' = syncState w ∧
        ∃ events, log w' = log w ++ events ++ [listingFailedNotice]
    | Some remoteFiles =>
        ∀ path timestamp,
          mapGet path (recentlyDeletedFromRemote (syncState w)) = Some timestamp →
          timestamp ≠ 0%Z →
          (dateNow (env w') - timestamp < RECENTLY_DELETED_GRACE_PERIOD_MS)%Z →
          mapGet path remoteFiles = None
    end.
Proof.
  intros [encoded Hencoded].
  pose proof (getRemoteFileStates_cases w) as Hcases. rewrite Hencoded in Hcases.
  destruct Hcases as (e' & events & [[api ->]| ->]).
  - eexists _, _. split; [reflexivity|]. split; [done|]. split; [done|].
    intros path timestamp Hdeleted Hts Hnow. cbn in Hnow.
    apply augmentRemoteStates_recently_deleted. rewrite Hdeleted. unfold withinGrace.
    replace (timestamp =? 0)%Z with false by (symmetry; by apply Z.eqb_neq).
    by replace (_ <? _)%Z with true by (symmetry; by apply Z.ltb_lt).
  - eexists _, _. split; [reflexivity|]. split; [done|]. split; [done|].
    split; [done|]. by exists events.
Qed.

End RemoteStates.


(** ** Pending remote deletions *)

Section PendingDeletions.
Context `{Platform}.

Lemma deleteFileFromGitHub_frame (path sha : list N) (w : World) :
  ∃ r w',
    deleteFileFromGitHub path sha 3 w = (r, w') ∧
    settings w' = settings w ∧ vault w' = vault w ∧
    match r with
    | Ok _ =>
        syncState w' =
        upd_recentlyDeletedFromRemote (mapSet path (dateNow (env w'))) (syncState w)
    | Throw _ => syncState w' = syncState w
    end.
Proof.
  destruct (deleteLoop_spec path (getRemotePath (syncPath (settings w)) path)
              (branch (settings w)) 3 3 0 w)
    as (r & w' & events & Hrun & _ & Hs & Hv & _ & Hst); [done|done|lia|].
  by exists r, w'.
Qed.

Lemma deletionsRecorded_refl (st : SyncState) : deletionsRecorded st st.
Proof. by repeat split. Qed.

Lemma deletionsRecorded_step (st st' : SyncState) (path : list N) (t : Z) :
  deletionsRecorded st st' →
  deletionsRecorded st (upd_recentlyDeletedFromRemote (mapSet path t) st') ∧
  is_Some (mapGet path (recentlyDeletedFromRemote
                          (upd_recentlyDeletedFromRemote (mapSet path t) st'))).
Proof.
  intros (? & ? & ? & ? & ? & ? & ? & Hmono). split.
  - repeat split; try done. intros q Hq. cbn.
    destruct (decide (q = path)) as [->|Hne].
    + rewrite mapGet_mapSet_eq. eauto.
    + rewrite mapGet_mapSet_ne by done. auto.
  - cbn. rewrite mapGet_mapSet_eq. eauto.
Qed.

Lemma mapGet_deleteAll (paths : list (list N)) (m : list (list N * list N))
    (path : list N) :
  mapGet path (fold_left (λ m p, mapDelete p m) paths m)
  = if bool_decide (path ∈ paths) then None else mapGet path m.
Proof.
  revert m. induction paths as [|p paths IH]; intros m; cbn [fold_left]; [done|].
  rewrite IH. destruct (decide (path = p)) as [->|Hne].
  - rewrite mapGet_mapDelete_eq. rewrite (bool_decide_eq_true_2 (p ∈ p :: paths)) by left.
    by case_bool_decide.
  - rewrite mapGet_mapDelete_ne by done.
    apply (f_equal (λ b : bool, if b then None else mapGet path m)).
    apply bool_decide_ext. rewrite elem_of_cons. tauto.
Qed.

Lemma forEach_deleteAll (paths : list (list N)) (w : World) :
  forEach paths (λ path, modifyState (upd_pendingDeletions (mapDelete path))) w
  = (Ok tt,
     mkWorld (upd_pendingDeletions
                (λ m, fold_left (λ m p, mapDelete p m) paths m) (syncState w))
       (settings w) (vault w) (env w) (log w)).
Proof.
  revert w. induction paths as [|p paths IH]; intros w; cbn [forEach fold_left].
  - destruct w as [[]]. reflexivity.
  - rewrite bind_run. unfold modifyState at 1. by rewrite IH.
Qed.

(** X16: [processPendingDeletions] never throws, and an entry leaves
    [pendingDeletions] only when its remote deletion succeeded: a path
    no longer pending is recorded in [recentlyDeletedFromRemote], the
    entries left are entries that were there, and the count returned is
    at most the number of entries.  Settings, vault, metadata and the
    pending set are untouched, and the data is saved at the end. *)
Theorem processPendingDeletions_accounting (w : World) :
  ∃ count w',
    processPendingDeletions w = (Ok count, w') ∧
    count ≤ length (pendingDeletions (syncState w)) ∧
    settings w' = settings w ∧ vault w' = vault w ∧
    fileMetadata (syncState w') = fileMetadata (syncState w) ∧
    pendingFiles (syncState w') = pendingFiles (syncState w) ∧
    (∀ path sha,
       mapGet path (pendingDeletions (syncState w')) = Some sha →
       mapGet path (pendingDeletions (syncState w)) = Some sha) ∧
    (∀ path,
       is_Some (mapGet path (pendingDeletions (syncState w))) →
       mapGet path (pendingDeletions (syncState w')) = None →
       is_Some (mapGet path (recentlyDeletedFromRemote (syncState w')))) ∧
    ∃ before data, log w' = before ++ [EvSave data].
Proof.
  unfold processPendingDeletions. rewrite bind_run. unfold getState at 1.
  rewrite bind_run.
  set (go := fix go (entries : list (list N * list N))
                 (successfulDeletions : list (list N)) (deletedRemotelyCount : nat)
                 {struct entries} : M (list (list N) * nat) := _).
  assert (∀ entries done count w0,
    settings w0 = settings w → vault w0 = vault w →
    deletionsRecorded (syncState w) (syncState w0) →
    (∀ p, p ∈ done → is_Some (mapGet p (recentlyDeletedFromRemote (syncState w0)))) →
    ∃ done' count' w1,
      go entries done count w0 = (Ok (done', count'), w1) ∧
      settings w1 = settings w ∧ vault w1 = vault w ∧
      deletionsRecorded (syncState w) (syncState w1) ∧
      (∀ p, p ∈ done' →
            is_Some (mapGet p (recentlyDeletedFromRemote (syncState w1)))) ∧
      count' ≤ count + length entries) as Hgo.
  { induction entries as [|[path sha] rest IH]; intros done count w0 Hs Hv Hrec Hdone.
    - exists done, count, w0. cbn. repeat split; try done; try apply Hrec. lia.
    - cbn [go]. fold go. rewrite bind_run. unfold attempt at 1.
      destruct (deleteFileFromGitHub_frame path sha w0)
        as (r & w1 & -> & Hs1 & Hv1 & Hst1).
      destruct r as [[]|error].
      + destruct (deletionsRecorded_step _ _ path (dateNow (env w1)) Hrec)
          as [Hrec1 Hpath]. rewrite <- Hst1 in Hrec1, Hpath.
        destruct (IH (setAdd path done) (S count) w1) as
          (done' & count' & w2 & -> & Hs2 & Hv2 & Hrec2 & Hdone2 & Hcount);
          [congruence|congruence|done| |].
        * intros p [->|Hp]%elem_of_setAdd; [done|].
          rewrite Hst1. cbn. destruct (decide (p = path)) as [->|Hne].
          -- rewrite mapGet_mapSet_eq. eauto.
          -- rewrite mapGet_mapSet_ne by done. auto.
        * exists done', count', w2. repeat split; try done; try apply Hrec2.
          cbn. lia.
      + rewrite bind_run. unfold showNotice at 1, emit at 1.
        destruct (IH done count
                    (mkWorld (syncState w1) (settings w1) (vault w1) (env w1)
                       (log w1 ++ [EvNotice (js "Failed to delete " ++ path
                          ++ js " from GitHub. Check console for details.")])))
          as (done' & count' & w2 & -> & Hs2 & Hv2 & Hrec2 & Hdone2 & Hcount);
          cbn; [congruence|congruence|by rewrite Hst1|by rewrite Hst1|].
        exists done', count', w2. repeat split; try done; try apply Hrec2.
        cbn. lia. }
  destruct (Hgo (pendingDeletions (syncState w)) [] 0 w eq_refl eq_refl
              (deletionsRecorded_refl _))
    as (done' & count' & w1 & -> & Hs1 & Hv1 & Hrec1 & Hdone1 & Hcount).
  { by intros p ?%elem_of_nil. }
  rewrite bind_run, forEach_deleteAll.
  unfold savePluginData.
  cbv beta iota delta [mbind M_bind bind getState getSettings emit mret M_ret ret].
  destruct Hrec1 as (_ & _ & Hpf & Hmd & Hpd & _ & _ & _).
  eexists _, _. split; [reflexivity|].
  cbn -[mapGet mapDelete].
  split; [lia|]. split; [done|]. split; [done|]. split; [done|]. split; [done|].
  split; [|split].
  - intros path sha. rewrite mapGet_deleteAll, Hpd. by case_bool_decide.
  - intros path Hwas. rewrite mapGet_deleteAll, Hpd. case_bool_decide as Hin.
    + intros _. by apply Hdone1.
    + intros Hnone. rewrite Hnone in Hwas. by destruct Hwas.
  - by eexists _, _.
Qed.

End PendingDeletions.


(** ** Local file states *)

Section LocalStates.
Context `{Platform}.

Lemma mapGet_is_Some_keys {V} (path : list N) (m : list (list N * V)) :
  is_Some (mapGet path m) ↔ path ∈ m.*1.
Proof.
  induction m as [|[q v] m IH]; cbn.
  - split; [by intros [? ?]|by intros ?%elem_of_nil].
  - case_decide as Hq.
    + subst q. split; [intros _; left|eauto].
    + rewrite elem_of_cons, IH. split; [auto|]. intros [->|?]; [done|auto].
Qed.

(** The lookup in the map [getLocalFileStates] returns. *)
Lemma getLocalFileStates_lookup (w : World) :
  ∃ states,
    getLocalFileStates w = (Ok states, w) ∧
    ∀ path,
      mapGet path states
      = match mapGet path (vault w) with
        | Some f =>
            if bool_decide (path ∈ filter (λ p, endsWith p (js ".md") = true)
                                     (vault w).*1)
               && shouldSyncFile (syncPath (settings w)) (tfileOf path)
            then Some (localStateOf path f) else None
        | None => None
        end.
Proof.
  unfold getLocalFileStates, getMarkdownFiles.
  cbv beta iota delta [mbind M_bind bind getSettings getVault mret M_ret ret].
  set (go := fix go (files : list TFile) (fileStates : list (list N * LocalFileState))
                 {struct files} : M (list (list N * LocalFileState)) := _).
  assert (∀ paths acc,
    ∃ states,
      go (tfileOf <$> paths) acc w = (Ok states, w) ∧
      ∀ path,
        mapGet path states
        = match mapGet path (vault w) with
          | Some f =>
              if bool_decide (path ∈ paths)
                 && shouldSyncFile (syncPath (settings w)) (tfileOf path)
              then Some (localStateOf path f) else mapGet path acc
          | None => mapGet path acc
          end) as Hgo.
  { induction paths as [|p paths IH]; intros acc.
    - exists acc. split; [done|]. intros path.
      rewrite (bool_decide_eq_false_2 (path ∈ [])) by apply not_elem_of_nil.
      by destruct (mapGet path (vault w)).
    - cbn [fmap list_fmap go]. fold go. cbn [file_path tfileOf].
      destruct (shouldSyncFile (syncPath (settings w)) (tfileOf p)) eqn:Hsync.
      + unfold attempt at 1, vaultRead at 1, statMtime at 1.
        cbv beta iota delta [mbind M_bind bind getVault mret M_ret ret throw].
        cbn [file_path tfileOf].
        destruct (mapGet p (vault w)) as [f|] eqn:Hf.
        * destruct (IH (mapSet p (localStateOf p f) acc)) as (states & Hrun & Hstates).
          exists states. split; [rewrite Hf; exact Hrun|]. intros path. rewrite Hstates.
          destruct (decide (path = p)) as [->|Hne].
          -- rewrite Hf, Hsync, mapGet_mapSet_eq.
             rewrite (bool_decide_eq_true_2 (p ∈ p :: paths)) by left.
             by destruct (bool_decide (p ∈ paths)).
          -- rewrite mapGet_mapSet_ne by done.
             replace (bool_decide (path ∈ p :: paths))
               with (bool_decide (path ∈ paths)); [done|].
             apply bool_decide_ext. rewrite elem_of_cons. tauto.
        * destruct (IH acc) as (states & Hrun & Hstates).
          exists states. split; [exact Hrun|]. intros path. rewrite Hstates.
          destruct (decide (path = p)) as [->|Hne]; [by rewrite Hf|].
          replace (bool_decide (path ∈ p :: paths))
            with (bool_decide (path ∈ paths)); [done|].
          apply bool_decide_ext. rewrite elem_of_cons. tauto.
      + destruct (IH acc) as (states & Hrun & Hstates).
        exists states. split; [exact Hrun|]. intros path. rewrite Hstates.
        destruct (decide (path = p)) as [->|Hne].
        * rewrite Hsync, !andb_false_r. done.
        * replace (bool_decide (path ∈ p :: paths))
            with (bool_decide (path ∈ paths)); [done|].
          apply bool_decide_ext. rewrite elem_of_cons. tauto. }
  destruct (Hgo (filter (λ p, endsWith p (js ".md") = true) (vault w).*1) [])
    as (states & Hrun & Hstates).
  exists states. split; [exact Hrun|]. intros path. rewrite Hstates.
  destruct (mapGet path (vault w)); [|done]. by destruct (_ && _).
Qed.

(** X17: [getLocalFileStates] never throws and changes nothing.  The map
    it returns holds, under its path, every vault file with extension
    [.md] that [shouldSyncFile] accepts - with its content, the checksum
    of that content and its modification time - and nothing else. *)
Theorem getLocalFileStates_exact (w : World) :
  ∃ states,
    getLocalFileStates w = (Ok states, w) ∧
    ∀ path state,
      mapGet path states = Some state ↔
      ∃ f, mapGet path (vault w) = Some f ∧
           endsWith path (js ".md") = true ∧
           shouldSyncFile (syncPath (settings w)) (tfileOf path) = true ∧
           state = localStateOf path f.
Proof.
  destruct (getLocalFileStates_lookup w) as (states & Hrun & Hstates).
  exists states. split; [exact Hrun|]. intros path state. rewrite Hstates.
  destruct (mapGet path (vault w)) as [f|] eqn:Hf.
  - case_bool_decide as Hin; cbn [andb].
    + apply list_elem_of_filter in Hin as [Hmd _].
      destruct (shouldSyncFile _ _) eqn:Hsync.
      * split; [intros [= <-]; by exists f|]. by intros (f' & [= <-] & _ & _ & ->).
      * split; [done|]. by intros (f' & _ & _ & [=] & _).
    + split; [done|]. intros (f' & _ & Hmd & _ & _). exfalso. apply Hin.
      apply list_elem_of_filter. split; [done|].
      apply mapGet_is_Some_keys. by rewrite Hf.
  - split; [done|]. by intros (f' & [=] & _).
Qed.

End LocalStates.


(** ** Vault event handlers *)

Section VaultEvents.
Context `{Platform}.

Lemma updateFileMetadata_run (file : TFile) (w : World) :
  updateFileMetadata file w
  = (Ok tt,
     match mapGet (file_path file) (vault w) with
     | Some f =>
         let st := upd_fileMetadata
                     (mapSet (file_path file)
                        (refreshedMetadata (file_path file)
                           (mapGet (file_path file) (fileMetadata (syncState w))) f))
                     (syncState w) in
         let w1 := mkWorld st (settings w) (vault w) (env w) (log w) in
         mkWorld st (settings w) (vault w) (env w) (log w ++ [EvSave (snapshot w1)])
     | None => w
     end).
Proof.
  unfold updateFileMetadata, tryCatch, vaultRead.
  cbv beta iota delta [mbind M_bind bind getVault mret M_ret ret throw].
  destruct (mapGet (file_path file) (vault w)) as [f|] eqn:Hf; [|done].
  cbv beta iota delta [mbind M_bind bind getVault mret M_ret ret getMetadata
    getState statMtime setMetadata modifyState savePluginData getSettings emit].
  cbn [vault syncState settings env log]. rewrite Hf.
  by destruct (mapGet (file_path file) (fileMetadata (syncState w))).
Qed.

(** X18: [updateFileMetadata] never throws.  For a file of the vault it
    stores the checksum of the current content and the modification
    time, clears [conflicted], and keeps the remote sha and the remote
    checksum the path had (empty for a new path); nothing else changes
    and the data is saved.  For a file that cannot be read nothing
    changes at all. *)
Theorem updateFileMetadata_effect (file : TFile) (w : World) :
  ∃ w',
    updateFileMetadata file w = (Ok tt, w') ∧
    settings w' = settings w ∧ vault w' = vault w ∧ env w' = env w ∧
    pendingFiles (syncState w') = pendingFiles (syncState w) ∧
    pendingDeletions (syncState w') = pendingDeletions (syncState w) ∧
    (∀ other, other ≠ file_path file →
       mapGet other (fileMetadata (syncState w'))
       = mapGet other (fileMetadata (syncState w))) ∧
    match mapGet (file_path file) (vault w) with
    | Some f =>
        mapGet (file_path file) (fileMetadata (syncState w'))
        = Some (refreshedMetadata (file_path file)
                  (mapGet (file_path file) (fileMetadata (syncState w))) f) ∧
        log w' = log w ++ [EvSave (snapshot w')]
    | None => w' = w
    end.
Proof.
  rewrite updateFileMetadata_run. eexists. split; [reflexivity|].
  destruct (mapGet (file_path file) (vault w)) as [f|]; cbn -[mapGet mapSet].
  - repeat split; try done.
    + intros other Hother. by rewrite mapGet_mapSet_ne.
    + by rewrite mapGet_mapSet_eq.
  - by repeat split.
Qed.

(** X19: [onFileDeleted] never throws.  Afterwards the path has no
    metadata and is neither pending nor waiting for a pull; it is
    scheduled for remote deletion, with the sha of its metadata, exactly
    when that metadata held a sha - a file never pushed is not
    scheduled.  Other paths keep their entries, the data is saved, and
    a sync is requested when real-time or automatic sync is on. *)
Theorem onFileDeleted_effect (file : TFile) (w : World) :
  let path := file_path file in
  ∃ w',
    onFileDeleted file w
    = (Ok (debouncedSyncCall (realtimeSync (settings w) || autoSync (settings w))
             path), w') ∧
    settings w' = settings w ∧ vault w' = vault w ∧ env w' = env w ∧
    log w' = log w ++ [EvSave (snapshot w')] ∧
    mapGet path (fileMetadata (syncState w')) = None ∧
    (path ∉ pendingFiles (syncState w')) ∧
    (path ∉ remoteChangesPendingForActiveFiles (syncState w')) ∧
    mapGet path (pendingDeletions (syncState w'))
    = match mapGet path (fileMetadata (syncState w)) with
      | Some md =>
          if nonEmpty (githubBlobSha md) then Some (githubBlobSha md)
          else mapGet path (pendingDeletions (syncState w))
      | None => mapGet path (pendingDeletions (syncState w))
      end ∧
    ∀ other, other ≠ path →
      mapGet other (fileMetadata (syncState w'))
      = mapGet other (fileMetadata (syncState w)) ∧
      mapGet other (pendingDeletions (syncState w'))
      = mapGet other (pendingDeletions (syncState w)) ∧
      (other ∈ pendingFiles (syncState w') ↔ other ∈ pendingFiles (syncState w)).
Proof.
  intros path. unfold onFileDeleted, markForRemoteDeletion. fold path.
  cbv beta iota delta [mbind M_bind bind mret M_ret ret getMetadata getState
    modifyState pendingDelete getSettings savePluginData emit when].
  destruct (mapGet path (fileMetadata (syncState w))) as [md|] eqn:Hmd;
    [destruct (nonEmpty (githubBlobSha md)) eqn:Hsha|];
    cbn -[mapGet mapSet mapDelete setDelete];
    (eexists; split; [reflexivity|]);
    cbn -[mapGet mapSet mapDelete setDelete];
    repeat (split; [done|]);
    (split; [apply mapGet_mapDelete_eq|]);
    (split; [apply not_elem_of_setDelete|]);
    (split; [apply not_elem_of_setDelete|]);
    (split; [try apply mapGet_mapSet_eq; done|]);
    intros other Hother;
    (split; [by rewrite mapGet_mapDelete_ne|]);
    (split; [try (by rewrite mapGet_mapSet_ne); done|]);
    rewrite elem_of_setDelete; tauto.
Qed.

End VaultEvents.

Section VaultListeners.
Context `{Platform}.

Lemma pendingDelete_run (path : list N) (w : World) :
  pendingDelete path w = (Ok tt, unmarkPending path w).
Proof. reflexivity. Qed.

(** X20: the listeners for [modify] and [create].  An event for a file
    that [shouldSyncFile] rejects is ignored.  For an accepted file of
    the vault the metadata is refreshed and the sync requested depends
    on the settings only.  On [create], and on [modify] of a file whose
    path ends in [.md], the path ends up pending exactly when the
    checksum of its content differs from the remote checksum the
    metadata already had (the empty string for a new path).  On [modify]
    of an accepted file whose path does not end in [.md] - a
    [.markdown] file - the pending set stays as it was, whatever the
    content: [getLocalFileStates] lists [.md] files only. *)
Theorem onVaultModify_effect (path : list N) (w : World) :
  let file := tfileOf path in
  let request :=
    debouncedSyncCall (realtimeSync (settings w)
                       || (syncOnSave (settings w) && negb (realtimeSync (settings w))))
                      path in
  (shouldSyncFile (syncPath (settings w)) file = false →
   onVaultModify file w = (Ok None, w) ∧ onVaultCreate file w = (Ok None, w)) ∧
  (∀ f,
     shouldSyncFile (syncPath (settings w)) file = true →
     mapGet path (vault w) = Some f →
     let changed :=
       bool_decide (calculateChecksum (vf_content f)
                    ≠ from_option remoteContentChecksum []
                        (mapGet path (fileMetadata (syncState w)))) in
     let w' := if changed then markPending path (refreshed path f w)
               else unmarkPending path (refreshed path f w) in
     onVaultCreate file w = (Ok request, w') ∧
     (endsWith path (js ".md") = true → onVaultModify file w = (Ok request, w')) ∧
     (endsWith path (js ".md") = false →
      onVaultModify file w = (Ok request, refreshed path f w)) ∧
     (path ∈ pendingFiles (syncState w') ↔ changed = true) ∧
     mapGet path (fileMetadata (syncState w'))
     = Some (refreshedMetadata path (mapGet path (fileMetadata (syncState w))) f)).
Proof.
  intros file request. split.
  - intros Hsync. unfold onVaultModify, onVaultCreate.
    rewrite !bind_run. unfold getSettings at 1 2. by rewrite Hsync.
  - intros f Hsync Hf changed w'.
    assert (updateFileMetadata file w = (Ok tt, refreshed path f w)) as Hrefresh.
    { rewrite updateFileMetadata_run. cbn [file_path file tfileOf]. by rewrite Hf. }
    assert (mapGet path (fileMetadata (syncState (refreshed path f w)))
            = Some (refreshedMetadata path
                      (mapGet path (fileMetadata (syncState w))) f)) as Hmd
      by (cbn -[mapGet mapSet]; by rewrite mapGet_mapSet_eq).
    assert (onVaultCreate file w = (Ok request, w')) as Hcreate.
    { unfold onVaultCreate. rewrite bind_run. unfold getSettings at 1. rewrite Hsync.
      unfold onFileCreated. rewrite bind_run, Hrefresh.
      rewrite bind_run. unfold getMetadata at 1. rewrite bind_run.
      unfold getState at 1. change ((mret ?x : M _) ?w0) with (Ok x, w0).
      cbn [file_path file tfileOf]. rewrite Hmd. rewrite bind_run.
      unfold w', changed. cbn [localChecksum remoteContentChecksum refreshedMetadata].
      case_bool_decide; [rewrite pendingAdd_run|rewrite pendingDelete_run]; reflexivity. }
    split; [exact Hcreate|]. split; [|split; [|split]].
    2:{ intros Hext. unfold onVaultModify. rewrite bind_run. unfold getSettings at 1.
        rewrite Hsync. unfold onFileModified. rewrite bind_run, Hrefresh.
        rewrite bind_run.
        destruct (getLocalFileStates_lookup (refreshed path f w))
          as (states & -> & Hstates).
        rewrite bind_run. unfold getMetadata at 1. rewrite bind_run.
        unfold getState at 1. change ((mret ?x : M _) ?w0) with (Ok x, w0).
        cbn [file_path file tfileOf]. rewrite Hmd.
        assert (mapGet path states = None) as ->.
        { rewrite Hstates. cbn [vault settings refreshed]. rewrite Hf.
          rewrite bool_decide_eq_false_2; [done|].
          intros [Hmarkdown _]%list_elem_of_filter. congruence. }
        rewrite bind_run. reflexivity. }
    + intros Hext. unfold onVaultModify. rewrite bind_run. unfold getSettings at 1.
      rewrite Hsync. unfold onFileModified. rewrite bind_run, Hrefresh.
      rewrite bind_run.
      destruct (getLocalFileStates_lookup (refreshed path f w))
        as (states & -> & Hstates).
      rewrite bind_run. unfold getMetadata at 1. rewrite bind_run.
      unfold getState at 1. change ((mret ?x : M _) ?w0) with (Ok x, w0).
      cbn [file_path file tfileOf]. rewrite Hmd.
      assert (mapGet path states = Some (localStateOf path f)) as ->.
      { rewrite Hstates. cbn [vault settings refreshed]. rewrite Hf.
        fold file. rewrite Hsync.
        rewrite bool_decide_eq_true_2; [done|].
        apply list_elem_of_filter. split; [done|].
        apply mapGet_is_Some_keys. by rewrite Hf. }
      rewrite bind_run. unfold w', changed.
      cbn [lf_checksum localStateOf remoteContentChecksum refreshedMetadata].
      case_bool_decide; [rewrite pendingAdd_run|rewrite pendingDelete_run]; reflexivity.
    + unfold w'. destruct changed; cbn -[setAdd setDelete].
      * split; [done|]. intros _. apply elem_of_setAdd_same.
      * split; [|done]. intros Hin. by apply not_elem_of_setDelete in Hin.
    + unfold w'. by destruct changed.
Qed.

(** X21: [onFileRenamed] for a new path other than the old one.  The
    old path loses its metadata and its pending marks and, if it was
    tracked under a sha, is scheduled for remote deletion with that sha;
    the new path, when its file can be read, is marked for push with
    metadata that inherits the sha and the remote checksum of the old
    path and holds the checksum of the content.  When the file cannot be
    read the handler throws after the old path has been dealt with, and
    the new path gets no metadata. *)
Theorem onFileRenamed_effect (file : TFile) (oldPath : list N) (w : World) :
  let path := file_path file in
  let old := mapGet oldPath (fileMetadata (syncState w)) in
  oldPath ≠ path →
  ∃ r w',
    onFileRenamed file oldPath w = (r, w') ∧
    settings w' = settings w ∧ vault w' = vault w ∧
    mapGet oldPath (fileMetadata (syncState w')) = None ∧
    (oldPath ∉ pendingFiles (syncState w')) ∧
    mapGet oldPath (pendingDeletions (syncState w'))
    = (if nonEmpty (from_option githubBlobSha [] old)
       then Some (from_option githubBlobSha [] old)
       else mapGet oldPath (pendingDeletions (syncState w))) ∧
    match mapGet path (vault w) with
    | Some f =>
        r = Ok (debouncedSyncCall
                  (realtimeSync (settings w) || autoSync (settings w)) path) ∧
        mapGet path (fileMetadata (syncState w'))
        = Some (mkMetadata path (from_option githubBlobSha [] old) (vf_mtime f)
                  (calculateChecksum (vf_content f))
                  (from_option remoteContentChecksum [] old) false) ∧
        path ∈ pendingFiles (syncState w') ∧
        log w' = log w ++ [EvSave (snapshot w')]
    | None =>
        (∃ error, r = Throw error) ∧
        mapGet path (fileMetadata (syncState w'))
        = mapGet path (fileMetadata (syncState w)) ∧
        log w' = log w
    end.
Proof.
  intros path old Hne. subst path old.
  unfold onFileRenamed, markForRemoteDeletion.
  cbv beta iota delta [mbind M_bind bind mret M_ret ret getMetadata getState
    modifyState pendingDelete pendingAdd getSettings savePluginData emit when
    statMtime vaultRead getVault setMetadata throw].
  cbn [syncState settings vault env log].
  destruct (mapGet (file_path file) (vault w)) as [f|] eqn:Hf;
    (destruct (mapGet oldPath (fileMetadata (syncState w))) as [md|] eqn:Hold;
       [destruct (nonEmpty (githubBlobSha md)) eqn:Hsha|]);
    cbn -[mapGet mapSet mapDelete setDelete setAdd js];
    rewrite ?Hsha, ?Hf;
    cbn -[mapGet mapSet mapDelete setDelete setAdd js];
    (eexists _, _; split; [reflexivity|]);
    cbn -[mapGet mapSet mapDelete setDelete setAdd js];
    (split; [done|]); (split; [done|]).
  all: try (split; [by rewrite ?mapGet_mapSet_ne, mapGet_mapDelete_eq by done|]).
  all: try (split; [rewrite ?elem_of_setAdd, elem_of_setDelete; tauto|]).
  all: try (split; [by rewrite ?mapGet_mapSet_eq|]).
  all: try (split; [done|]; split; [by rewrite mapGet_mapSet_eq|];
            split; [apply elem_of_setAdd_same|done]).
  all: split; [by eexists|]; split; [by rewrite mapGet_mapDelete_ne|done].
Qed.

End VaultListeners.

(** ** Force operations *)

Section ForceOperations.
Context `{Platform}.

Lemma releaseForce_run (w : World) : releaseForce w = (Ok tt, releasedForce w).
Proof.
  unfold releaseForce, releasedForce, idleStatus, updateOverallStatusBar, updateStatusBar.
  cbv beta iota delta [mbind M_bind bind modifyState getState getSettings emit].
  cbn -[js]. destruct (realtimeSync (settings w)); [|destruct (autoSync (settings w))];
    reflexivity.
Qed.

(** A force operation guarded as in the source: refused on incomplete
    settings or while a run is in progress, else run inside
    [try]/[catch]/[finally]. *)
Lemma guarded_force (busyNotice : string) (body : M unit)
    (handler : JsError → M unit) (w : World) :
  (∀ error w0, ∃ w1, handler error w0 = (Ok tt, w1)) →
  let op : M unit :=
    valid ← validateSettings;
    if negb valid then mret tt
    else
      st ← getState;
      if inProgress st then showNotice (js busyNotice)
      else tryFinally (tryCatch body handler) releaseForce in
  ∃ w',
    op w = (Ok tt, w') ∧
    if negb (settingsComplete (settings w)) then
      w' = mkWorld (syncState w) (settings w) (vault w) (env w)
             (log w ++ [configureNotice])
    else if inProgress (syncState w) then
      w' = mkWorld (syncState w) (settings w) (vault w) (env w)
             (log w ++ [EvNotice (js busyNotice)])
    else
      inProgress (syncState w') = false ∧
      ∃ w2, w' = releasedForce w2 ∧
            match body w with
            | (Ok _, w1) => w2 = w1
            | (Throw error, w1) => handler error w1 = (Ok tt, w2)
            end.
Proof.
  intros Hhandler op. unfold op.
  rewrite bind_run, validateSettings_spec.
  destruct (settingsComplete (settings w)); cbn [negb].
  - rewrite bind_run. unfold getState at 1.
    destruct (inProgress (syncState w)) eqn:Hbusy.
    + eexists. split; reflexivity.
    + unfold tryFinally.
      destruct (tryCatch body handler w) as [r0 w2] eqn:Hbody.
      rewrite releaseForce_run. unfold tryCatch in Hbody.
      destruct (body w) as [[[]|error] w1].
      * injection Hbody as <- <-. eexists. split; [reflexivity|]. split; [done|].
        by exists w1.
      * destruct (Hhandler error w1) as [w3 Hh]. rewrite Hh in Hbody.
        injection Hbody as <- <-. eexists. split; [reflexivity|]. split; [done|].
        by exists w3.
  - eexists. split; reflexivity.
Qed.

(** X22: the force operations are guarded like a run and never throw.
    With incomplete settings, or while [inProgress] is set, they only
    show a notice and contact nothing.  Otherwise, whether the body
    completes or throws, they end with the [finally] block: [inProgress]
    is cleared and the status bar updated. *)
Theorem force_operations_guard (w : World) :
  let outcome (op : M unit) (busyNotice : string) :=
    ∃ w',
      op w = (Ok tt, w') ∧
      if negb (settingsComplete (settings w)) then
        w' = mkWorld (syncState w) (settings w) (vault w) (env w)
               (log w ++ [configureNotice])
      else if inProgress (syncState w) then
        w' = mkWorld (syncState w) (settings w) (vault w) (env w)
               (log w ++ [EvNotice (js busyNotice)])
      else
        inProgress (syncState w') = false ∧ ∃ w2, w' = releasedForce w2 in
  outcome forcePullFromGitHub
    "Sync in progress, please wait before forcing a pull."%string ∧
  outcome forcePushToGitHub
    "Sync in progress, please wait before forcing a push."%string.
Proof.
  cbv zeta. split.
  - unfold forcePullFromGitHub.
    edestruct (guarded_force "Sync in progress, please wait before forcing a pull.")
      as (w' & Hrun & Hpost); [|rewrite Hrun].
    { intros error w0. by eexists. }
    exists w'. split; [reflexivity|].
    destruct (negb _); [done|]. destruct (inProgress _); [done|].
    destruct Hpost as (Hflag & w2 & -> & _). split; [done|]. by exists w2.
  - unfold forcePushToGitHub.
    edestruct (guarded_force "Sync in progress, please wait before forcing a push.")
      as (w' & Hrun & Hpost); [|rewrite Hrun].
    { intros error w0. by eexists. }
    exists w'. split; [reflexivity|].
    destruct (negb _); [done|]. destruct (inProgress _); [done|].
    destruct Hpost as (Hflag & w2 & -> & _). split; [done|]. by exists w2.
Qed.

End ForceOperations.


(** ** The settings across a pass *)

Section SettingsFrame.
Context `{Platform}.

Lemma keeps_ret {A} (a : A) : keepsSettings (mret a : M A).
Proof. by intros w. Qed.

Lemma keeps_throw {A} (e : JsError) : keepsSettings (throw e : M A).
Proof. by intros w. Qed.

Lemma keeps_bind {A B} (m : M A) (k : A → M B) :
  keepsSettings m → (∀ a, keepsSettings (k a)) → keepsSettings (m ≫= k).
Proof.
  intros Hm Hk w. specialize (Hm w). unfold mbind, M_bind, bind.
  destruct (m w) as [[a|e] w1]; [|done]. rewrite Hk. exact Hm.
Qed.

Lemma keeps_attempt {A} (m : M A) : keepsSettings m → keepsSettings (attempt m).
Proof. intros Hm w. specialize (Hm w). unfold attempt. by destruct (m w). Qed.

Lemma keeps_tryCatch {A} (m : M A) (h : JsError → M A) :
  keepsSettings m → (∀ e, keepsSettings (h e)) → keepsSettings (tryCatch m h).
Proof.
  intros Hm Hh w. specialize (Hm w). unfold tryCatch.
  destruct (m w) as [[a|e] w1]; [done|]. rewrite Hh. exact Hm.
Qed.

Lemma keeps_getState : keepsSettings getState.
Proof. by intros w. Qed.
Lemma keeps_getSettings : keepsSettings getSettings.
Proof. by intros w. Qed.
Lemma keeps_getVault : keepsSettings getVault.
Proof. by intros w. Qed.
Lemma keeps_now : keepsSettings now.
Proof. by intros w. Qed.
Lemma keeps_modifyState f : keepsSettings (modifyState f).
Proof. by intros w. Qed.
Lemma keeps_modifyVault f : keepsSettings (modifyVault f).
Proof. by intros w. Qed.
Lemma keeps_emit e : keepsSettings (emit e).
Proof. by intros w. Qed.
Lemma keeps_envStep {A} (f : Env → A * Env) : keepsSettings (envStep f).
Proof. intros w. unfold envStep. by destruct (f (env w)). Qed.
Lemma keeps_isActivelyEditing path : keepsSettings (isActivelyEditing path).
Proof. by intros w. Qed.
Lemma keeps_liftResult {A} (r : JsError + A) : keepsSettings (liftResult r).
Proof. intros w. by destruct r. Qed.
Lemma keeps_encodeFilePathM path : keepsSettings (encodeFilePathM path).
Proof. intros w. rewrite encodeFilePathM_run. by destruct (encodeFilePath path). Qed.
Lemma keeps_makeGitHubRequest req : keepsSettings (makeGitHubRequest req).
Proof.
  intros w. by destruct (makeGitHubRequest_effect req w) as (r & attempts & e' & ->).
Qed.

Create HintDb keeps discriminated.

#[local] Hint Resolve keeps_ret keeps_throw keeps_getState keeps_getSettings
  keeps_getVault keeps_now keeps_modifyState keeps_modifyVault keeps_emit
  keeps_envStep keeps_isActivelyEditing keeps_liftResult keeps_encodeFilePathM
  keeps_makeGitHubRequest : keeps.

(** One step through a computation: a known case, or the next bind, or
    the cases of a match. *)
Ltac keeps_step :=
  first
    [ solve [auto 1 with keeps nocore]
    | assumption
    | apply keeps_attempt
    | apply keeps_tryCatch; [|intros ?]
    | apply keeps_bind; [|intros ?]
    | match goal with
      | |- keepsSettings (match ?x with _ => _ end) => destruct x
      end ].

Ltac keeps := repeat keeps_step.

Lemma keeps_savePluginData : keepsSettings savePluginData.
Proof. unfold savePluginData. keeps. Qed.

Lemma keeps_sleep ms : keepsSettings (sleep ms).
Proof. unfold sleep. keeps. Qed.

Lemma keeps_vaultRead file : keepsSettings (vaultRead file).
Proof. unfold vaultRead. keeps. Qed.

Lemma keeps_setMetadata path md : keepsSettings (setMetadata path md).
Proof. apply keeps_modifyState. Qed.

Lemma keeps_getMetadata path : keepsSettings (getMetadata path).
Proof. unfold getMetadata. keeps. Qed.

#[local] Hint Resolve keeps_savePluginData keeps_sleep keeps_vaultRead
  keeps_setMetadata keeps_getMetadata : keeps.

Lemma keeps_downloadFile fileInfo : keepsSettings (downloadFile fileInfo).
Proof.
  unfold downloadFile, decodeContentOf, ensureDirectoryExists, getAbstractFileByPath,
    vaultModify, vaultCreate, pendingDelete.
  keeps.
Qed.

Lemma keeps_prepareUpload file localContent remotePath chosen :
  keepsSettings (prepareUpload file localContent remotePath chosen).
Proof.
  unfold prepareUpload, fetchCurrent, chooseResolution, decodeBase64M, statMtime,
    updateMetadata, vaultModify.
  keeps.
Qed.

Lemma keeps_putContent file remotePath contentToPush currentRemoteSha :
  keepsSettings (putContent file remotePath contentToPush currentRemoteSha).
Proof.
  unfold putContent, newShaOf, encodeBase64M, statMtime.
  keeps.
Qed.

#[local] Hint Resolve keeps_prepareUpload keeps_putContent : keeps.

Lemma keeps_uploadLoop file localContent remotePath maxRetries :
  ∀ remaining attemptsMade chosen,
    keepsSettings (uploadLoop remaining attemptsMade maxRetries file localContent
                              remotePath chosen).
Proof.
  induction remaining as [|remaining IH]; intros attemptsMade chosen;
    cbn [uploadLoop]; [apply keeps_ret|].
  keeps.
Qed.

Lemma keeps_uploadFile file maxRetries : keepsSettings (uploadFile file maxRetries).
Proof. unfold uploadFile. keeps. apply keeps_uploadLoop. Qed.

Lemma keeps_getLocalFileStates : keepsSettings getLocalFileStates.
Proof.
  intros w. by destruct (getLocalFileStates_lookup w) as (states & -> & _).
Qed.

#[local] Hint Resolve keeps_downloadFile keeps_uploadFile keeps_getLocalFileStates
  : keeps.

Lemma keeps_pushOne currentRemoteFiles file acc :
  keepsSettings (pushOne currentRemoteFiles file acc).
Proof.
  unfold pushOne. destruct acc as [localFiles pushedCount].
  unfold pendingDelete, showNotice.
  keeps.
Qed.

Lemma keeps_pushLoop currentRemoteFiles :
  ∀ files acc, keepsSettings (pushLoop currentRemoteFiles files acc).
Proof.
  induction files as [|file rest IH]; intros acc; cbn [pushLoop]; [apply keeps_ret|].
  keeps. apply keeps_pushOne.
Qed.

Lemma keeps_collectPushes localFiles :
  ∀ pending filesToPush, keepsSettings (collectPushes pending localFiles filesToPush).
Proof.
  induction pending as [|path rest IH]; intros filesToPush; cbn [collectPushes];
    [apply keeps_ret|].
  unfold pendingDelete. keeps.
Qed.

End SettingsFrame.


(** ** One pass of [performSync] *)

Section PerformSync.
Context `{Platform}.

Lemma collectPushes_ok (localFiles : list (list N * LocalFileState)) :
  ∀ pending filesToPush w,
    ∃ files w',
      collectPushes pending localFiles filesToPush w = (Ok files, w') ∧
      length files ≤ length filesToPush + length pending.
Proof.
  induction pending as [|path rest IH]; intros filesToPush w.
  - exists filesToPush, w. split; [done|]. lia.
  - cbn [collectPushes]. destruct (mapGet path localFiles) as [state|].
    + destruct (IH (if bool_decide (lf_file state ∈ filesToPush) then filesToPush
                    else filesToPush ++ [lf_file state]) w)
        as (files & w' & -> & Hlen).
      exists files, w'. split; [done|].
      destruct (bool_decide _); rewrite ?length_app in Hlen; cbn in *; lia.
    + rewrite bind_run, pendingDelete_run.
      destruct (IH filesToPush (unmarkPending path w)) as (files & w' & -> & Hlen).
      exists files, w'. split; [done|]. cbn. lia.
Qed.

Lemma pushOne_ok (currentRemoteFiles : option (list (list N * RemoteFileInfo)))
    (file : TFile) (localFiles : list (list N * LocalFileState)) (count : nat)
    (w : World) :
  ∃ localFiles' count' w',
    pushOne currentRemoteFiles file (localFiles, count) w
    = (Ok (localFiles', count'), w') ∧ count' ≤ S count.
Proof.
  unfold pushOne. rewrite bind_run. unfold attempt at 1.
  match goal with |- context [let (r, w') := ?run w in _] =>
    destruct (run w) as [[localFiles'|error] w1] end.
  - eexists _, _, _. split; [reflexivity|]. lia.
  - rewrite bind_run. unfold showNotice at 1, emit at 1.
    eexists _, _, _. split; [reflexivity|]. lia.
Qed.

Lemma pushLoop_ok (currentRemoteFiles : option (list (list N * RemoteFileInfo))) :
  ∀ files localFiles count w,
    ∃ localFiles' count' w',
      pushLoop currentRemoteFiles files (localFiles, count) w
      = (Ok (localFiles', count'), w') ∧ count' ≤ count + length files.
Proof.
  induction files as [|file rest IH]; intros localFiles count w.
  - exists localFiles, count, w. split; [done|]. lia.
  - cbn [pushLoop]. rewrite bind_run.
    destruct (pushOne_ok currentRemoteFiles file localFiles count w)
      as (localFiles1 & count1 & w1 & -> & Hcount1).
    destruct (IH localFiles1 count1 w1) as (localFiles2 & count2 & w2 & -> & Hcount2).
    eexists _, _, _. split; [reflexivity|]. cbn. lia.
Qed.

Lemma collectPulls_ok (localFiles : list (list N * LocalFileState))
    (filesToPush : list TFile) :
  ∀ remoteFiles filesToPull w,
    ∃ pulls w', collectPulls remoteFiles localFiles filesToPush filesToPull w
                = (Ok pulls, w').
Proof.
  induction remoteFiles as [|[path remote] rest IH]; intros filesToPull w.
  - by exists filesToPull, w.
  - cbn [collectPulls].
    cbv beta iota delta [mbind M_bind bind getState getSettings isActivelyEditing].
    destruct (mapGet path localFiles) as [localFile|]; [|apply IH].
    destruct (mapGet path (fileMetadata (syncState w))) as [metadata|]; [|apply IH].
    destruct (bool_decide (rf_sha remote ≠ githubBlobSha metadata)); [|apply IH].
    destruct (bool_decide (getActiveFile (env w) = Some path)).
    + destruct (negb (setHas path _)); cbn [when].
      * unfold displayName, isQuietMode.
        cbv beta iota delta [mbind M_bind bind mret M_ret ret modifyState getVault
          getSettings].
        destruct (notificationVerbosity _); cbn [negb when];
          unfold showNotice, emit; cbv beta iota delta [mret M_ret ret]; apply IH.
      * cbv beta iota delta [mret M_ret ret]. apply IH.
    + destruct (_ || _); [|apply IH].
      cbv beta iota delta [modifyState]. apply IH.
Qed.

Lemma deleteLocally_ok :
  ∀ files count w,
    ∃ count' w', deleteLocally files count w = (Ok count', w') ∧
                 count' ≤ count + length files.
Proof.
  induction files as [|file rest IH]; intros count w.
  - exists count, w. split; [done|]. lia.
  - cbn [deleteLocally]. rewrite bind_run. unfold attempt at 1.
    match goal with |- context [let (r, w') := ?run w in _] =>
      destruct (run w) as [[[]|error] w1] end.
    + destruct (IH (S count) w1) as (count' & w' & -> & Hcount).
      exists count', w'. split; [done|]. cbn. lia.
    + rewrite bind_run. unfold showNotice at 1, emit at 1.
      match goal with |- context [deleteLocally rest count ?w2] =>
        destruct (IH count w2) as (count' & w' & -> & Hcount) end.
      exists count', w'. split; [done|]. cbn. lia.
Qed.

Lemma pullLoop_ok :
  ∀ pulls count w,
    ∃ count' w', pullLoop pulls count w = (Ok count', w') ∧
                 count' ≤ count + length pulls.
Proof.
  induction pulls as [|remote rest IH]; intros count w.
  - exists count, w. split; [done|]. lia.
  - cbn [pullLoop]. rewrite bind_run. unfold attempt at 1.
    destruct (downloadFile remote w) as [[[]|error] w1].
    + destruct (IH (S count) w1) as (count' & w' & -> & Hcount).
      exists count', w'. split; [done|]. cbn. lia.
    + rewrite bind_run. unfold showNotice at 1, emit at 1.
      match goal with |- context [pullLoop rest count ?w2] =>
        destruct (IH count w2) as (count' & w' & -> & Hcount) end.
      exists count', w'. split; [done|]. cbn. lia.
Qed.

(** X23: with real-time sync off and a sync path that [encodeFilePath]
    can encode, [performSync] never throws, whatever the remote
    answers: the failure of a single push, pull or local deletion does
    not end the pass.  The number of pushes it reports is at most the number of
    pending paths it started with. *)
Theorem performSync_isolates_failures
    (localFiles : list (list N * LocalFileState))
    (currentRemoteFiles : option (list (list N * RemoteFileInfo))) (w : World) :
  realtimeSync (settings w) = false →
  is_Some (encodeFilePath (stripSlashes (trim (syncPath (settings w))))) →
  ∃ pushed pulled deletedLocally w',
    performSync localFiles currentRemoteFiles w
    = (Ok (pushed, pulled, deletedLocally), w') ∧
    pushed ≤ length (pendingFiles (syncState w)).
Proof.
  intros _ [encoded Hencoded].
  unfold performSync. rewrite bind_run. unfold getState at 1. rewrite bind_run.
  destruct (collectPushes_ok localFiles (pendingFiles (syncState w)) [] w)
    as (files & w1 & Hrun1 & Hfiles).
  pose proof (keeps_collectPushes localFiles (pendingFiles (syncState w)) [] w) as Hs1.
  rewrite Hrun1 in Hs1 |- *. cbn [snd] in Hs1.
  rewrite bind_run.
  destruct (pushLoop_ok currentRemoteFiles files localFiles 0 w1)
    as (localFiles1 & pushed & w2 & Hrun2 & Hpushed).
  pose proof (keeps_pushLoop currentRemoteFiles files (localFiles, 0) w1) as Hs2.
  rewrite Hrun2 in Hs2 |- *. cbn [snd] in Hs2.
  rewrite bind_run.
  assert (∃ remote w3, getRemoteFileStates w2 = (Ok remote, w3))
    as (remote & w3 & ->).
  { pose proof (getRemoteFileStates_cases w2) as Hcases.
    rewrite Hs2, Hs1, Hencoded in Hcases.
    destruct Hcases as (e' & events & [[api ->]| ->]); by eexists _, _. }
  rewrite bind_run.
  assert (∃ pulled deleted w4,
    match remote with
    | Some currentRemoteFiles0 =>
        filesToPull ← collectPulls currentRemoteFiles0 localFiles1 files [];
        st ← getState;
        t ← now;
        deletedLocallyCount ←
          deleteLocally (localDeletions st t currentRemoteFiles0 localFiles1) 0;
        pulledCount ← pullLoop filesToPull 0;
        mret (pulledCount, deletedLocallyCount)
    | None =>
        _ ← showNotice (js "Skipping some pull/delete operations due to network issues after push. Please check connection and try again.");
        mret (0, 0)
    end w3 = (Ok (pulled, deleted), w4)) as (pulled & deleted & w4 & ->).
  { destruct remote as [remoteFiles|].
    - rewrite bind_run.
      destruct (collectPulls_ok localFiles1 files remoteFiles [] w3) as (pulls & w4 & ->).
      rewrite bind_run. unfold getState at 1. rewrite bind_run. unfold now at 1.
      rewrite bind_run.
      destruct (deleteLocally_ok
                  (localDeletions (syncState w4) (dateNow (env w4)) remoteFiles localFiles1)
                  0 w4) as (deleted & w5 & -> & _).
      rewrite bind_run.
      destruct (pullLoop_ok pulls 0 w5) as (pulled & w6 & -> & _).
      by eexists _, _, _.
    - rewrite bind_run. unfold showNotice at 1, emit at 1. by eexists _, _, _. }
  rewrite bind_run. unfold expireCaches.
  cbv beta iota delta [mbind M_bind bind now modifyState mret M_ret ret].
  eexists _, _, _, _. split; [reflexivity|]. cbn in Hfiles. lia.
Qed.

End PerformSync.


(** ** The engine on the example platform *)

Section EngineExamples.
#[local] Existing Instance demoPlatform.


Lemma applyConflictResolution_effect_witness :
  let w := demoWorld "" [(js "a.md", js "L")] [(js "a.md", js "R")] 1700000000000 in
  let conflict :=
    mkConflict (demoLocalFile "a.md" "L")
      (mkRemoteFileInfo (js "a.md") (demoSha (js "R")) (js "file")) (js "R")
      (demoMetadata "a.md" "old-sha" "old-checksum") in
  ∃ w' f,
    applyConflictResolution (js "a.md") conflict ResMerge w = (Ok tt, w') ∧
    mapGet (js "a.md") (vault w') = Some f ∧
    vf_content f = mergeContent (js "L") (js "R") ∧
    js "a.md" ∈ pendingFiles (syncState w').
Proof.
  intros w conflict.
  destruct (applyConflictResolution_effect (js "a.md") conflict ResMerge w)
    as (w' & Hrun & _ & _ & (f & Hfile & Hcontent) & _ & Hpending).
  - vm_compute. reflexivity.
  - exists w', f. exact (conj Hrun (conj Hfile (conj Hcontent Hpending))).
Defined.


Lemma getRemoteFileStates_total_witness :
  let w := demoWorld "/notes/" [] [(js "notes/a.md", js "R")] 1700000000000 in
  ∃ r w',
    getRemoteFileStates w = (Ok r, w') ∧
    settings w' = settings w ∧ vault w' = vault w.
Proof.
  intros w.
  destruct (getRemoteFileStates_total w) as (r & w' & Hrun & Hsettings & Hvault & _).
  - eexists. vm_compute. reflexivity.
  - exists r, w'. exact (conj Hrun (conj Hsettings Hvault)).
Defined.

Lemma onFileRenamed_effect_witness :
  let w0 := demoWorld "" [(js "b.md", js "L")] [(js "a.md", js "L")] 1700000000000 in
  let md := demoMetadata "a.md" "old-sha" "old-checksum" in
  let w := mkWorld (upd_fileMetadata (mapSet (js "a.md") md) (syncState w0))
             (settings w0) (vault w0) (env w0) (log w0) in
  ∃ r w',
    onFileRenamed (tfileOf (js "b.md")) (js "a.md") w = (r, w') ∧
    mapGet (js "a.md") (fileMetadata (syncState w')) = None ∧
    mapGet (js "a.md") (pendingDeletions (syncState w')) = Some (js "old-sha").
Proof.
  intros w0 md w.
  destruct (onFileRenamed_effect (tfileOf (js "b.md")) (js "a.md") w)
    as (r & w' & Hrun & _ & _ & Hgone & _ & Hscheduled & _).
  - vm_compute. discriminate.
  - exists r, w'. exact (conj Hrun (conj Hgone Hscheduled)).
Defined.

Lemma performSync_isolates_failures_witness :
  let w0 := demoWorld "" [(js "a.md", js "L")] [] 1700000000000 in
  let w := mkWorld (upd_pendingFiles (setAdd (js "a.md")) (syncState w0))
             (settings w0) (vault w0) (env w0) (log w0) in
  ∃ pushed pulled deletedLocally w',
    performSync [(js "a.md", demoLocalFile "a.md" "L")] (Some []) w
    = (Ok (pushed, pulled, deletedLocally), w') ∧
    pushed ≤ 1.
Proof.
  intros w0 w.
  apply (performSync_isolates_failures [(js "a.md", demoLocalFile "a.md" "L")]
           (Some []) w).
  - reflexivity.
  - eexists. vm_compute. reflexivity.
Defined.

End EngineExamples.


Section ResolverExamples.
#[local] Existing Instance demoPlatform.

Lemma resolveConflicts_keeps_local_witness :
  let w := demoWorld "" [(js "a.md", js "L")] [(js "a.md", js "R")] 1700000000000 in
  let conflict :=
    mkConflict (demoLocalFile "a.md" "L")
      (mkRemoteFileInfo (js "a.md") (demoSha (js "R")) (js "file")) (js "R")
      (demoMetadata "a.md" "old-sha" "old-checksum") in
  ∃ w',
    resolveConflicts [(js "a.md", conflict)] RealtimeSync w = (Ok tt, w') ∧
    vault w' = vault w ∧
    js "a.md" ∈ pendingFiles (syncState w').
Proof.
  intros w conflict.
  destruct (resolveConflicts_keeps_local [(js "a.md", conflict)] RealtimeSync w)
    as (w' & Hrun & _ & Hvault & _ & _ & Hpending).
  - right. split; reflexivity.
  - exists w'. split; [exact Hrun|]. split; [exact Hvault|].
    apply Hpending. right. apply list_elem_of_singleton. reflexivity.
Defined.

End ResolverExamples.

